(** * The command-line front end of the multiscale DDM tool

    A shallow embedding of [main.cpp] and [debug.cpp]: option parsing with
    [getopt], the checks made through [conditionAssert], the two-pass reading
    of the four parameter files and the single call of [runDDM].

    The program is modelled as a function from its argument vector and its
    environment (the files that can be opened and the room on the stack) to
    a trace of observable events and a result.  The C and C++ library
    routines the program relies on ([getopt], [atoi], formatted stream
    extraction, single and double precision arithmetic) are modelled in the
    first half of the file. *)

From Stdlib Require Import ZArith String Ascii List Bool Lia.
From Stdlib Require Import Floats.SpecFloat.
From Stdlib Require Import DecimalString.
Import ListNotations.

Open Scope string_scope.
Open Scope Z_scope.

(** ** Characters and strings *)

Module Chars.

Definition NL : string := String (ascii_of_nat 10) "".
Definition TAB : string := String (ascii_of_nat 9) "".

(** [isspace] in the "C" locale: space and the controls 9 to 13. *)
Definition isspace (c : ascii) : bool :=
  let n := nat_of_ascii c in
  (Nat.eqb n 32 || (Nat.leb 9 n && Nat.leb n 13))%bool.

Definition isdigit (c : ascii) : bool :=
  let n := nat_of_ascii c in (Nat.leb 48 n && Nat.leb n 57)%bool.

Definition digit_val (c : ascii) : Z := Z.of_nat (nat_of_ascii c) - 48.

Fixpoint skip_ws (s : string) : string :=
  match s with
  | String c r => if isspace c then skip_ws r else s
  | EmptyString => s
  end.

Fixpoint all_space (s : string) : bool :=
  match s with
  | String c r => (isspace c && all_space r)%bool
  | EmptyString => true
  end.

Fixpoint no_space (s : string) : bool :=
  match s with
  | String c r => (negb (isspace c) && no_space r)%bool
  | EmptyString => true
  end.

(** The longest prefix of decimal digits, read as a number, its length, and
    what follows it. *)
Fixpoint digits_from (acc : Z) (n : nat) (s : string) : Z * nat * string :=
  match s with
  | String c r =>
      if isdigit c then digits_from (10 * acc + digit_val c) (S n) r
      else (acc, n, s)
  | EmptyString => (acc, n, s)
  end.

Definition starts_with_space (s : string) : bool :=
  match s with
  | String c _ => isspace c
  | EmptyString => false
  end.

End Chars.
Import Chars.

(** ** Machine integers *)

Definition INT_MIN : Z := - 2 ^ 31.
Definition INT_MAX : Z := 2 ^ 31 - 1.
Definition LONG_MIN : Z := - 2 ^ 63.
Definition LONG_MAX : Z := 2 ^ 63 - 1.

Definition in_int_range (v : Z) : bool := ((INT_MIN <=? v) && (v <=? INT_MAX))%bool.

(** Conversion of a [long] to [int]: the low 32 bits, read as signed. *)
Definition long_to_int (v : Z) : Z := (v + 2 ^ 31) mod 2 ^ 32 - 2 ^ 31.

(** [strtol (s, NULL, 10)]: white space, an optional sign, the longest run of
    digits; the result saturates at the bounds of [long]. *)
Definition strtol (s : string) : Z :=
  let s1 := skip_ws s in
  let '(neg, s2) :=
    match s1 with
    | String "-" r => (true, r)
    | String "+" r => (false, r)
    | _ => (false, s1)
    end in
  let '(v, _, _) := digits_from 0 0 s2 in
  let v := if neg : bool then - v else v in
  Z.max LONG_MIN (Z.min LONG_MAX v).

(** [atoi (s)] is [(int) strtol (s, NULL, 10)]. *)
Definition atoi (s : string) : Z := long_to_int (strtol s).

(** ** Floating point

    [float] is IEEE binary32 and [double] binary64, both with rounding to
    nearest even, as the specification of floats in the standard library
    has them. *)

Module Float.

Definition float := spec_float.
Definition double := spec_float.

Definition int_to_float (n : Z) : float := binary_normalize 24 128 n 0 false.
Definition int_to_double (n : Z) : double := binary_normalize 53 1024 n 0 false.

Definition float_to_double (x : float) : double :=
  match x with
  | S754_finite s m e => binary_round 53 1024 s m e
  | _ => x
  end.

Definition double_to_float (x : double) : float :=
  match x with
  | S754_finite s m e => binary_round 24 128 s m e
  | _ => x
  end.

Definition fdiv : float -> float -> float := SFdiv 24 128.
Definition ddiv : double -> double -> double := SFdiv 53 1024.
Definition dadd : double -> double -> double := SFadd 53 1024.

(** The value of the decimal literal [m * 10 ^ e], correctly rounded. *)
Definition decimal (prec emax : Z) (neg : bool) (m : Z) (e : Z) : spec_float :=
  match m with
  | Z0 => S754_zero neg
  | Zneg _ => S754_nan
  | Zpos p =>
      match e with
      | Zneg k =>
          let '(q, eq, l) := SFdiv_core_binary prec emax (Zpos p) 0 (10 ^ Zpos k) 0 in
          binary_round_aux prec emax neg q eq l
      | _ => binary_normalize prec emax (if neg then - (m * 10 ^ e) else m * 10 ^ e) 0 false
      end
  end.

Definition double_lit (m e : Z) : double := decimal 53 1024 false m e.

Definition is_infinite (x : spec_float) : bool :=
  match x with
  | S754_infinity _ => true
  | _ => false
  end.

End Float.
Import Float.


(** ** [getopt]

    The C library's [getopt (argc, argv, optstring)], for an option string
    that starts with neither [+] nor [-] nor [:] and with [opterr] left at
    its default.  The scanner keeps, between calls, the unread rest of the
    option cluster it is in ([nextchar]) and its position [optind] in the
    argument vector.  The model holds the elements of [argv] that come after
    the current one instead of the index; [optind] is recovered from their
    number.  GNU [getopt] passes over operands that stand between options
    and moves them behind the options ([PERMUTE], the default); with
    [POSIXLY_CORRECT] in the environment it stops at the first operand
    ([REQUIRE_ORDER]). *)

Module Getopt.

Inductive ordering := REQUIRE_ORDER | PERMUTE.

Inductive has_arg := no_argument | required_argument | optional_argument.

Record getopt_data := {
  nextchar : string;       (* unread rest of the current cluster, empty when between elements *)
  rest : list string;      (* the elements of argv after the current one *)
  nonopts : list string    (* operands passed over, to be moved behind the options *)
}.

Definition initial (args : list string) : getopt_data :=
  {| nextchar := ""; rest := args; nonopts := [] |}.

(** The index of the next element of [argv] to be processed. *)
Definition optind (argc : Z) (d : getopt_data) : Z :=
  argc - Z.of_nat (length (rest d)) - (match nextchar d with "" => 0 | _ => 1 end).

(** An element that is not an option: it does not start with [-], or it is
    [-] alone. *)
Definition NONOPTION_P (a : string) : bool :=
  match a with
  | String "-" (String _ _) => false
  | _ => true
  end.

Fixpoint skip_nonopts (l : list string) : list string * list string :=
  match l with
  | a :: r =>
      if NONOPTION_P a then let '(n, r') := skip_nonopts r in (a :: n, r')
      else ([], l)
  | [] => ([], [])
  end.

(** [strchr (optstring, c)] and the colons that follow the match. *)
Fixpoint strchr_arg (c : ascii) (optstring : string) : option has_arg :=
  match optstring with
  | String a r =>
      if Ascii.eqb a c then
        Some match r with
             | String ":" (String ":" _) => optional_argument
             | String ":" _ => required_argument
             | _ => no_argument
             end
      else strchr_arg c r
  | EmptyString => None
  end.

Definition find_option (c : ascii) (optstring : string) : option has_arg :=
  if (Ascii.eqb c ":" || Ascii.eqb c ";")%bool then None else strchr_arg c optstring.

(** What one call hands back: the returned character ([None] for -1),
    [optarg], what was written to [stderr], and the scanner's new state. *)
Record getopt_result := {
  opt_char : option ascii;
  optarg : option string;
  message : list string;
  after : getopt_data
}.

Definition invalid_option (argv0 : string) (c : ascii) : string :=
  argv0 ++ ": invalid option -- '" ++ String c "" ++ "'" ++ NL.

Definition requires_argument (argv0 : string) (c : ascii) : string :=
  argv0 ++ ": option requires an argument -- '" ++ String c "" ++ "'" ++ NL.

(** The option character [c] has been read from a cluster whose unread rest
    is [nc]; [r] holds the elements after the cluster's. *)
Definition take_option (argv0 optstring : string) (c : ascii) (nc : string)
    (r n : list string) : getopt_result :=
  match find_option c optstring with
  | None =>
      {| opt_char := Some "?"%char; optarg := None;
         message := [invalid_option argv0 c];
         after := {| nextchar := nc; rest := r; nonopts := n |} |}
  | Some no_argument =>
      {| opt_char := Some c; optarg := None; message := [];
         after := {| nextchar := nc; rest := r; nonopts := n |} |}
  | Some optional_argument =>
      match nc with
      | "" =>
          {| opt_char := Some c; optarg := None; message := [];
             after := {| nextchar := ""; rest := r; nonopts := n |} |}
      | _ =>
          {| opt_char := Some c; optarg := Some nc; message := [];
             after := {| nextchar := ""; rest := r; nonopts := n |} |}
      end
  | Some required_argument =>
      match nc, r with
      | String _ _, _ =>
          {| opt_char := Some c; optarg := Some nc; message := [];
             after := {| nextchar := ""; rest := r; nonopts := n |} |}
      | "", a :: r' =>
          {| opt_char := Some c; optarg := Some a; message := [];
             after := {| nextchar := ""; rest := r'; nonopts := n |} |}
      | "", [] =>
          {| opt_char := Some "?"%char; optarg := None;
             message := [requires_argument argv0 c];
             after := {| nextchar := ""; rest := []; nonopts := n |} |}
      end
  end.

(** The scan is over: the operands passed over now stand at [optind], in
    front of what was left unscanned. *)
Definition finish (n r : list string) : getopt_result :=
  {| opt_char := None; optarg := None; message := [];
     after := {| nextchar := ""; rest := (n ++ r)%list; nonopts := [] |} |}.

Definition getopt (ord : ordering) (argv0 optstring : string) (d : getopt_data)
    : getopt_result :=
  match nextchar d with
  | String c nc => take_option argv0 optstring c nc (rest d) (nonopts d)
  | "" =>
      let '(n, r) :=
        match ord with
        | PERMUTE => let '(sk, r) := skip_nonopts (rest d) in ((nonopts d ++ sk)%list, r)
        | REQUIRE_ORDER => (nonopts d, rest d)
        end in
      match r with
      | [] => finish n []
      | a :: r' =>
          if String.eqb a "--" then finish n r'
          else
            match a with
            | String "-" (String c nc) => take_option argv0 optstring c nc r' n
            | _ => finish n r
            end
      end
  end.

Fixpoint total (l : list string) : nat :=
  match l with
  | a :: r => S (String.length a) + total r
  | [] => O
  end.

(** Every call that returns an option character uses up part of the
    argument vector: [weight] bounds the number of calls still to come. *)
Definition weight (d : getopt_data) : nat := String.length (nextchar d) + total (rest d).

End Getopt.
Import Getopt.

(** ** Formatted input

    [stream >> x] for an arithmetic [x]: white space is skipped, the
    characters that can belong to a number are gathered (a leading sign,
    then whatever the scanner of the type accepts), and the gathered text is
    converted.  The extraction fails when the text is not a number of the
    type or its value is out of range. *)

Module NumGet.

Record num_get (T : Type) := {
  ng_state : Type;
  ng_init : ng_state;
  ng_step : ng_state -> ascii -> option (ng_state * string);
  ng_convert : string -> option T
}.
Arguments ng_state {T}.
Arguments ng_init {T}.
Arguments ng_step {T}.
Arguments ng_convert {T}.

Section Accumulate.
Context {S : Type} (step : S -> ascii -> option (S * string)).

(** The gathered text and the unread rest. *)
Fixpoint accumulate (st : S) (s : string) : string * string :=
  match s with
  | String c r =>
      match step st c with
      | Some (st', out) => let '(x, r') := accumulate st' r in (out ++ x, r')
      | None => ("", s)
      end
  | EmptyString => ("", "")
  end.
End Accumulate.

Definition take_sign (s : string) : string * string :=
  match s with
  | String "-" r => ("-", r)
  | String "+" r => ("+", r)
  | _ => ("", s)
  end.

Definition get {T} (ng : num_get T) (s : string) : option (T * string) :=
  let '(sg, s2) := take_sign (skip_ws s) in
  let '(x, r) := accumulate (ng_step ng) (ng_init ng) s2 in
  match ng_convert ng (sg ++ x) with
  | Some v => Some (v, r)
  | None => None
  end.

(** *** [int] *)

Definition int_step (_ : unit) (c : ascii) : option (unit * string) :=
  if isdigit c then Some (tt, String c "") else None.

Definition int_convert (x : string) : option Z :=
  let '(sg, ds) := take_sign x in
  match digits_from 0 0 ds with
  | (_, O, _) => None
  | (v, _, "") =>
      let v := if String.eqb sg "-" then - v else v in
      if in_int_range v then Some v else None
  | _ => None
  end.

Definition get_int : num_get Z :=
  {| ng_state := unit; ng_init := tt; ng_step := int_step; ng_convert := int_convert |}.

(** *** [float] *)

Record float_scan := {
  leading : bool;          (* still among the leading zeros *)
  found_mantissa : bool;
  found_dec : bool;
  found_sci : bool;
  after_e : bool           (* the exponent letter was the last character read *)
}.

Definition float_init : float_scan :=
  {| leading := true; found_mantissa := false; found_dec := false;
     found_sci := false; after_e := false |}.

Definition float_body (st : float_scan) (c : ascii) : option (float_scan * string) :=
  if isdigit c then
    Some ({| leading := false; found_mantissa := true; found_dec := found_dec st;
             found_sci := found_sci st; after_e := false |}, String c "")
  else if (Ascii.eqb c "." && negb (found_dec st) && negb (found_sci st))%bool then
    Some ({| leading := false; found_mantissa := found_mantissa st; found_dec := true;
             found_sci := found_sci st; after_e := false |}, ".")
  else if ((Ascii.eqb c "e" || Ascii.eqb c "E") && negb (found_sci st)
           && found_mantissa st)%bool then
    Some ({| leading := false; found_mantissa := true; found_dec := found_dec st;
             found_sci := true; after_e := true |}, "e")
  else None.

Definition float_step (st : float_scan) (c : ascii) : option (float_scan * string) :=
  if after_e st then
    if (Ascii.eqb c "+" || Ascii.eqb c "-")%bool then
      Some ({| leading := false; found_mantissa := found_mantissa st;
               found_dec := found_dec st; found_sci := found_sci st;
               after_e := false |}, String c "")
    else float_body st c
  else if (leading st && Ascii.eqb c "0")%bool then
    Some ({| leading := true; found_mantissa := true; found_dec := found_dec st;
             found_sci := found_sci st; after_e := false |},
          if found_mantissa st then "" else "0")
  else float_body st c.

(** A decimal floating literal: sign, digits with at most one point,
    optional exponent.  The result is the sign, the digits read as one
    integer, the power of ten that scales it, and the unread rest. *)
Definition parse_decimal (x : string) : option (bool * Z * Z * string) :=
  let '(sg, s1) := take_sign x in
  let '(m1, n1, s2) := digits_from 0 0 s1 in
  let '(m, n2, s3) :=
    match s2 with
    | String "." r => digits_from m1 0 r
    | _ => (m1, O, s2)
    end in
  match (n1 + n2)%nat with
  | O => None
  | _ =>
      let '(e, s4) :=
        match s3 with
        | String c r =>
            if (Ascii.eqb c "e" || Ascii.eqb c "E")%bool then
              let '(esg, r1) := take_sign r in
              match digits_from 0 0 r1 with
              | (_, O, _) => (0, s3)
              | (v, _, r2) => (if String.eqb esg "-" then - v else v, r2)
              end
            else (0, s3)
        | EmptyString => (0, s3)
        end in
      Some (String.eqb sg "-", m, e - Z.of_nat n2, s4)
  end.

(** [strtof] on the gathered text, which must be used up; a value that
    overflows is a failure. *)
Definition float_convert (x : string) : option float :=
  match parse_decimal x with
  | Some (neg, m, e, "") =>
      let v := decimal 24 128 neg m e in
      if is_infinite v then None else Some v
  | _ => None
  end.

Definition get_float : num_get float :=
  {| ng_state := float_scan; ng_init := float_init; ng_step := float_step;
     ng_convert := float_convert |}.

End NumGet.
Import NumGet.

(** ** The configuration record

    [struct DDMparams] and its one instance, the global [params]. *)

Record DDMparams := {
  file_in : string;
  file_out : string;
  q_file_name : string;  (* file-path for q-vector *)
  t_file_name : string;  (* file-path for tau-vector *)
  s_file_name : string;  (* file-path for scale-vector *)
  e_file_name : string;  (* file-path for episode-vector *)
  frame_count : Z;  (* number of frames to analyse *)
  frame_offset : Z;  (* number of frames to skip at start *)
  x_off : Z;
  y_off : Z;
  chunk_length : Z;  (* number of frames in frame buffer *)
  rolling_purge : Z;  (* purge and analyse accumulators after number of frames *)
  use_webcam : bool;
  webcam_idx : Z;
  use_movie_file : bool;
  use_index_fps : bool;
  use_explicit_fps : bool;
  explicit_fps : float;
  multi_stream : bool;
  q_tolerance : float;  (* tolerance factor for q-vector mask *)
  benchmark_mode : bool;
  use_episodes : bool;
  enable_angle_analysis : bool;
  angle_count : Z
}.

(** Assignment to one member.  Only the members [main] assigns have one:
    [multi_stream] and [use_episodes] are never written. *)

Definition set_file_out (v : string) (p : DDMparams) : DDMparams :=
  {| file_in := file_in p; file_out := v; q_file_name := q_file_name p;
     t_file_name := t_file_name p; s_file_name := s_file_name p;
     e_file_name := e_file_name p; frame_count := frame_count p;
     frame_offset := frame_offset p; x_off := x_off p; y_off := y_off p;
     chunk_length := chunk_length p; rolling_purge := rolling_purge p;
     use_webcam := use_webcam p; webcam_idx := webcam_idx p;
     use_movie_file := use_movie_file p; use_index_fps := use_index_fps p;
     use_explicit_fps := use_explicit_fps p; explicit_fps := explicit_fps p;
     multi_stream := multi_stream p; q_tolerance := q_tolerance p;
     benchmark_mode := benchmark_mode p; use_episodes := use_episodes p;
     enable_angle_analysis := enable_angle_analysis p; angle_count := angle_count p |}.

Definition set_frame_count (v : Z) (p : DDMparams) : DDMparams :=
  {| file_in := file_in p; file_out := file_out p; q_file_name := q_file_name p;
     t_file_name := t_file_name p; s_file_name := s_file_name p;
     e_file_name := e_file_name p; frame_count := v; frame_offset := frame_offset p;
     x_off := x_off p; y_off := y_off p; chunk_length := chunk_length p;
     rolling_purge := rolling_purge p; use_webcam := use_webcam p;
     webcam_idx := webcam_idx p; use_movie_file := use_movie_file p;
     use_index_fps := use_index_fps p; use_explicit_fps := use_explicit_fps p;
     explicit_fps := explicit_fps p; multi_stream := multi_stream p;
     q_tolerance := q_tolerance p; benchmark_mode := benchmark_mode p;
     use_episodes := use_episodes p; enable_angle_analysis := enable_angle_analysis p;
     angle_count := angle_count p |}.

Definition set_x_off (v : Z) (p : DDMparams) : DDMparams :=
  {| file_in := file_in p; file_out := file_out p; q_file_name := q_file_name p;
     t_file_name := t_file_name p; s_file_name := s_file_name p;
     e_file_name := e_file_name p; frame_count := frame_count p;
     frame_offset := frame_offset p; x_off := v; y_off := y_off p;
     chunk_length := chunk_length p; rolling_purge := rolling_purge p;
     use_webcam := use_webcam p; webcam_idx := webcam_idx p;
     use_movie_file := use_movie_file p; use_index_fps := use_index_fps p;
     use_explicit_fps := use_explicit_fps p; explicit_fps := explicit_fps p;
     multi_stream := multi_stream p; q_tolerance := q_tolerance p;
     benchmark_mode := benchmark_mode p; use_episodes := use_episodes p;
     enable_angle_analysis := enable_angle_analysis p; angle_count := angle_count p |}.

Definition set_y_off (v : Z) (p : DDMparams) : DDMparams :=
  {| file_in := file_in p; file_out := file_out p; q_file_name := q_file_name p;
     t_file_name := t_file_name p; s_file_name := s_file_name p;
     e_file_name := e_file_name p; frame_count := frame_count p;
     frame_offset := frame_offset p; x_off := x_off p; y_off := v;
     chunk_length := chunk_length p; rolling_purge := rolling_purge p;
     use_webcam := use_webcam p; webcam_idx := webcam_idx p;
     use_movie_file := use_movie_file p; use_index_fps := use_index_fps p;
     use_explicit_fps := use_explicit_fps p; explicit_fps := explicit_fps p;
     multi_stream := multi_stream p; q_tolerance := q_tolerance p;
     benchmark_mode := benchmark_mode p; use_episodes := use_episodes p;
     enable_angle_analysis := enable_angle_analysis p; angle_count := angle_count p |}.

Definition set_q_file_name (v : string) (p : DDMparams) : DDMparams :=
  {| file_in := file_in p; file_out := file_out p; q_file_name := v;
     t_file_name := t_file_name p; s_file_name := s_file_name p;
     e_file_name := e_file_name p; frame_count := frame_count p;
     frame_offset := frame_offset p; x_off := x_off p; y_off := y_off p;
     chunk_length := chunk_length p; rolling_purge := rolling_purge p;
     use_webcam := use_webcam p; webcam_idx := webcam_idx p;
     use_movie_file := use_movie_file p; use_index_fps := use_index_fps p;
     use_explicit_fps := use_explicit_fps p; explicit_fps := explicit_fps p;
     multi_stream := multi_stream p; q_tolerance := q_tolerance p;
     benchmark_mode := benchmark_mode p; use_episodes := use_episodes p;
     enable_angle_analysis := enable_angle_analysis p; angle_count := angle_count p |}.

Definition set_t_file_name (v : string) (p : DDMparams) : DDMparams :=
  {| file_in := file_in p; file_out := file_out p; q_file_name := q_file_name p;
     t_file_name := v; s_file_name := s_file_name p; e_file_name := e_file_name p;
     frame_count := frame_count p; frame_offset := frame_offset p; x_off := x_off p;
     y_off := y_off p; chunk_length := chunk_length p;
     rolling_purge := rolling_purge p; use_webcam := use_webcam p;
     webcam_idx := webcam_idx p; use_movie_file := use_movie_file p;
     use_index_fps := use_index_fps p; use_explicit_fps := use_explicit_fps p;
     explicit_fps := explicit_fps p; multi_stream := multi_stream p;
     q_tolerance := q_tolerance p; benchmark_mode := benchmark_mode p;
     use_episodes := use_episodes p; enable_angle_analysis := enable_angle_analysis p;
     angle_count := angle_count p |}.

Definition set_s_file_name (v : string) (p : DDMparams) : DDMparams :=
  {| file_in := file_in p; file_out := file_out p; q_file_name := q_file_name p;
     t_file_name := t_file_name p; s_file_name := v; e_file_name := e_file_name p;
     frame_count := frame_count p; frame_offset := frame_offset p; x_off := x_off p;
     y_off := y_off p; chunk_length := chunk_length p;
     rolling_purge := rolling_purge p; use_webcam := use_webcam p;
     webcam_idx := webcam_idx p; use_movie_file := use_movie_file p;
     use_index_fps := use_index_fps p; use_explicit_fps := use_explicit_fps p;
     explicit_fps := explicit_fps p; multi_stream := multi_stream p;
     q_tolerance := q_tolerance p; benchmark_mode := benchmark_mode p;
     use_episodes := use_episodes p; enable_angle_analysis := enable_angle_analysis p;
     angle_count := angle_count p |}.

Definition set_e_file_name (v : string) (p : DDMparams) : DDMparams :=
  {| file_in := file_in p; file_out := file_out p; q_file_name := q_file_name p;
     t_file_name := t_file_name p; s_file_name := s_file_name p; e_file_name := v;
     frame_count := frame_count p; frame_offset := frame_offset p; x_off := x_off p;
     y_off := y_off p; chunk_length := chunk_length p;
     rolling_purge := rolling_purge p; use_webcam := use_webcam p;
     webcam_idx := webcam_idx p; use_movie_file := use_movie_file p;
     use_index_fps := use_index_fps p; use_explicit_fps := use_explicit_fps p;
     explicit_fps := explicit_fps p; multi_stream := multi_stream p;
     q_tolerance := q_tolerance p; benchmark_mode := benchmark_mode p;
     use_episodes := use_episodes p; enable_angle_analysis := enable_angle_analysis p;
     angle_count := angle_count p |}.

Definition set_use_index_fps (v : bool) (p : DDMparams) : DDMparams :=
  {| file_in := file_in p; file_out := file_out p; q_file_name := q_file_name p;
     t_file_name := t_file_name p; s_file_name := s_file_name p;
     e_file_name := e_file_name p; frame_count := frame_count p;
     frame_offset := frame_offset p; x_off := x_off p; y_off := y_off p;
     chunk_length := chunk_length p; rolling_purge := rolling_purge p;
     use_webcam := use_webcam p; webcam_idx := webcam_idx p;
     use_movie_file := use_movie_file p; use_index_fps := v;
     use_explicit_fps := use_explicit_fps p; explicit_fps := explicit_fps p;
     multi_stream := multi_stream p; q_tolerance := q_tolerance p;
     benchmark_mode := benchmark_mode p; use_episodes := use_episodes p;
     enable_angle_analysis := enable_angle_analysis p; angle_count := angle_count p |}.

Definition set_frame_offset (v : Z) (p : DDMparams) : DDMparams :=
  {| file_in := file_in p; file_out := file_out p; q_file_name := q_file_name p;
     t_file_name := t_file_name p; s_file_name := s_file_name p;
     e_file_name := e_file_name p; frame_count := frame_count p; frame_offset := v;
     x_off := x_off p; y_off := y_off p; chunk_length := chunk_length p;
     rolling_purge := rolling_purge p; use_webcam := use_webcam p;
     webcam_idx := webcam_idx p; use_movie_file := use_movie_file p;
     use_index_fps := use_index_fps p; use_explicit_fps := use_explicit_fps p;
     explicit_fps := explicit_fps p; multi_stream := multi_stream p;
     q_tolerance := q_tolerance p; benchmark_mode := benchmark_mode p;
     use_episodes := use_episodes p; enable_angle_analysis := enable_angle_analysis p;
     angle_count := angle_count p |}.

Definition set_file_in (v : string) (p : DDMparams) : DDMparams :=
  {| file_in := v; file_out := file_out p; q_file_name := q_file_name p;
     t_file_name := t_file_name p; s_file_name := s_file_name p;
     e_file_name := e_file_name p; frame_count := frame_count p;
     frame_offset := frame_offset p; x_off := x_off p; y_off := y_off p;
     chunk_length := chunk_length p; rolling_purge := rolling_purge p;
     use_webcam := use_webcam p; webcam_idx := webcam_idx p;
     use_movie_file := use_movie_file p; use_index_fps := use_index_fps p;
     use_explicit_fps := use_explicit_fps p; explicit_fps := explicit_fps p;
     multi_stream := multi_stream p; q_tolerance := q_tolerance p;
     benchmark_mode := benchmark_mode p; use_episodes := use_episodes p;
     enable_angle_analysis := enable_angle_analysis p; angle_count := angle_count p |}.

Definition set_use_webcam (v : bool) (p : DDMparams) : DDMparams :=
  {| file_in := file_in p; file_out := file_out p; q_file_name := q_file_name p;
     t_file_name := t_file_name p; s_file_name := s_file_name p;
     e_file_name := e_file_name p; frame_count := frame_count p;
     frame_offset := frame_offset p; x_off := x_off p; y_off := y_off p;
     chunk_length := chunk_length p; rolling_purge := rolling_purge p; use_webcam := v;
     webcam_idx := webcam_idx p; use_movie_file := use_movie_file p;
     use_index_fps := use_index_fps p; use_explicit_fps := use_explicit_fps p;
     explicit_fps := explicit_fps p; multi_stream := multi_stream p;
     q_tolerance := q_tolerance p; benchmark_mode := benchmark_mode p;
     use_episodes := use_episodes p; enable_angle_analysis := enable_angle_analysis p;
     angle_count := angle_count p |}.

Definition set_webcam_idx (v : Z) (p : DDMparams) : DDMparams :=
  {| file_in := file_in p; file_out := file_out p; q_file_name := q_file_name p;
     t_file_name := t_file_name p; s_file_name := s_file_name p;
     e_file_name := e_file_name p; frame_count := frame_count p;
     frame_offset := frame_offset p; x_off := x_off p; y_off := y_off p;
     chunk_length := chunk_length p; rolling_purge := rolling_purge p;
     use_webcam := use_webcam p; webcam_idx := v; use_movie_file := use_movie_file p;
     use_index_fps := use_index_fps p; use_explicit_fps := use_explicit_fps p;
     explicit_fps := explicit_fps p; multi_stream := multi_stream p;
     q_tolerance := q_tolerance p; benchmark_mode := benchmark_mode p;
     use_episodes := use_episodes p; enable_angle_analysis := enable_angle_analysis p;
     angle_count := angle_count p |}.

Definition set_benchmark_mode (v : bool) (p : DDMparams) : DDMparams :=
  {| file_in := file_in p; file_out := file_out p; q_file_name := q_file_name p;
     t_file_name := t_file_name p; s_file_name := s_file_name p;
     e_file_name := e_file_name p; frame_count := frame_count p;
     frame_offset := frame_offset p; x_off := x_off p; y_off := y_off p;
     chunk_length := chunk_length p; rolling_purge := rolling_purge p;
     use_webcam := use_webcam p; webcam_idx := webcam_idx p;
     use_movie_file := use_movie_file p; use_index_fps := use_index_fps p;
     use_explicit_fps := use_explicit_fps p; explicit_fps := explicit_fps p;
     multi_stream := multi_stream p; q_tolerance := q_tolerance p; benchmark_mode := v;
     use_episodes := use_episodes p; enable_angle_analysis := enable_angle_analysis p;
     angle_count := angle_count p |}.

Definition set_q_tolerance (v : float) (p : DDMparams) : DDMparams :=
  {| file_in := file_in p; file_out := file_out p; q_file_name := q_file_name p;
     t_file_name := t_file_name p; s_file_name := s_file_name p;
     e_file_name := e_file_name p; frame_count := frame_count p;
     frame_offset := frame_offset p; x_off := x_off p; y_off := y_off p;
     chunk_length := chunk_length p; rolling_purge := rolling_purge p;
     use_webcam := use_webcam p; webcam_idx := webcam_idx p;
     use_movie_file := use_movie_file p; use_index_fps := use_index_fps p;
     use_explicit_fps := use_explicit_fps p; explicit_fps := explicit_fps p;
     multi_stream := multi_stream p; q_tolerance := v;
     benchmark_mode := benchmark_mode p; use_episodes := use_episodes p;
     enable_angle_analysis := enable_angle_analysis p; angle_count := angle_count p |}.

Definition set_chunk_length (v : Z) (p : DDMparams) : DDMparams :=
  {| file_in := file_in p; file_out := file_out p; q_file_name := q_file_name p;
     t_file_name := t_file_name p; s_file_name := s_file_name p;
     e_file_name := e_file_name p; frame_count := frame_count p;
     frame_offset := frame_offset p; x_off := x_off p; y_off := y_off p;
     chunk_length := v; rolling_purge := rolling_purge p; use_webcam := use_webcam p;
     webcam_idx := webcam_idx p; use_movie_file := use_movie_file p;
     use_index_fps := use_index_fps p; use_explicit_fps := use_explicit_fps p;
     explicit_fps := explicit_fps p; multi_stream := multi_stream p;
     q_tolerance := q_tolerance p; benchmark_mode := benchmark_mode p;
     use_episodes := use_episodes p; enable_angle_analysis := enable_angle_analysis p;
     angle_count := angle_count p |}.

Definition set_use_movie_file (v : bool) (p : DDMparams) : DDMparams :=
  {| file_in := file_in p; file_out := file_out p; q_file_name := q_file_name p;
     t_file_name := t_file_name p; s_file_name := s_file_name p;
     e_file_name := e_file_name p; frame_count := frame_count p;
     frame_offset := frame_offset p; x_off := x_off p; y_off := y_off p;
     chunk_length := chunk_length p; rolling_purge := rolling_purge p;
     use_webcam := use_webcam p; webcam_idx := webcam_idx p; use_movie_file := v;
     use_index_fps := use_index_fps p; use_explicit_fps := use_explicit_fps p;
     explicit_fps := explicit_fps p; multi_stream := multi_stream p;
     q_tolerance := q_tolerance p; benchmark_mode := benchmark_mode p;
     use_episodes := use_episodes p; enable_angle_analysis := enable_angle_analysis p;
     angle_count := angle_count p |}.

Definition set_rolling_purge (v : Z) (p : DDMparams) : DDMparams :=
  {| file_in := file_in p; file_out := file_out p; q_file_name := q_file_name p;
     t_file_name := t_file_name p; s_file_name := s_file_name p;
     e_file_name := e_file_name p; frame_count := frame_count p;
     frame_offset := frame_offset p; x_off := x_off p; y_off := y_off p;
     chunk_length := chunk_length p; rolling_purge := v; use_webcam := use_webcam p;
     webcam_idx := webcam_idx p; use_movie_file := use_movie_file p;
     use_index_fps := use_index_fps p; use_explicit_fps := use_explicit_fps p;
     explicit_fps := explicit_fps p; multi_stream := multi_stream p;
     q_tolerance := q_tolerance p; benchmark_mode := benchmark_mode p;
     use_episodes := use_episodes p; enable_angle_analysis := enable_angle_analysis p;
     angle_count := angle_count p |}.

Definition set_use_explicit_fps (v : bool) (p : DDMparams) : DDMparams :=
  {| file_in := file_in p; file_out := file_out p; q_file_name := q_file_name p;
     t_file_name := t_file_name p; s_file_name := s_file_name p;
     e_file_name := e_file_name p; frame_count := frame_count p;
     frame_offset := frame_offset p; x_off := x_off p; y_off := y_off p;
     chunk_length := chunk_length p; rolling_purge := rolling_purge p;
     use_webcam := use_webcam p; webcam_idx := webcam_idx p;
     use_movie_file := use_movie_file p; use_index_fps := use_index_fps p;
     use_explicit_fps := v; explicit_fps := explicit_fps p;
     multi_stream := multi_stream p; q_tolerance := q_tolerance p;
     benchmark_mode := benchmark_mode p; use_episodes := use_episodes p;
     enable_angle_analysis := enable_angle_analysis p; angle_count := angle_count p |}.

Definition set_explicit_fps (v : float) (p : DDMparams) : DDMparams :=
  {| file_in := file_in p; file_out := file_out p; q_file_name := q_file_name p;
     t_file_name := t_file_name p; s_file_name := s_file_name p;
     e_file_name := e_file_name p; frame_count := frame_count p;
     frame_offset := frame_offset p; x_off := x_off p; y_off := y_off p;
     chunk_length := chunk_length p; rolling_purge := rolling_purge p;
     use_webcam := use_webcam p; webcam_idx := webcam_idx p;
     use_movie_file := use_movie_file p; use_index_fps := use_index_fps p;
     use_explicit_fps := use_explicit_fps p; explicit_fps := v;
     multi_stream := multi_stream p; q_tolerance := q_tolerance p;
     benchmark_mode := benchmark_mode p; use_episodes := use_episodes p;
     enable_angle_analysis := enable_angle_analysis p; angle_count := angle_count p |}.

Definition set_enable_angle_analysis (v : bool) (p : DDMparams) : DDMparams :=
  {| file_in := file_in p; file_out := file_out p; q_file_name := q_file_name p;
     t_file_name := t_file_name p; s_file_name := s_file_name p;
     e_file_name := e_file_name p; frame_count := frame_count p;
     frame_offset := frame_offset p; x_off := x_off p; y_off := y_off p;
     chunk_length := chunk_length p; rolling_purge := rolling_purge p;
     use_webcam := use_webcam p; webcam_idx := webcam_idx p;
     use_movie_file := use_movie_file p; use_index_fps := use_index_fps p;
     use_explicit_fps := use_explicit_fps p; explicit_fps := explicit_fps p;
     multi_stream := multi_stream p; q_tolerance := q_tolerance p;
     benchmark_mode := benchmark_mode p; use_episodes := use_episodes p;
     enable_angle_analysis := v; angle_count := angle_count p |}.

Definition set_angle_count (v : Z) (p : DDMparams) : DDMparams :=
  {| file_in := file_in p; file_out := file_out p; q_file_name := q_file_name p;
     t_file_name := t_file_name p; s_file_name := s_file_name p;
     e_file_name := e_file_name p; frame_count := frame_count p;
     frame_offset := frame_offset p; x_off := x_off p; y_off := y_off p;
     chunk_length := chunk_length p; rolling_purge := rolling_purge p;
     use_webcam := use_webcam p; webcam_idx := webcam_idx p;
     use_movie_file := use_movie_file p; use_index_fps := use_index_fps p;
     use_explicit_fps := use_explicit_fps p; explicit_fps := explicit_fps p;
     multi_stream := multi_stream p; q_tolerance := q_tolerance p;
     benchmark_mode := benchmark_mode p; use_episodes := use_episodes p;
     enable_angle_analysis := enable_angle_analysis p; angle_count := v |}.

(** The global [params] before [main] runs.  The object has static storage:
    it is zero-initialised, then the default member initialisers apply.
    [frame_count] has none and stays 0; the strings are empty. *)
Definition initial_params : DDMparams :=
  {| file_in := ""; file_out := ""; q_file_name := ""; t_file_name := "";
     s_file_name := ""; e_file_name := "";
     frame_count := 0;
     frame_offset := 0;
     x_off := 0;
     y_off := 0;
     chunk_length := 30;
     rolling_purge := 0;
     use_webcam := false;
     webcam_idx := 0;
     use_movie_file := false;
     use_index_fps := false;
     use_explicit_fps := false;
     explicit_fps := double_to_float (double_lit 1 0);
     multi_stream := true;
     q_tolerance := double_to_float (double_lit 12 (-1));
     benchmark_mode := false;
     use_episodes := false;
     enable_angle_analysis := false;
     angle_count := 8 |}.

(** The arguments of the one call of [runDDM], in the order of its
    declaration.  An array is the list of its cells; a cell that was never
    written holds [None]. *)
Record runDDM_args := {
  arg_file_in : string;
  arg_file_out : string;
  arg_tau_arr : list (option Z);
  arg_tau_count : Z;
  arg_lambda_arr : list (option float);
  arg_lambda_count : Z;
  arg_scale_arr : list (option Z);
  arg_scale_count : Z;
  arg_x_off : Z;
  arg_y_off : Z;
  arg_episode_vector : list (option Z);
  arg_episode_count : Z;
  arg_frame_count : Z;
  arg_frame_offset : Z;
  arg_chunk_frame_count : Z;
  arg_multistream : bool;
  arg_use_webcam : bool;
  arg_webcam_idx : Z;
  arg_q_tolerance : float;
  arg_use_movie_file : bool;
  arg_use_index_fps : bool;
  arg_use_explicit_fps : bool;
  arg_explicit_fps : float;
  arg_dump_accum_after : Z;
  arg_benchmark_mode : bool;
  arg_enable_angle_analysis : bool;
  arg_angle_count : Z
}.

(** ** Effects

    What the process does that can be seen from outside, in order, and how
    a computation ends: it returns a value, the process exits, the model
    runs out of fuel, or the behaviour is undefined (an [int] counted
    beyond its range, an array the stack has no room for, a store outside
    an array). *)

Inductive event :=
| Stdout (text : string)
| Stderr (text : string)
| Open (path : string) (ok : bool)
| Close (path : string)
| Run (a : runDDM_args).

Inductive result (A : Type) :=
| Returned (a : A)
| Exited (status : Z)
| Diverged
| Undefined.
Arguments Returned {A}.
Arguments Exited {A}.
Arguments Diverged {A}.
Arguments Undefined {A}.

Definition M (A : Type) : Type := list event * result A.

Definition ret {A} (a : A) : M A := ([], Returned a).

Definition bind {A B} (m : M A) (k : A -> M B) : M B :=
  match m with
  | (t, Returned a) => let '(t', r) := k a in ((t ++ t')%list, r)
  | (t, Exited s) => (t, Exited s)
  | (t, Diverged) => (t, Diverged)
  | (t, Undefined) => (t, Undefined)
  end.

Definition emit (e : event) : M unit := ([e], Returned tt).
Definition exit {A} (status : Z) : M A := ([], Exited status).
Definition diverge {A} : M A := ([], Diverged).
Definition undefined {A} : M A := ([], Undefined).

Declare Scope prog_scope.
Delimit Scope prog_scope with prog.
Notation "x <- m ;; k" := (bind m (fun x => k))
  (at level 61, m at next level, right associativity) : prog_scope.
Notation "' pat <- m ;; k" := (bind m (fun x => match x with pat => k end))
  (at level 61, pat pattern, m at next level, right associativity) : prog_scope.
Notation "m ;; k" := (bind m (fun _ => k))
  (at level 61, right associativity) : prog_scope.
Open Scope prog_scope.

Definition EXIT_FAILURE : Z := 1.

(** The exit status of the process when [main] ends with [r]. *)
Definition exit_status (r : result Z) : option Z :=
  match r with
  | Returned v => Some v
  | Exited s => Some s
  | _ => None
  end.

(** ** The program

    [printHelp]: the text written to [stderr]. *)

Definition help_text : string :=
  String.concat "" [
    NL ++ " ~~ multiscale DDM - CUDA - HELP ~~ " ++ NL;
    NL;
    "  Usage ./ddm [OPTION].." ++ NL;
    "  -h           Print out this help." ++ NL;
    "   REQUIRED ARGS" ++ NL;
    "  -o PATH      Output file-path." ++ NL;
    "  -N INT       Number of frames to analyse." ++ NL;
    "  -Q PATH      Specify path to lambda-value file (line separated)." ++ NL;
    "  -T PATH " ++ TAB ++ TAB ++ "Specify path to tau-value file (line separated). " ++ NL;
    "  -S PATH " ++ TAB ++ TAB ++ "Specify path to scale-value file (line separated). " ++ NL;
    "  -E PATH      Specify path to episode-value file (line separated)." ++ NL;
    "   INPUT ARGS" ++ NL;
    "  -f PATH      Specify path to input video (either -f or -W option must be given)." ++ NL;
    "  -W INT       Use web-camera as input video, (web-camera number can be supplied, "
      ++ "defaults to first connected camera)." ++ NL;
    "  -B " ++ TAB ++ TAB ++ TAB ++ "Benchmark mode, will perform analysis on random "
      ++ "data." ++ NL;
    "   OPTIONAL ARGS" ++ NL;
    "  -s OFFSET" ++ TAB ++ "Set first frame offset (default 0)." ++ NL;
    "  -x OFFSET    Set x-offset (default 0)." ++ NL;
    "  -y OFFSET    Set y-offset (default 0)." ++ NL;
    "  -I           Use frame indices for tau-labels not real time." ++ NL;
    "  -v" ++ TAB ++ TAB ++ TAB ++ "Verbose mode on." ++ NL;
    "  -Z           Turn off multi-steam (smaller memory footprint - slower execution "
      ++ "time)." ++ NL;
    "  -t INT       Set the q-vector mask tolerance - percent (integer only) (default 20 "
      ++ "i.e. radial mask (1 - 1.2) * q)." ++ NL;
    "  -C INT" ++ TAB ++ "    Set main chunk frame count, a buffer 3x chunk frame count "
      ++ "will be allocated in memory (default 30 frames)." ++ NL;
    "  -G SIZE      Sub-divide analysis, buffer will be output and purged every SIZE "
      ++ "chunks" ++ NL;
    "  -M" ++ TAB ++ TAB ++ TAB ++ "Set if using movie-file format." ++ NL;
    "  -F FPS " ++ TAB ++ TAB ++ "Force the analysis to assume a specific frame-rate, "
      ++ "over-rides other options." ++ NL;
    "  -A           Enable angle analysis" ++ NL;
    "  -n INT       Set angle count" ++ NL
  ].

Definition printf (text : string) : M unit := emit (Stdout text).
Definition fprintf_stderr (text : string) : M unit := emit (Stderr text).

Definition printHelp : M unit := fprintf_stderr help_text.

(** [conditionAssert] of debug.cpp. *)
Definition conditionAssert (condition : bool) (text : string) (abort : bool) : M unit :=
  if condition then ret tt
  else if abort then
    fprintf_stderr ("[Error] " ++ text ++ NL);;
    exit EXIT_FAILURE
  else
    fprintf_stderr ("[Warning] " ++ text ++ NL).

(** *** File streams

    What a file gives to a stream that reads it: [bytes] from its start to
    its end, and [again] once the stream has sought back to the start.  A
    regular file that nobody writes to in the meantime gives the same bytes
    again.  A file that cannot be positioned (a pipe, a terminal) gives
    nothing: [seekg] fails on it. *)

Record readable := {
  bytes : string;
  again : option string
}.

Definition regular (c : string) : readable := {| bytes := c; again := Some c |}.
Definition pipe (c : string) : readable := {| bytes := c; again := None |}.

(** What the process finds around it: for each path the file that can be
    opened for reading there, and the number of bytes of stack that the
    arrays of [main] may take up.  The empty path names no file. *)
Record environment := {
  files : string -> option readable;
  stack : Z
}.

Record ifstream := {
  path : string;
  is_open : bool;
  rewound : option string; (* what the file gives once the stream has sought back *)
  unread : string;         (* from the read position to the end *)
  failbit : bool
}.

(** The file that opening [p] for reading gives access to. *)
Definition open_file (env : environment) (p : string) : option readable :=
  if String.eqb p "" then None else files env p.

Definition ifstream_open (env : environment) (p : string) : M ifstream :=
  match open_file env p with
  | Some f =>
      emit (Open p true);;
      ret {| path := p; is_open := true; rewound := again f; unread := bytes f;
             failbit := false |}
  | None =>
      emit (Open p false);;
      ret {| path := p; is_open := false; rewound := None; unread := ""; failbit := true |}
  end.

(** [f >> x] as a loop condition: the value when the extraction succeeds.
    A failed extraction sets [failbit]; where it leaves the read position
    is of no consequence, the stream is not read on from there. *)
Definition extract {T} (ng : num_get T) (f : ifstream) : option T * ifstream :=
  if failbit f then (None, f)
  else
    match get ng (unread f) with
    | Some (v, r) =>
        (Some v, {| path := path f; is_open := is_open f; rewound := rewound f;
                    unread := r; failbit := false |})
    | None =>
        (None, {| path := path f; is_open := is_open f; rewound := rewound f;
                  unread := unread f; failbit := true |})
    end.

(** [f.clear (); f.seekg (0, std::ios::beg)].  [clear] resets the state
    bits; [seekg] sets [failbit] again when the stream is not open or the
    file cannot be positioned.  [main] does not look at the outcome. *)
Definition clear_seekg (f : ifstream) : ifstream :=
  match rewound f with
  | Some c =>
      {| path := path f; is_open := is_open f; rewound := rewound f;
         unread := c; failbit := false |}
  | None =>
      {| path := path f; is_open := is_open f; rewound := rewound f;
         unread := unread f; failbit := true |}
  end.

Definition close (f : ifstream) : M unit := emit (Close (path f)).

(** Every successful extraction reads at least one character, so a loop of
    extractions ends within this many rounds. *)
Definition rounds (f : ifstream) : nat := S (String.length (unread f)).

(** [while (f >> tmp) count++;]  The counter is an [int]: incrementing it
    beyond [INT_MAX] is undefined. *)
Fixpoint count_loop {T} (ng : num_get T) (fuel : nat) (f : ifstream) (count : Z)
    : M (ifstream * Z) :=
  match fuel with
  | O => diverge
  | S fuel' =>
      match extract ng f with
      | (Some _, f') =>
          if count <? INT_MAX then count_loop ng fuel' f' (count + 1) else undefined
      | (None, f') => ret (f', count)
      end
  end.

(** [sizeof (float)] and [sizeof (int)]. *)
Definition sizeof_cell : Z := 4.

(** A variable-length array [T arr[count]] of cells of four bytes, taken
    from the [room] that is left on the stack: the array, its cells holding
    no value yet, and the room left after it.  An array of no cells takes
    no room.  An array that the stack has no room for is undefined
    behaviour (in practice the process is killed by a signal). *)
Definition new_array {T} (room : Z) (count : Z) : M (list (option T) * Z) :=
  if sizeof_cell * count <=? room then
    ret (repeat None (Z.to_nat count), room - sizeof_cell * count)
  else undefined.

(** [arr[idx] = v]; undefined outside the array. *)
Fixpoint store {T} (arr : list (option T)) (idx : nat) (v : T) : option (list (option T)) :=
  match arr, idx with
  | _ :: r, O => Some (Some v :: r)
  | c :: r, S i =>
      match store r i v with
      | Some r' => Some (c :: r')
      | None => None
      end
  | [], _ => None
  end.

(** [while (f >> tmp) arr[idx++] = tmp;] *)
Fixpoint fill_loop {T} (ng : num_get T) (fuel : nat) (f : ifstream)
    (arr : list (option T)) (idx : Z) : M (ifstream * list (option T)) :=
  match fuel with
  | O => diverge
  | S fuel' =>
      match extract ng f with
      | (Some v, f') =>
          if idx <? 0 then undefined
          else
            match store arr (Z.to_nat idx) v with
            | Some arr' => fill_loop ng fuel' f' arr' (idx + 1)
            | None => undefined
            end
      | (None, f') => ret (f', arr)
      end
  end.

(** [1.0 + static_cast<float>(percent) / 100], stored in a [float]: the
    division is done in single precision, the sum in double precision, and
    the assignment rounds it to single precision. *)
Definition tolerance (percent : Z) : float :=
  double_to_float
    (dadd (double_lit 1 0)
          (float_to_double (fdiv (int_to_float percent) (int_to_float 100)))).

Section Program.

(** The C library's [atof]; [main] only passes its value on. *)
Variable atof : string -> double.

(** The option string given to [getopt]. *)
Definition optstring : string := "ho:N:s:x:y:Q:T:S:E:If:W::vZt:C:MG:F:BAn:".

(** What the option loop of [main] works on: the global [params], the local
    [input_specified] and the global [Verbose] of debug.cpp. *)
Record locals := {
  params : DDMparams;
  input_specified : bool;
  Verbose : bool
}.

Definition with_params (f : DDMparams -> DDMparams) (l : locals) : locals :=
  {| params := f (params l); input_specified := input_specified l; Verbose := Verbose l |}.

Definition set_input_specified (b : bool) (l : locals) : locals :=
  {| params := params l; input_specified := b; Verbose := Verbose l |}.

Definition setVerbose (setting : bool) (l : locals) : locals :=
  {| params := params l; input_specified := input_specified l; Verbose := setting |}.

(** How an iteration of the loop ends: [continue], [break] after the
    [switch], or [return] from [main]. *)
Inductive control :=
| Continue (l : locals)
| Break
| Return (v : Z).

(** [optarg] as a string.  [getopt] never leaves it null for an option that
    takes a required argument (see [getopt_required_optarg]). *)
Definition str (optarg : option string) : string :=
  match optarg with
  | Some s => s
  | None => ""
  end.

Definition conflict_text : string :=
  "Cannot use both in-filepath and web-cam option at same time.".

(** The [switch] on what [getopt] returned ([None] stands for -1). *)
Definition switch_body (c : option ascii) (optarg : option string) (l : locals) : M control :=
  match c with
  | Some "?"%char
  | Some "h"%char =>
      printHelp;;
      ret (Return (-1))
  | Some "o"%char => ret (Continue (with_params (set_file_out (str optarg)) l))
  | Some "N"%char => ret (Continue (with_params (set_frame_count (atoi (str optarg))) l))
  | Some "x"%char => ret (Continue (with_params (set_x_off (atoi (str optarg))) l))
  | Some "y"%char => ret (Continue (with_params (set_y_off (atoi (str optarg))) l))
  | Some "Q"%char => ret (Continue (with_params (set_q_file_name (str optarg)) l))
  | Some "T"%char => ret (Continue (with_params (set_t_file_name (str optarg)) l))
  | Some "S"%char => ret (Continue (with_params (set_s_file_name (str optarg)) l))
  | Some "E"%char => ret (Continue (with_params (set_e_file_name (str optarg)) l))
  | Some "I"%char => ret (Continue (with_params (set_use_index_fps true) l))
  | Some "s"%char => ret (Continue (with_params (set_frame_offset (atoi (str optarg))) l))
  | Some "f"%char =>
      conditionAssert (negb (input_specified l)) conflict_text true;;
      let l := with_params (set_file_in (str optarg)) l in
      let l := set_input_specified true l in
      ret (Continue l)
  | Some "W"%char =>
      conditionAssert (negb (input_specified l)) conflict_text true;;
      let l := with_params (set_use_webcam true) l in
      let l := match optarg with
               | Some a => with_params (set_webcam_idx (atoi a)) l
               | None => l
               end in
      let l := set_input_specified true l in
      ret (Continue l)
  | Some "B"%char =>
      let l := with_params (set_benchmark_mode true) l in
      let l := set_input_specified true l in
      ret (Continue l)
  | Some "v"%char => ret (Continue (setVerbose true l))
  | Some "t"%char =>
      ret (Continue (with_params (set_q_tolerance (tolerance (atoi (str optarg)))) l))
  | Some "C"%char => ret (Continue (with_params (set_chunk_length (atoi (str optarg))) l))
  | Some "M"%char => ret (Continue (with_params (set_use_movie_file true) l))
  | Some "G"%char => ret (Continue (with_params (set_rolling_purge (atoi (str optarg))) l))
  | Some "F"%char =>
      let l := with_params (set_use_explicit_fps true) l in
      let l := with_params (set_explicit_fps (double_to_float (atof (str optarg)))) l in
      ret (Continue l)
  | Some "A"%char => ret (Continue (with_params (set_enable_angle_analysis true) l))
  | Some "n"%char => ret (Continue (with_params (set_angle_count (atoi (str optarg))) l))
  | _ => ret Break
  end.

(** [for (;;) { switch (getopt (...)) { ... } break; }]: the locals and the
    scanner's state at the [break], or the value [main] returns. *)
Fixpoint option_loop (ord : ordering) (argv0 : string) (fuel : nat)
    (l : locals) (d : getopt_data) : M (locals * getopt_data + Z) :=
  match fuel with
  | O => diverge
  | S fuel' =>
      let g := getopt ord argv0 optstring d in
      fold_right (fun m k => fprintf_stderr m;; k) (ret tt) (message g);;
      c <- switch_body (opt_char g) (optarg g) l;;
      match c with
      | Continue l' => option_loop ord argv0 fuel' l' (after g)
      | Break => ret (inl (l, after g))
      | Return v => ret (inr v)
      end
  end.

(** The call of [runDDM] is the one event [Run]; what the engine does is
    outside the program. *)
Definition runDDM (a : runDDM_args) : M unit := emit (Run a).

(** [main] from the opening of the four files to its end. *)
Definition series_and_run (env : environment) (p : DDMparams) : M Z :=
  q_file <- ifstream_open env (q_file_name p);;
  t_file <- ifstream_open env (t_file_name p);;
  s_file <- ifstream_open env (s_file_name p);;
  e_file <- ifstream_open env (e_file_name p);;
  conditionAssert (is_open q_file) "cannot open lambda-file." true;;
  conditionAssert (is_open t_file) "cannot open tau-file" true;;
  conditionAssert (is_open s_file) "cannot open scales-file." true;;
  conditionAssert (is_open e_file) "cannot open episode-file." true;;
  (* first count the number of elements in each file *)
  '(q_file, lambda_count) <- count_loop get_float (rounds q_file) q_file 0;;
  '(t_file, tau_count) <- count_loop get_int (rounds t_file) t_file 0;;
  '(s_file, scale_count) <- count_loop get_int (rounds s_file) s_file 0;;
  '(e_file, episode_count) <- count_loop get_int (rounds e_file) e_file 0;;
  (* seek back to the beginning of the file and read the values *)
  let q_file := clear_seekg q_file in
  let t_file := clear_seekg t_file in
  let s_file := clear_seekg s_file in
  let e_file := clear_seekg e_file in
  '(lambda_arr, room) <- new_array (stack env) lambda_count;;
  '(tau_arr, room) <- new_array room tau_count;;
  '(scale_arr, room) <- new_array room scale_count;;
  '(episode_arr, _) <- new_array room episode_count;;
  '(q_file, lambda_arr) <- fill_loop get_float (rounds q_file) q_file lambda_arr 0;;
  '(t_file, tau_arr) <- fill_loop get_int (rounds t_file) t_file tau_arr 0;;
  '(s_file, scale_arr) <- fill_loop get_int (rounds s_file) s_file scale_arr 0;;
  '(e_file, episode_arr) <- fill_loop get_int (rounds e_file) e_file episode_arr 0;;
  runDDM {| arg_file_in := file_in p;
            arg_file_out := file_out p;
            arg_tau_arr := tau_arr;
            arg_tau_count := tau_count;
            arg_lambda_arr := lambda_arr;
            arg_lambda_count := lambda_count;
            arg_scale_arr := scale_arr;
            arg_scale_count := scale_count;
            arg_x_off := x_off p;
            arg_y_off := y_off p;
            arg_episode_vector := episode_arr;
            arg_episode_count := episode_count;
            arg_frame_count := frame_count p;
            arg_frame_offset := frame_offset p;
            arg_chunk_frame_count := chunk_length p;
            arg_multistream := multi_stream p;
            arg_use_webcam := use_webcam p;
            arg_webcam_idx := webcam_idx p;
            arg_q_tolerance := q_tolerance p;
            arg_use_movie_file := use_movie_file p;
            arg_use_index_fps := use_index_fps p;
            arg_use_explicit_fps := use_explicit_fps p;
            arg_explicit_fps := explicit_fps p;
            arg_dump_accum_after := rolling_purge p;
            arg_benchmark_mode := benchmark_mode p;
            arg_enable_angle_analysis := enable_angle_analysis p;
            arg_angle_count := angle_count p |};;
  printf ("DDM End" ++ NL);;
  close q_file;;
  close t_file;;
  close s_file;;
  close e_file;;
  ret 0.

Definition initial_locals : locals :=
  {| params := initial_params; input_specified := false; Verbose := false |}.

(** [main (argc, argv)] with [argv] = [argv0 :: args], up to the last check
    on the options: the locals when all checks pass, or the value [main]
    returns. *)
Definition parse_options (ord : ordering) (argv0 : string) (args : list string)
    : M (locals + Z) :=
  let argc := 1 + Z.of_nat (length args) in
  printf ("DDM Start" ++ NL);;
  x <- option_loop ord argv0 (S (weight (initial args))) initial_locals (initial args);;
  match x with
  | inr v => ret (inr v)
  | inl (l, d) =>
      (if negb (optind argc d =? argc) then
         printHelp;;
         conditionAssert false "An unexpected option was found." true
       else ret tt);;
      conditionAssert (input_specified l) "Must specify input." true;;
      ret (inl l)
  end.

Definition main (ord : ordering) (env : environment) (argv0 : string) (args : list string)
    : M Z :=
  x <- parse_options ord argv0 args;;
  match x with
  | inr v => ret v
  | inl l => series_and_run env (params l)
  end.

(** *** The options of an argument vector

    What [getopt] reports when it is called until it returns -1: for each
    call the option character, [optarg], the diagnostics and the scanner's
    state after the call; then the state at the end ([None] when the fuel
    ran out first). *)

Record scanned := {
  s_opt : ascii;
  s_optarg : option string;
  s_message : list string;
  s_after : getopt_data
}.

Fixpoint getopt_run (ord : ordering) (argv0 : string) (fuel : nat) (d : getopt_data)
    : list scanned * option getopt_data :=
  match fuel with
  | O => ([], None)
  | S fuel' =>
      let g := getopt ord argv0 optstring d in
      match opt_char g with
      | None => ([], Some (after g))
      | Some c =>
          let '(es, fin) := getopt_run ord argv0 fuel' (after g) in
          ({| s_opt := c; s_optarg := optarg g; s_message := message g;
              s_after := after g |} :: es, fin)
      end
  end.

Definition scan (ord : ordering) (argv0 : string) (args : list string)
    : list scanned * option getopt_data :=
  getopt_run ord argv0 (S (weight (initial args))) (initial args).

(** The option characters found in the argument vector, in order. *)
Definition letters (ord : ordering) (argv0 : string) (args : list string) : list ascii :=
  map s_opt (fst (scan ord argv0 args)).

(** The arguments that are left over as operands once all options are
    scanned. *)
Definition operands (ord : ordering) (argv0 : string) (args : list string) : list string :=
  match snd (scan ord argv0 args) with
  | Some d => rest d
  | None => []
  end.

(** Classes of option characters. *)
Definition is_help (c : ascii) : bool := (Ascii.eqb c "?" || Ascii.eqb c "h")%bool.
Definition is_source (c : ascii) : bool :=
  (Ascii.eqb c "f" || Ascii.eqb c "W" || Ascii.eqb c "B")%bool.
Definition is_checked_source (c : ascii) : bool := (Ascii.eqb c "f" || Ascii.eqb c "W")%bool.


(** *** The option loop, option by option *)

(** The characters the [switch] has a case for. *)
Definition case_letters : list ascii :=
  ["?"; "h"; "o"; "N"; "x"; "y"; "Q"; "T"; "S"; "E"; "I"; "s"; "f"; "W"; "B"; "v"; "t";
   "C"; "M"; "G"; "F"; "A"; "n"]%char.

Definition has_case (c : ascii) : bool := existsb (Ascii.eqb c) case_letters.

(** Where the loop stops: [getopt] returned -1, an option without a case
    was met ([break]), help was printed ([return -1]), or a second input
    source was refused ([exit]). *)
Inductive stop :=
| AtEnd
| AtBreak (e : scanned)
| AtHelp (e : scanned)
| AtConflict (e : scanned).

(** The options the loop goes through with [continue] before it stops;
    [seen] tells whether an input source was given before. *)
Fixpoint walk (seen : bool) (es : list scanned) : list scanned * stop :=
  match es with
  | [] => ([], AtEnd)
  | e :: r =>
      let c := s_opt e in
      if is_help c then ([], AtHelp e)
      else if (is_checked_source c && seen)%bool then ([], AtConflict e)
      else if has_case c then
        let '(p, s) := walk (seen || is_source c)%bool r in (e :: p, s)
      else ([], AtBreak e)
  end.

Definition conflict_message : string := "[Error] " ++ conflict_text ++ NL.

(** The locals after the [switch] for one reported option, where the
    [switch] ends in [continue]; unchanged otherwise. *)
Definition effect (l : locals) (e : scanned) : locals :=
  match switch_body (Some (s_opt e)) (s_optarg e) l with
  | (_, Returned (Continue l')) => l'
  | _ => l
  end.

(** The configuration the options of the argument vector add up to. *)
Definition parsed (ord : ordering) (argv0 : string) (args : list string) : DDMparams :=
  params (fold_left effect (fst (scan ord argv0 args)) initial_locals).

(** The result of the option loop when it goes through the options [p]
    and then stops as [s] says; [fin] is the scanner's state once [getopt]
    has returned -1. *)
Definition loop_outcome (l : locals) (fin : getopt_data) (w : list scanned * stop)
    : M (locals * getopt_data + Z) :=
  match w with
  | (p, AtEnd) => ret (inl (fold_left effect p l, fin))
  | (p, AtBreak e) => ret (inl (fold_left effect p l, s_after e))
  | (_, AtHelp e) =>
      ((map Stderr (s_message e) ++ [Stderr help_text])%list, Returned (inr (-1)))
  | (_, AtConflict _) => ([Stderr conflict_message], Exited EXIT_FAILURE)
  end.

(** *** The verdict on an argument vector

    What the option loop and the two checks after it come to. *)

Inductive verdict :=
| Accepted (l : locals)       (* all checks pass *)
| HelpExit (e : scanned)      (* [-h], or an option [getopt] rejects *)
| ConflictExit                (* a second input source, refused *)
| LeftOver                    (* [optind != argc] after the loop *)
| NoInput.                    (* no input source *)

(** [optind != argc] for the scanner's state [d]. *)
Definition left_over (d : getopt_data) : bool :=
  match nextchar d, rest d with
  | "", [] => false
  | _, _ => true
  end.

Definition after_loop (l : locals) (d : getopt_data) : verdict :=
  if left_over d then LeftOver
  else if input_specified l then Accepted l
  else NoInput.

Definition judge (ord : ordering) (argv0 : string) (args : list string) : verdict :=
  match scan ord argv0 args with
  | (es, Some fin) =>
      match walk false es with
      | (p, AtEnd) => after_loop (fold_left effect p initial_locals) fin
      | (p, AtBreak e) => after_loop (fold_left effect p initial_locals) (s_after e)
      | (_, AtHelp e) => HelpExit e
      | (_, AtConflict _) => ConflictExit
      end
  | (_, None) => LeftOver
  end.

Definition start_text : string := "DDM Start" ++ NL.
Definition unexpected_message : string := "[Error] An unexpected option was found." ++ NL.
Definition no_input_message : string := "[Error] Must specify input." ++ NL.

(** Option parsing, by verdict. *)
Definition parse_verdict (v : verdict) : M (locals + Z) :=
  match v with
  | Accepted l => ([Stdout start_text], Returned (inl l))
  | HelpExit e =>
      (Stdout start_text :: (map Stderr (s_message e) ++ [Stderr help_text])%list,
       Returned (inr (-1)))
  | ConflictExit => ([Stdout start_text; Stderr conflict_message], Exited EXIT_FAILURE)
  | LeftOver =>
      ([Stdout start_text; Stderr help_text; Stderr unexpected_message],
       Exited EXIT_FAILURE)
  | NoInput => ([Stdout start_text; Stderr no_input_message], Exited EXIT_FAILURE)
  end.

End Program.

(** *** Option characters, counted over an argument vector *)

(** An input source that is checked ([-f], [-W]) comes after another input
    source. *)
Fixpoint conflict_after (seen : bool) (ls : list ascii) : bool :=
  match ls with
  | [] => false
  | c :: r =>
      if is_checked_source c then (seen || conflict_after true r)%bool
      else if is_source c then conflict_after true r
      else conflict_after seen r
  end.

Definition conflict (ls : list ascii) : bool := conflict_after false ls.

Definition has_source (ls : list ascii) : bool := existsb is_source ls.

Definition has_help (ls : list ascii) : bool := existsb is_help ls.

(** The number of input sources among the option characters. *)
Definition count_sources (ls : list ascii) : nat := length (filter is_source ls).

(** The second input source among the option characters ([seen]: one was
    met before). *)
Fixpoint second_source (seen : bool) (ls : list ascii) : option ascii :=
  match ls with
  | [] => None
  | c :: r =>
      if is_source c then (if seen then Some c else second_source true r)
      else second_source seen r
  end.

(** The option characters in front of the first one that brings the help
    text: [h], or the [?] of an option that [getopt] rejects. *)
Fixpoint before_help (ls : list ascii) : list ascii :=
  match ls with
  | [] => []
  | c :: r => if is_help c then [] else c :: before_help r
  end.

(** The argument of the last occurrence of the option [c]. *)
Definition last_optarg (c : ascii) (es : list scanned) : option (option string) :=
  fold_left (fun acc e => if Ascii.eqb (s_opt e) c then Some (s_optarg e) else acc) es None.

(** *** Traces *)

Definition is_open_event (e : event) : bool :=
  match e with
  | Open _ _ => true
  | _ => false
  end.

Definition is_run_event (e : event) : bool :=
  match e with
  | Run _ => true
  | _ => false
  end.

(** No file was opened and the engine was not called. *)
Definition untouched (tr : list event) : Prop :=
  forall e, In e tr -> is_open_event e = false /\ is_run_event e = false.

Definition calls (tr : list event) : list event := filter is_run_event tr.

(** The process ends with a status other than 0 and the engine was not
    called. *)
Definition aborted (m : M Z) : Prop :=
  (exists s, exit_status (snd m) = Some s /\ s <> 0) /\ calls (fst m) = [].

(** *** The four files and the call of the engine *)

Definition opened (env : environment) (p : string) : bool :=
  match open_file env p with
  | Some _ => true
  | None => false
  end.

(** The four attempts to open a series file. *)
Definition opens (env : environment) (p : DDMparams) : list event :=
  [Open (q_file_name p) (opened env (q_file_name p));
   Open (t_file_name p) (opened env (t_file_name p));
   Open (s_file_name p) (opened env (s_file_name p));
   Open (e_file_name p) (opened env (e_file_name p))].

(** The text of the first check on the four streams that fails. *)
Definition first_unopened (env : environment) (p : DDMparams) : option string :=
  if negb (opened env (q_file_name p)) then Some "cannot open lambda-file."
  else if negb (opened env (t_file_name p)) then Some "cannot open tau-file"
  else if negb (opened env (s_file_name p)) then Some "cannot open scales-file."
  else if negb (opened env (e_file_name p)) then Some "cannot open episode-file."
  else None.

(** The call of the engine for the configuration [p] and the four arrays;
    each count is the number of cells of its array. *)
Definition engine_call (p : DDMparams) (tau : list (option Z)) (lambda : list (option float))
    (scale episode : list (option Z)) : runDDM_args :=
  {| arg_file_in := file_in p;
     arg_file_out := file_out p;
     arg_tau_arr := tau;
     arg_tau_count := Z.of_nat (length tau);
     arg_lambda_arr := lambda;
     arg_lambda_count := Z.of_nat (length lambda);
     arg_scale_arr := scale;
     arg_scale_count := Z.of_nat (length scale);
     arg_x_off := x_off p;
     arg_y_off := y_off p;
     arg_episode_vector := episode;
     arg_episode_count := Z.of_nat (length episode);
     arg_frame_count := frame_count p;
     arg_frame_offset := frame_offset p;
     arg_chunk_frame_count := chunk_length p;
     arg_multistream := multi_stream p;
     arg_use_webcam := use_webcam p;
     arg_webcam_idx := webcam_idx p;
     arg_q_tolerance := q_tolerance p;
     arg_use_movie_file := use_movie_file p;
     arg_use_index_fps := use_index_fps p;
     arg_use_explicit_fps := use_explicit_fps p;
     arg_explicit_fps := explicit_fps p;
     arg_dump_accum_after := rolling_purge p;
     arg_benchmark_mode := benchmark_mode p;
     arg_enable_angle_analysis := enable_angle_analysis p;
     arg_angle_count := angle_count p |}.

(** What [main] does from the opening of the files on when all goes well. *)
Definition complete_run (p : DDMparams) (a : runDDM_args) : list event :=
  [Open (q_file_name p) true; Open (t_file_name p) true;
   Open (s_file_name p) true; Open (e_file_name p) true;
   Run a;
   Stdout ("DDM End" ++ NL);
   Close (q_file_name p); Close (t_file_name p);
   Close (s_file_name p); Close (e_file_name p)].

(** The four attempts to open a series file, all of them successful. *)
Definition all_opened (p : DDMparams) : list event :=
  [Open (q_file_name p) true; Open (t_file_name p) true;
   Open (s_file_name p) true; Open (e_file_name p) true].

(** A pass over a stream leaves it on the same file. *)
Definition same_file (f f' : ifstream) : Prop :=
  path f' = path f /\ is_open f' = is_open f /\ rewound f' = rewound f.

(** *** Series files *)

(** The values that successive extractions read from a text, up to the
    first extraction that fails. *)
Inductive reads {T} (ng : num_get T) : string -> list T -> Prop :=
| reads_stop : forall s, get ng s = None -> reads ng s []
| reads_next : forall s v r vs,
    get ng s = Some (v, r) -> reads ng r vs -> reads ng s (v :: vs).

(** The values that the extractions read once the stream has sought back
    to the start: none from a file that cannot be positioned. *)
Definition rereads {T} (ng : num_get T) (f : readable) (ws : list T) : Prop :=
  match again f with
  | Some c => reads ng c ws
  | None => ws = []
  end.

(** A file that gives the same bytes again after the stream has sought
    back. *)
Definition steady (f : readable) : Prop := again f = Some (bytes f).

(** An array of [n] cells after the values [ws] were stored from its first
    cell on. *)
Definition filled {T} (n : nat) (ws : list T) : list (option T) :=
  (map Some ws ++ repeat None (n - length ws))%list.

(** Arrays of [nq], [nt], [ns] and [ne] cells: each number can be counted
    in an [int], and the stack has room for the four of them. *)
Definition fits (env : environment) (nq nt ns ne : nat) : bool :=
  ((Z.of_nat nq <=? INT_MAX) && (Z.of_nat nt <=? INT_MAX)
   && (Z.of_nat ns <=? INT_MAX) && (Z.of_nat ne <=? INT_MAX)
   && (sizeof_cell * Z.of_nat (nq + nt + ns + ne) <=? stack env))%bool.

(** The second pass over the four files finds no more values than the
    first. *)
Definition within (mq mt ms me nq nt ns ne : nat) : bool :=
  ((mq <=? nq) && (mt <=? nt) && (ms <=? ns) && (me <=? ne))%nat%bool.

(** The four files named by [p] can be opened; the first pass reads the
    values [vq], [vt], [vs] and [ve] from them, and the second pass, after
    the streams have sought back, the values [wq], [wt], [ws] and [we]. *)
Definition series_read (env : environment) (p : DDMparams)
    (vq wq : list float) (vt wt vs ws ve we : list Z) : Prop :=
  exists fq ft fs fe,
    (open_file env (q_file_name p) = Some fq /\ open_file env (t_file_name p) = Some ft
     /\ open_file env (s_file_name p) = Some fs /\ open_file env (e_file_name p) = Some fe)
    /\ (reads get_float (bytes fq) vq /\ reads get_int (bytes ft) vt
        /\ reads get_int (bytes fs) vs /\ reads get_int (bytes fe) ve)
    /\ (rereads get_float fq wq /\ rereads get_int ft wt
        /\ rereads get_int fs ws /\ rereads get_int fe we).

(** The arrays are counted and have room, and the second pass stays inside
    them. *)
Definition loads (env : environment) (vq wq : list float) (vt wt vs ws ve we : list Z)
    : bool :=
  (fits env (length vq) (length vt) (length vs) (length ve)
   && within (length wq) (length wt) (length ws) (length we)
        (length vq) (length vt) (length vs) (length ve))%bool.

(** The call of the engine after the two passes. *)
Definition loaded_call (p : DDMparams) (vq wq : list float) (vt wt vs ws ve we : list Z)
    : runDDM_args :=
  engine_call p (filled (length vt) wt) (filled (length vq) wq)
    (filled (length vs) ws) (filled (length ve) we).

(** What [main] does from the opening of the files on when all four can be
    opened. *)
Definition loaded_run (env : environment) (p : DDMparams)
    (vq wq : list float) (vt wt vs ws ve we : list Z) : M Z :=
  if loads env vq wq vt wt vs ws ve we
  then (complete_run p (loaded_call p vq wq vt wt vs ws ve we), Returned 0)
  else (all_opened p, Undefined).

(** The four files named by [p] are regular files that stay as they are:
    they can be opened, give the same bytes again after the stream has
    sought back, and hold the values [vq], [vt], [vs] and [ve]. *)
Definition steady_series (env : environment) (p : DDMparams)
    (vq : list float) (vt vs ve : list Z) : Prop :=
  exists fq ft fs fe,
    (open_file env (q_file_name p) = Some fq /\ open_file env (t_file_name p) = Some ft
     /\ open_file env (s_file_name p) = Some fs /\ open_file env (e_file_name p) = Some fe)
    /\ (steady fq /\ steady ft /\ steady fs /\ steady fe)
    /\ (reads get_float (bytes fq) vq /\ reads get_int (bytes ft) vt
        /\ reads get_int (bytes fs) vs /\ reads get_int (bytes fe) ve).

(** A numeric token for the scanner [ng]: a non-empty text without white
    space that one extraction reads in full. *)
Definition numeric {T} (ng : num_get T) (tok : string) (v : T) : Prop :=
  tok <> "" /\ no_space tok = true /\ get ng tok = Some (v, "").

(** A file as a list of tokens, each with its value and the white space
    that follows it. *)
Definition item (T : Type) : Type := string * T * string.

Fixpoint series_text {T} (items : list (item T)) : string :=
  match items with
  | [] => ""
  | (tok, _, sep) :: r => tok ++ sep ++ series_text r
  end.

Definition values {T} (items : list (item T)) : list T :=
  map (fun i : item T => snd (fst i)) items.

(** Each token is a numeral in the sense of [num], with its value, and
    white space separates it from what follows; only at the very end of the
    file may the white space after a token be missing. *)
Fixpoint layout {T} (num : string -> T -> Prop) (items : list (item T)) (tail : string)
    : Prop :=
  match items with
  | [] => True
  | (tok, v, sep) :: r =>
      num tok v /\ all_space sep = true
      /\ (sep = "" -> r = [] /\ tail = "")
      /\ layout num r tail
  end.

(** The file at [path] is a regular file that holds, after the white space
    [lead], the numerals [items], each followed by white space, and then
    [tail]. *)
Definition series_file {T} (num : string -> T -> Prop) (env : environment) (path : string)
    (lead : string) (items : list (item T)) (tail : string) : Prop :=
  open_file env path = Some (regular (lead ++ series_text items ++ tail))
  /\ all_space lead = true /\ layout num items tail.

(** A well-formed file: nothing but numerals and white space. *)
Definition whole_file {T} (num : string -> T -> Prop) (env : environment) (path : string)
    (lead : string) (items : list (item T)) : Prop :=
  series_file num env path lead items "".

(** Two facts about the scanner of a type that the properties of the series
    files rest on: it stops at white space, and it does not take the empty
    text for a number. *)
Definition stops_at_space {T} (ng : num_get T) : Prop :=
  forall st c, isspace c = true -> ng_step ng st c = None.

Definition rejects_nothing {T} (ng : num_get T) : Prop := ng_convert ng "" = None.

(** A run of decimal digits, and the number it writes. *)
Fixpoint all_digits (s : string) : bool :=
  match s with
  | String c r => (isdigit c && all_digits r)%bool
  | EmptyString => true
  end.

Definition digits_value (s : string) : Z := fst (fst (digits_from 0 0 s)).

(** *** The q-tolerance, in other words *)

(** Following the spec's words: [tolerance = 1.0 + percent/100.0], the
    quotient and the sum taken in double precision and the result stored as
    a single precision number. *)
Definition spec_tolerance (percent : Z) : float :=
  double_to_float
    (dadd (double_lit 1 0) (ddiv (int_to_double percent) (double_lit 100 0))).

(** The single precision number nearest to [1 + percent/100]. *)
Definition nearest_tolerance (percent : Z) : float :=
  fdiv (int_to_float (100 + percent)) (int_to_float 100).

(** [x] is [y] or one of the two single precision numbers next to it. *)
Definition within_ulp (x y : float) : bool :=
  (SFeqb x y || SFeqb x (SFsucc 24 128 y) || SFeqb x (SFpred 24 128 y))%bool.

(** *** Example inputs *)

(** The stack that a process is given by default: 8 MiB. *)
Definition default_stack : Z := 8 * 1024 * 1024.

(** Regular files with the given contents, and the default stack. *)
Definition on_disk (content : string -> option string) : environment :=
  {| files := fun p => option_map regular (content p); stack := default_stack |}.

(** The environment with another file at [path]. *)
Definition with_file (path : string) (f : readable) (env : environment) : environment :=
  {| files := fun p => if String.eqb p path then Some f else files env p;
     stack := stack env |}.

(** The files of the spec's end-to-end scenario. *)
Definition scenario_files : environment :=
  on_disk (fun p =>
    if String.eqb p "q.txt" then Some "0.1 0.2 0.3"
    else if String.eqb p "t.txt" then Some ("1" ++ NL ++ "2" ++ NL ++ "4" ++ NL ++ "8")
    else if String.eqb p "s.txt" then Some "1 2"
    else if String.eqb p "e.txt" then Some ""
    else None).

Definition series_options : list string :=
  ["-Q"; "q.txt"; "-T"; "t.txt"; "-S"; "s.txt"; "-E"; "e.txt"].


(** The configuration that names the four files of the examples. *)
Definition scenario_params : DDMparams :=
  set_e_file_name "e.txt"
    (set_s_file_name "s.txt" (set_t_file_name "t.txt" (set_q_file_name "q.txt" initial_params))).

(** An [atof] to run the examples with (they have no [-F]). *)
Definition no_atof (s : string) : double := S754_zero false.

(** *** The options, by kind

    What the options of an argument vector come to, member by member: an
    option that takes a number or a path counts at its last occurrence, a
    flag counts when it occurs at all. *)

Definition int_option (c : ascii) (default : Z) (es : list scanned) : Z :=
  match last_optarg c es with
  | Some oa => atoi (str oa)
  | None => default
  end.

Definition path_option (c : ascii) (es : list scanned) : string :=
  match last_optarg c es with
  | Some oa => str oa
  | None => ""
  end.

Definition flag_option (c : ascii) (es : list scanned) : bool :=
  existsb (fun e => Ascii.eqb (s_opt e) c) es.

(** The input sources that are checked. *)
Definition checked_sources (ls : list ascii) : list ascii := filter is_checked_source ls.

(** An argument vector for the examples: benchmark mode, the four series
    files of the scenario, and the given options in front. *)
Definition benchmark_run (options : list string) : list string :=
  (options ++ "-B" :: series_options)%list.

(** The option characters whose case reads [optarg] without testing it for
    null: it is handed to [atoi], to [atof] or to the assignment of a
    [std::string]. *)
Definition reads_optarg (c : ascii) : bool :=
  existsb (Ascii.eqb c)
    ["o"; "N"; "x"; "y"; "Q"; "T"; "S"; "E"; "s"; "f"; "t"; "C"; "G"; "F"; "n"]%char.

(** The diagnostics of [getopt] for the option character [c]. *)
Definition getopt_diagnostics (argv0 : string) (c : ascii) : list string :=
  [invalid_option argv0 c; requires_argument argv0 c].

(** What a trace shows on each of the two output streams, and what it does
    to files. *)
Definition stdout_of (tr : list event) : list string :=
  flat_map (fun e => match e with Stdout t => [t] | _ => [] end) tr.

Definition stderr_of (tr : list event) : list string :=
  flat_map (fun e => match e with Stderr t => [t] | _ => [] end) tr.

Definition is_file_event (e : event) : bool :=
  match e with
  | Open _ _ | Close _ => true
  | _ => false
  end.

Definition file_events (tr : list event) : list event := filter is_file_event tr.

Definition end_text : string := "DDM End" ++ NL.

(** The line [conditionAssert] writes before it ends the process. *)
Definition error_line (text : string) : string := "[Error] " ++ text ++ NL.

(** The texts of the four checks on the streams. *)
Definition open_errors : list string :=
  ["cannot open lambda-file."; "cannot open tau-file"; "cannot open scales-file.";
   "cannot open episode-file."].

(** The paths of the four series files, in the order they are opened. *)
Definition series_paths (p : DDMparams) : list string :=
  [q_file_name p; t_file_name p; s_file_name p; e_file_name p].

(** A floating point number proper: a zero or a finite number, not an
    infinity and not a NaN. *)
Definition is_number (x : spec_float) : bool :=
  match x with
  | S754_zero _ | S754_finite _ _ _ => true
  | _ => false
  end.

(** Every cell of the array holds a value, and the value passes the test. *)
Definition all_cells {T} (test : T -> bool) (arr : list (option T)) : bool :=
  forallb (fun c => match c with Some v => test v | None => false end) arr.

(** Every cell of the array that holds a value holds one that passes the
    test. *)
Definition written_cells {T} (test : T -> bool) (arr : list (option T)) : bool :=
  forallb (fun c => match c with Some v => test v | None => true end) arr.

(** *** The help text, line by line *)

Fixpoint lines (s : string) : list string :=
  match s with
  | EmptyString => [""]
  | String c r =>
      if Ascii.eqb c (ascii_of_nat 10) then "" :: lines r
      else
        match lines r with
        | l :: ls => String c l :: ls
        | [] => [String c ""]
        end
  end.

(** A line of the help text that presents an option: two blanks, [-], the
    option character; the option is shown with an argument when one blank
    and a word follow. *)
Definition help_entry (line : string) : option (ascii * bool) :=
  match line with
  | String " " (String " " (String "-" (String c r))) =>
      Some (c, match r with
               | String " " (String d _) => negb (isspace d)
               | _ => false
               end)
  | _ => None
  end.

Definition help_entries : list (ascii * bool) :=
  flat_map (fun l => match help_entry l with Some x => [x] | None => [] end)
    (lines help_text).

Fixpoint help_shows (c : ascii) (entries : list (ascii * bool)) : option bool :=
  match entries with
  | [] => None
  | (x, b) :: r => if Ascii.eqb x c then Some b else help_shows c r
  end.

(** Whether [getopt] accepts the option character, and whether the option
    takes an argument then. *)
Definition takes_argument (c : ascii) : option bool :=
  match find_option c optstring with
  | Some no_argument => Some false
  | Some _ => Some true
  | None => None
  end.

(** *** The q-tolerance over a range of percents *)

(** The percents from -100 to 1000. *)
Definition percents : list Z := map (fun n => Z.of_nat n - 100) (seq 0 1101).

(** Over the arguments [l], a larger argument has a larger value. *)
Definition increasing (f : Z -> float) (l : list Z) : bool :=
  let table := map (fun p => (p, f p)) l in
  forallb (fun x => forallb (fun y => implb (fst x <? fst y) (SFltb (snd x) (snd y))) table)
    table.

(** *** Decimal numerals *)

(** A sign as it may stand in front of a numeral: none, [+] or [-]. *)
Definition is_sign (sg : string) : bool :=
  (String.eqb sg "" || String.eqb sg "+" || String.eqb sg "-")%bool.

Definition signed (sg : string) (v : Z) : Z := if String.eqb sg "-" then - v else v.

Definition starts_with_digit (s : string) : bool :=
  match s with
  | String c _ => isdigit c
  | EmptyString => false
  end.

Definition starts_with_sign (s : string) : bool :=
  match s with
  | String c _ => (Ascii.eqb c "+" || Ascii.eqb c "-")%bool
  | EmptyString => false
  end.

(** The text cannot go on a decimal numeral: it starts with neither a
    digit nor an exponent letter. *)
Definition ends_numeral (s : string) : bool :=
  match s with
  | String c _ => negb (isdigit c || Ascii.eqb c "e" || Ascii.eqb c "E")
  | EmptyString => true
  end.

Definition starts_with_point (s : string) : bool :=
  match s with
  | String c _ => Ascii.eqb c "."
  | EmptyString => false
  end.

(** The digits in front of the point as the scanner of a [float] gathers
    them: of the zeros in front, one is kept. *)
Fixpoint squeeze (found : bool) (ds : string) : string :=
  match ds with
  | String c r =>
      if Ascii.eqb c "0" then (if found then "" else "0") ++ squeeze true r
      else ds
  | EmptyString => ""
  end.

(** The scanner's state after the whole of [a], and what it has gathered;
    [None] when it stops inside [a]. *)
Fixpoint scan_all {S : Type} (step : S -> ascii -> option (S * string)) (st : S)
    (a : string) : option (S * string) :=
  match a with
  | String c r =>
      match step st c with
      | Some (st', out) =>
          match scan_all step st' r with
          | Some (st'', x) => Some (st'', out ++ x)
          | None => None
          end
      | None => None
      end
  | EmptyString => Some (st, "")
  end.

(** An exponent letter, as the text has it. *)
Definition is_exponent_letter (el : string) : bool :=
  (String.eqb el "e" || String.eqb el "E")%bool.

(** A decimal numeral for an [int]: an optional sign and at least one
    digit, with a value inside the range of [int]. *)
Definition int_numeral (tok : string) (v : Z) : Prop :=
  exists sg ds,
    tok = sg ++ ds /\ is_sign sg = true /\ all_digits ds = true /\ ds <> ""
    /\ v = signed sg (digits_value ds) /\ in_int_range v = true.

(** The exponent of a numeral: nothing, or an exponent letter, an optional
    sign and at least one digit; and the power of ten it stands for. *)
Definition exponent (x : string) (e : Z) : Prop :=
  (x = "" /\ e = 0)
  \/ exists el esg ed,
       x = el ++ esg ++ ed /\ is_exponent_letter el = true /\ is_sign esg = true
       /\ all_digits ed = true /\ ed <> "" /\ e = signed esg (digits_value ed).

(** A decimal numeral for a [float]: an optional sign, digits with or
    without a point among them (at least one digit in all) and an optional
    exponent; its value, rounded to single precision, is not an infinity. *)
Definition float_numeral (tok : string) (v : float) : Prop :=
  exists sg ip fp x e (point : bool),
    tok = sg ++ (ip ++ (if point then "." else "") ++ fp) ++ x
    /\ is_sign sg = true /\ all_digits ip = true /\ all_digits fp = true
    /\ (ip <> "" \/ fp <> "") /\ (point = false -> fp = "")
    /\ exponent x e
    /\ v = decimal 24 128 (String.eqb sg "-") (digits_value (ip ++ fp))
             (e - Z.of_nat (String.length fp))
    /\ is_infinite v = false.

(** A decimal numeral whatever its value: what the text of a series file
    calls a numeric token. *)
Definition is_numeral (tok : string) : bool :=
  match tok with
  | String c ds =>
      if (Ascii.eqb c "+" || Ascii.eqb c "-")%bool
      then (negb (String.eqb ds "") && all_digits ds)%bool
      else all_digits tok
  | EmptyString => false
  end.

(** The tokens of a text: its longest runs of characters that are not
    white space ([cur] is the token being gathered). *)
Fixpoint tokens_from (cur : string) (s : string) : list string :=
  match s with
  | EmptyString => if String.eqb cur "" then [] else [cur]
  | String c r =>
      if isspace c then
        (if String.eqb cur "" then tokens_from "" r else cur :: tokens_from "" r)
      else tokens_from (cur ++ String c "") r
  end.

Definition tokens (s : string) : list string := tokens_from "" s.

(** ** The other routines of debug.cpp *)

(** [cudaError_t] is an enumeration of the CUDA runtime; [cudaSuccess] is
    its value 0. *)
Definition cudaError_t : Type := Z.
Definition cudaSuccess : cudaError_t := 0.

(** An [int] as [%d] prints it. *)
Definition decimal_text (n : Z) : string := NilZero.string_of_int (Z.to_int n).

(** The line [conditionAssert] writes when it goes on. *)
Definition warning_line (text : string) : string := "[Warning] " ++ text ++ NL.

Section Debug.

(** The CUDA runtime's description of an error code. *)
Variable cudaGetErrorString : cudaError_t -> string.

Definition gpu_line (code : cudaError_t) (file : string) (line : Z) : string :=
  "[GPU Assert] " ++ cudaGetErrorString code ++ " " ++ file ++ " " ++ decimal_text line
  ++ NL.

(** [gpuAssert] of debug.cpp. *)
Definition gpuAssert (code : cudaError_t) (file : string) (line : Z) : M unit :=
  if negb (code =? cudaSuccess) then
    fprintf_stderr (gpu_line code file line);;
    exit EXIT_FAILURE
  else ret tt.

(** The arguments that follow the format, and the C library's [vprintf]:
    what it writes and the number it returns. *)
Variable va_list : Type.
Variable vprintf : string -> va_list -> M Z.

(** [verbose] of debug.cpp; the global [Verbose] is read from the locals
    the option loop works on. *)
Definition verbose (l : locals) (format : string) (args : va_list) : M Z :=
  if negb (Verbose l) then ret 0
  else
    ret_ <- vprintf format args;;
    ret ret_.

(** A call of one of the two assertions. *)
Inductive assertion :=
| Condition (condition : bool) (text : string) (abort : bool)
| Gpu (code : cudaError_t) (file : string) (line : Z).

Definition run_assertion (a : assertion) : M unit :=
  match a with
  | Condition condition text abort => conditionAssert condition text abort
  | Gpu code file line => gpuAssert code file line
  end.

(** Assertions one after the other. *)
Fixpoint run_assertions (l : list assertion) : M unit :=
  match l with
  | [] => ret tt
  | a :: r => run_assertion a;; run_assertions r
  end.

(** The assertion fails and ends the process. *)
Definition fatal (a : assertion) : bool :=
  match a with
  | Condition condition _ abort => (negb condition && abort)%bool
  | Gpu code _ _ => negb (code =? cudaSuccess)
  end.

(** What a failed assertion writes. *)
Definition report (a : assertion) : list string :=
  match a with
  | Condition true _ _ => []
  | Condition false text true => [error_line text]
  | Condition false text false => [warning_line text]
  | Gpu code file line => if code =? cudaSuccess then [] else [gpu_line code file line]
  end.

End Debug.

(** * Properties *)

(** ** The monad *)

Lemma bind_ret_l {A B} (a : A) (k : A -> M B) : bind (ret a) k = k a.
Proof. unfold bind, ret. destruct (k a) as [t r]. reflexivity. Qed.

Lemma bind_assoc {A B C} (m : M A) (k : A -> M B) (h : B -> M C) :
  bind (bind m k) h = bind m (fun a => bind (k a) h).
Proof.
  destruct m as [t [a| | |]]; simpl; try reflexivity.
  destruct (k a) as [t1 [b| | |]]; simpl; try reflexivity.
  destruct (h b) as [t2 r2]. rewrite app_assoc. reflexivity.
Qed.

(** ** Characters *)

Ltac each_char c :=
  let b0 := fresh "b" in let b1 := fresh "b" in let b2 := fresh "b" in
  let b3 := fresh "b" in let b4 := fresh "b" in let b5 := fresh "b" in
  let b6 := fresh "b" in let b7 := fresh "b" in
  destruct c as [b0 b1 b2 b3 b4 b5 b6 b7];
  destruct b0, b1, b2, b3, b4, b5, b6, b7.

Lemma space_not_digit c : isspace c = true -> isdigit c = false.
Proof. each_char c; intros H; try reflexivity; discriminate H. Qed.

Lemma space_not_mark c :
  isspace c = true ->
  Ascii.eqb c "." = false /\ Ascii.eqb c "e" = false /\ Ascii.eqb c "E" = false
  /\ Ascii.eqb c "+" = false /\ Ascii.eqb c "-" = false /\ Ascii.eqb c "0" = false.
Proof. each_char c; intros H; try discriminate H; repeat split. Qed.

Lemma append_nil_r (s : string) : s ++ "" = s.
Proof. induction s; simpl; congruence. Qed.

Lemma append_assoc (a b c : string) : (a ++ b) ++ c = a ++ (b ++ c).
Proof. induction a; simpl; congruence. Qed.

Lemma skip_ws_space lead s : all_space lead = true -> skip_ws (lead ++ s) = skip_ws s.
Proof.
  induction lead as [|c lead IH]; simpl; intros H; [reflexivity|].
  apply andb_prop in H. destruct H as [Hc Hl]. rewrite Hc. auto.
Qed.

Lemma skip_ws_token tok s :
  tok <> "" -> no_space tok = true -> skip_ws (tok ++ s) = (tok ++ s).
Proof.
  destruct tok as [|c tok]; [congruence|]. simpl. intros _ H.
  apply andb_prop in H. destruct H as [Hc _].
  destruct (isspace c); [discriminate|reflexivity].
Qed.

Lemma skip_ws_id tok : tok <> "" -> no_space tok = true -> skip_ws tok = tok.
Proof.
  intros H1 H2. pose proof (skip_ws_token tok "" H1 H2) as H.
  rewrite append_nil_r in H. exact H.
Qed.

Lemma skip_ws_length s : (String.length (skip_ws s) <= String.length s)%nat.
Proof.
  induction s as [|c s IH]; simpl; [lia|].
  destruct (isspace c); simpl; lia.
Qed.

Lemma all_space_starts sep s :
  all_space sep = true -> sep <> "" -> starts_with_space (sep ++ s) = true.
Proof.
  destruct sep as [|c sep]; [congruence|]. simpl. intros H _.
  apply andb_prop in H. tauto.
Qed.

(** ** Formatted input *)

Section Extraction.
Context {T : Type} (ng : num_get T).

Lemma accumulate_length st s x r :
  accumulate (ng_step ng) st s = (x, r) ->
  (String.length r <= String.length s)%nat
  /\ (String.length r = String.length s -> x = "").
Proof.
  revert st x r. induction s as [|c s IH]; simpl; intros st x r H.
  - inversion H. subst. split; [simpl; lia|reflexivity].
  - destruct (ng_step ng st c) as [[st' out]|].
    + destruct (accumulate (ng_step ng) st' s) as [x' r'] eqn:E.
      inversion H. subst. apply IH in E. destruct E as [E _]. simpl. split; lia.
    + inversion H. subst. split; [simpl; lia|reflexivity].
Qed.

Lemma take_sign_length s sg r :
  take_sign s = (sg, r) ->
  (String.length r <= String.length s)%nat
  /\ (String.length r = String.length s -> sg = "").
Proof.
  unfold take_sign. intros H.
  destruct s as [|c s]; [inversion H; subst; split; [simpl; lia|reflexivity]|].
  each_char c; inversion H; subst; simpl; split; try lia; reflexivity.
Qed.

Lemma get_shrinks s v r :
  rejects_nothing ng -> get ng s = Some (v, r) ->
  (String.length r < String.length s)%nat.
Proof.
  intros Hne. unfold get.
  destruct (take_sign (skip_ws s)) as [sg s2] eqn:Es.
  destruct (accumulate (ng_step ng) (ng_init ng) s2) as [x r'] eqn:Ea.
  destruct (ng_convert ng (sg ++ x)) as [v'|] eqn:Ec; [|discriminate].
  intros H. inversion H. subst v' r'. clear H.
  pose proof (skip_ws_length s) as H1.
  apply take_sign_length in Es. destruct Es as [H2 H2'].
  apply accumulate_length in Ea. destruct Ea as [H3 H3'].
  destruct (Nat.eq_dec (String.length r) (String.length s)) as [E|E]; [|lia].
  exfalso. assert (x = "") by (apply H3'; lia). assert (sg = "") by (apply H2'; lia).
  subst. simpl in Ec. unfold rejects_nothing in Hne. rewrite Hne in Ec. discriminate.
Qed.

Lemma accumulate_glue st tok x rest :
  stops_at_space ng ->
  accumulate (ng_step ng) st tok = (x, "") ->
  rest = "" \/ starts_with_space rest = true ->
  accumulate (ng_step ng) st (tok ++ rest) = (x, rest).
Proof.
  intros Hs. revert st x. induction tok as [|c tok IH]; simpl; intros st x H Hr.
  - inversion H. subst. destruct rest as [|w rest]; [reflexivity|].
    destruct Hr as [Hr|Hr]; [discriminate|]. simpl in Hr. simpl.
    rewrite (Hs st w Hr). reflexivity.
  - destruct (ng_step ng st c) as [[st' out]|]; [|discriminate].
    destruct (accumulate (ng_step ng) st' tok) as [x' r'] eqn:E.
    inversion H. subst. rewrite (IH _ _ E Hr). reflexivity.
Qed.

Lemma take_sign_glue tok sg r rest :
  take_sign tok = (sg, r) ->
  rest = "" \/ starts_with_space rest = true ->
  take_sign (tok ++ rest) = (sg, r ++ rest).
Proof.
  intros H Hr. destruct tok as [|c tok].
  - inversion H. subst. simpl. destruct rest as [|w rest]; [reflexivity|].
    destruct Hr as [Hr|Hr]; [discriminate|]. simpl in Hr.
    apply space_not_mark in Hr. destruct Hr as (_ & _ & _ & Hp & Hm & _).
    unfold take_sign. each_char w; try reflexivity; discriminate.
  - unfold take_sign in *. simpl. each_char c; inversion H; subst; reflexivity.
Qed.

(** A numeric token is read the same way wherever it stands between
    white space. *)
Lemma get_token lead tok v rest :
  stops_at_space ng ->
  all_space lead = true -> numeric ng tok v ->
  rest = "" \/ starts_with_space rest = true ->
  get ng (lead ++ tok ++ rest) = Some (v, rest).
Proof.
  intros Hs Hl (Hne & Hns & Hg) Hr. unfold get in *.
  rewrite skip_ws_space by assumption. rewrite skip_ws_token by assumption.
  rewrite skip_ws_id in Hg by assumption.
  destruct (take_sign tok) as [sg r] eqn:Es.
  rewrite (take_sign_glue _ _ _ _ Es Hr).
  destruct (accumulate (ng_step ng) (ng_init ng) r) as [x r'] eqn:Ea.
  destruct (ng_convert ng (sg ++ x)) as [v'|] eqn:Ec; [|discriminate].
  inversion Hg. subst. rewrite (accumulate_glue _ _ _ _ Hs Ea Hr), Ec. reflexivity.
Qed.

Lemma get_after_space lead s : all_space lead = true -> get ng (lead ++ s) = get ng s.
Proof. intros H. unfold get. rewrite skip_ws_space by assumption. reflexivity. Qed.

Lemma reads_after_space lead s vs :
  all_space lead = true -> reads ng s vs -> reads ng (lead ++ s) vs.
Proof.
  intros Hl H. destruct H as [s H|s v r vs H R].
  - apply reads_stop. rewrite get_after_space; assumption.
  - apply reads_next with (r := r); [|exact R]. rewrite get_after_space; assumption.
Qed.

(** What a file laid out as tokens holds: the values of the tokens, and
    then what is read from the text behind them. *)
Lemma layout_reads items :
  stops_at_space ng ->
  forall lead tail more,
    all_space lead = true -> layout (numeric ng) items tail -> reads ng tail more ->
    reads ng (lead ++ series_text items ++ tail) (values items ++ more).
Proof.
  intros Hs. induction items as [|[[tok v] sep] items IH]; intros lead tail more Hl Hlay Ht.
  - simpl. apply reads_after_space; assumption.
  - simpl in Hlay. destruct Hlay as (Hn & Hsep & Hend & Hlay). simpl.
    rewrite !append_assoc.
    apply reads_next with (r := sep ++ series_text items ++ tail).
    + apply get_token; try assumption.
      destruct sep as [|c sep].
      * destruct Hend as [-> ->]; [reflexivity|]. left. reflexivity.
      * right. apply all_space_starts; [assumption|discriminate].
    + apply IH; assumption.
Qed.

Lemma layout_weaken (num num' : string -> T -> Prop) items tail :
  (forall tok v, num tok v -> num' tok v) -> layout num items tail -> layout num' items tail.
Proof.
  intros H. induction items as [|[[tok v] sep] items IH]; [trivial|].
  cbn [layout]. intros (Hn & Hsep & Hend & Hlay). auto.
Qed.

Lemma reads_total : rejects_nothing ng -> forall s, exists vs, reads ng s vs.
Proof.
  intros Hne s. remember (String.length s) as n eqn:En.
  revert s En. induction n as [n IH] using lt_wf_ind. intros s En.
  destruct (get ng s) as [[v r]|] eqn:E.
  - pose proof (get_shrinks _ _ _ Hne E) as Hlt.
    destruct (IH (String.length r)) with (s := r) as [vs Hvs]; [lia|reflexivity|].
    exists (v :: vs). eapply reads_next; eassumption.
  - exists []. apply reads_stop. assumption.
Qed.

Lemma reads_unique s vs : reads ng s vs -> forall vs', reads ng s vs' -> vs' = vs.
Proof.
  induction 1 as [s H|s v r vs H _ IH]; intros vs' H'; inversion H'; subst;
    try congruence.
  rewrite H in H0. inversion H0. subst. f_equal. apply IH. assumption.
Qed.

End Extraction.

(** ** The two passes over a series file *)

Lemma store_at {T} (a b : list (option T)) (c : option T) (v : T) :
  store (a ++ c :: b) (length a) v = Some (a ++ Some v :: b)%list.
Proof.
  induction a as [|x a IH]; simpl; [reflexivity|]. rewrite IH. reflexivity.
Qed.

Lemma store_at_some {T} (pre : list T) (b : list (option T)) (c : option T) (v : T) :
  store (map Some pre ++ c :: b) (length pre) v = Some (map Some pre ++ Some v :: b)%list.
Proof. rewrite <- (length_map (@Some T) pre). apply store_at. Qed.

Lemma store_at_end {T} (a : list (option T)) (v : T) : store a (length a) v = None.
Proof.
  induction a as [|x a IH]; simpl; [reflexivity|]. rewrite IH. reflexivity.
Qed.

Section TwoPass.
Context {T : Type} (ng : num_get T) (Hne : rejects_nothing ng).

(** The counting pass: the count goes up by the number of values read,
    unless that takes it beyond [INT_MAX]. *)
Lemma count_loop_reads s vs :
  reads ng s vs ->
  forall f fuel c,
    unread f = s -> failbit f = false -> (String.length s < fuel)%nat -> c <= INT_MAX ->
    if c + Z.of_nat (length vs) <=? INT_MAX
    then exists f', count_loop ng fuel f c = ret (f', c + Z.of_nat (length vs))
                    /\ same_file f f'
    else count_loop ng fuel f c = undefined.
Proof.
  induction 1 as [s H|s v r vs H _ IH]; intros f fuel c Hu Hf Hfuel Hc;
    (destruct fuel as [|fuel]; [lia|]); cbn [count_loop]; unfold extract;
    rewrite Hf, Hu, H.
  - cbn [length]. rewrite Z.add_0_r. destruct (Z.leb_spec c INT_MAX) as [_|]; [|lia].
    eexists. split; [reflexivity|repeat split].
  - pose proof (get_shrinks ng _ _ _ Hne H) as Hlt.
    change (length (v :: vs)) with (S (length vs)).
    destruct (Z.ltb_spec c INT_MAX) as [Hlt'|Hge].
    + specialize (IH {| path := path f; is_open := is_open f; rewound := rewound f;
                        unread := r; failbit := false |} fuel (c + 1)
                     eq_refl eq_refl ltac:(simpl; lia) ltac:(lia)).
      replace (c + Z.of_nat (S (length vs))) with (c + 1 + Z.of_nat (length vs)) by lia.
      destruct (c + 1 + Z.of_nat (length vs) <=? INT_MAX); [|exact IH].
      destruct IH as (f' & E & Hp & Ho & Hc'). exists f'.
      split; [exact E|repeat split; assumption].
    + destruct (Z.leb_spec (c + Z.of_nat (S (length vs))) INT_MAX); [lia|reflexivity].
Qed.

(** The filling pass: the values read go into the cells that are still
    free, unless there are more values than cells. *)
Lemma fill_loop_reads s ws :
  reads ng s ws ->
  forall f fuel pre k,
    unread f = s -> failbit f = false -> (String.length s < fuel)%nat ->
    if (length ws <=? k)%nat
    then exists f', fill_loop ng fuel f (map Some pre ++ repeat None k)
                      (Z.of_nat (length pre))
                    = ret (f', (map Some (pre ++ ws) ++ repeat None (k - length ws))%list)
                    /\ same_file f f'
    else fill_loop ng fuel f (map Some pre ++ repeat None k) (Z.of_nat (length pre))
         = undefined.
Proof.
  induction 1 as [s H|s v r ws H _ IH]; intros f fuel pre k Hu Hf Hfuel;
    (destruct fuel as [|fuel]; [lia|]); cbn [fill_loop]; unfold extract;
    rewrite Hf, Hu, H.
  - cbn [length Nat.leb]. rewrite app_nil_r, Nat.sub_0_r.
    eexists. split; [reflexivity|repeat split].
  - pose proof (get_shrinks ng _ _ _ Hne H) as Hlt.
    destruct (Z.of_nat (length pre) <? 0) eqn:Eneg; [apply Z.ltb_lt in Eneg; lia|].
    rewrite Nat2Z.id. destruct k as [|k].
    + cbn [length Nat.leb repeat]. rewrite app_nil_r.
      rewrite <- (length_map (@Some T) pre), store_at_end. reflexivity.
    + change (repeat None (S k)) with (@None T :: repeat None k).
      rewrite store_at_some.
      specialize (IH {| path := path f; is_open := is_open f; rewound := rewound f;
                        unread := r; failbit := false |} fuel (pre ++ [v])%list k
                     eq_refl eq_refl ltac:(simpl; lia)).
      rewrite map_app, <- app_assoc, length_app in IH. cbn [map app length] in IH.
      replace (Z.of_nat (length pre) + 1) with (Z.of_nat (length pre + 1)) by lia.
      change (length (v :: ws) <=? S k)%nat with (length ws <=? k)%nat.
      destruct (length ws <=? k)%nat; [|exact IH].
      destruct IH as (f' & E & Hp & Ho & Hc). exists f'.
      split; [|repeat split; assumption].
      rewrite E. rewrite <- !app_assoc. reflexivity.
Qed.

(** The first pass over a freshly opened file. *)
Lemma count_pass p fl vs :
  reads ng (bytes fl) vs ->
  let f := {| path := p; is_open := true; rewound := again fl; unread := bytes fl;
              failbit := false |} in
  if Z.of_nat (length vs) <=? INT_MAX
  then exists f1, count_loop ng (rounds f) f 0 = ret (f1, Z.of_nat (length vs))
                  /\ path f1 = p /\ rewound f1 = again fl
  else count_loop ng (rounds f) f 0 = undefined.
Proof.
  intros H f.
  pose proof (count_loop_reads _ _ H f (rounds f) 0 eq_refl eq_refl
                ltac:(unfold rounds; simpl; lia) ltac:(unfold INT_MAX; lia)) as E.
  rewrite Z.add_0_l in E.
  destruct (Z.of_nat (length vs) <=? INT_MAX); [|exact E].
  destruct E as (f1 & E & Hp & _ & Hr). exists f1. repeat split; assumption.
Qed.

(** The second pass, over an array of [n] cells. *)
Lemma fill_pass fl f1 n ws :
  rewound f1 = again fl -> rereads ng fl ws ->
  if (length ws <=? n)%nat
  then exists f2, fill_loop ng (rounds (clear_seekg f1)) (clear_seekg f1) (repeat None n) 0
                  = ret (f2, filled n ws)
                  /\ path f2 = path f1
  else fill_loop ng (rounds (clear_seekg f1)) (clear_seekg f1) (repeat None n) 0
       = undefined.
Proof.
  intros Hr Hw. unfold rereads in Hw. unfold clear_seekg. rewrite Hr.
  destruct (again fl) as [c|].
  - match goal with
    | |- context [fill_loop ng (rounds ?g) ?g _ _] => set (f := g)
    end.
    pose proof (fill_loop_reads _ _ Hw f (rounds f) [] n eq_refl eq_refl
                  ltac:(unfold rounds; simpl; lia)) as E.
    cbn [map app length Z.of_nat] in E.
    destruct (length ws <=? n)%nat; [|exact E].
    destruct E as (f2 & E & Hp & _). exists f2. split; [exact E|exact Hp].
  - subst ws. cbn [length Nat.leb]. eexists. split.
    + unfold rounds, filled. cbn [fill_loop extract failbit map app length].
      rewrite Nat.sub_0_r. reflexivity.
    + reflexivity.
Qed.

End TwoPass.

Lemma rereads_total {T} (ng : num_get T) (f : readable) :
  rejects_nothing ng -> exists ws, rereads ng f ws.
Proof.
  intros H. unfold rereads. destruct (again f) as [c|].
  - apply reads_total. exact H.
  - exists []. reflexivity.
Qed.

(** A file that is read the same again gives the same values again. *)
Lemma rereads_steady {T} (ng : num_get T) (f : readable) vs ws :
  steady f -> reads ng (bytes f) vs -> rereads ng f ws -> ws = vs.
Proof.
  unfold steady, rereads. intros -> Hv Hw. eapply reads_unique; eassumption.
Qed.

(** The two scanners of the program. *)

Lemma int_stops : stops_at_space get_int.
Proof.
  intros st c H. simpl. unfold int_step. rewrite (space_not_digit c H). reflexivity.
Qed.

Lemma int_rejects_nothing : rejects_nothing get_int.
Proof. reflexivity. Qed.

Lemma float_stops : stops_at_space get_float.
Proof.
  intros st c H. simpl.
  pose proof (space_not_digit c H) as Hd.
  destruct (space_not_mark c H) as (H1 & H2 & H3 & H4 & H5 & H6).
  unfold float_step, float_body. rewrite Hd, H1, H2, H3, H4, H5, H6. simpl.
  rewrite andb_false_r.
  destruct (after_e st); reflexivity.
Qed.

Lemma float_rejects_nothing : rejects_nothing get_float.
Proof. reflexivity. Qed.

(** ** From the opening of the files to the end of [main] *)

(** The run from the opening of the files on, when all four can be opened. *)
Lemma fits_room env nq nt ns ne :
  fits env nq nt ns ne = true ->
  (sizeof_cell * Z.of_nat nq <=? stack env) = true
  /\ (sizeof_cell * Z.of_nat nt <=? stack env - sizeof_cell * Z.of_nat nq) = true
  /\ (sizeof_cell * Z.of_nat ns
      <=? stack env - sizeof_cell * Z.of_nat nq - sizeof_cell * Z.of_nat nt) = true
  /\ (sizeof_cell * Z.of_nat ne
      <=? stack env - sizeof_cell * Z.of_nat nq - sizeof_cell * Z.of_nat nt
          - sizeof_cell * Z.of_nat ns) = true.
Proof.
  unfold fits, sizeof_cell. rewrite !andb_true_iff, !Z.leb_le. lia.
Qed.

Lemma filled_length {T} n (ws : list T) :
  (length ws <=? n)%nat = true -> length (filled n ws) = n.
Proof.
  intros H. apply Nat.leb_le in H. unfold filled.
  rewrite length_app, length_map, repeat_length. lia.
Qed.

Lemma series_and_run_loads env p vq wq vt wt vs ws ve we :
  series_read env p vq wq vt wt vs ws ve we ->
  series_and_run env p = loaded_run env p vq wq vt wt vs ws ve we.
Proof.
  intros (fq & ft & fs & fe & (Oq & Ot & Os & Oe) & (Rq & Rt & Rs & Re)
          & (Wq & Wt & Ws & We)).
  pose proof (count_pass get_float float_rejects_nothing (q_file_name p) fq vq Rq) as Cq.
  pose proof (count_pass get_int int_rejects_nothing (t_file_name p) ft vt Rt) as Ct.
  pose proof (count_pass get_int int_rejects_nothing (s_file_name p) fs vs Rs) as Cs.
  pose proof (count_pass get_int int_rejects_nothing (e_file_name p) fe ve Re) as Ce.
  cbn zeta in Cq, Ct, Cs, Ce.
  unfold series_and_run, ifstream_open. rewrite Oq, Ot, Os, Oe.
  cbn -[count_loop fill_loop rounds clear_seekg new_array].
  unfold loaded_run, loads.
  destruct (fits env (length vq) (length vt) (length vs) (length ve)) eqn:Ef.
  - pose proof Ef as Hc. unfold fits in Hc. rewrite !andb_true_iff in Hc.
    destruct Hc as ((((Eq & Et) & Es) & Ee) & _).
    rewrite Eq in Cq. rewrite Et in Ct. rewrite Es in Cs. rewrite Ee in Ce.
    destruct Cq as (q1 & Cq & Pq & Aq), Ct as (t1 & Ct & Pt & At),
      Cs as (s1 & Cs & Ps & As), Ce as (e1 & Ce & Pe & Ae).
    rewrite Cq. cbn -[count_loop fill_loop rounds clear_seekg new_array].
    rewrite Ct. cbn -[count_loop fill_loop rounds clear_seekg new_array].
    rewrite Cs. cbn -[count_loop fill_loop rounds clear_seekg new_array].
    rewrite Ce. cbn -[count_loop fill_loop rounds clear_seekg new_array].
    destruct (fits_room _ _ _ _ _ Ef) as (Nq & Nt & Ns & Ne).
    unfold new_array. rewrite Nq. cbn -[count_loop fill_loop rounds clear_seekg Z.mul Z.sub].
    rewrite Nt. cbn -[count_loop fill_loop rounds clear_seekg Z.mul Z.sub].
    rewrite Ns. cbn -[count_loop fill_loop rounds clear_seekg Z.mul Z.sub].
    rewrite Ne. cbn -[count_loop fill_loop rounds clear_seekg Z.mul Z.sub].
    rewrite !Nat2Z.id.
    pose proof (fill_pass get_float float_rejects_nothing fq q1 (length vq) wq Aq Wq) as Fq.
    pose proof (fill_pass get_int int_rejects_nothing ft t1 (length vt) wt At Wt) as Ft.
    pose proof (fill_pass get_int int_rejects_nothing fs s1 (length vs) ws As Ws) as Fs.
    pose proof (fill_pass get_int int_rejects_nothing fe e1 (length ve) we Ae We) as Fe.
    unfold within. cbn [andb].
    destruct (length wq <=? length vq)%nat eqn:Lq; [|rewrite Fq; reflexivity].
    destruct Fq as (q2 & Fq & Pq2). rewrite Fq.
    cbn -[count_loop fill_loop rounds clear_seekg filled].
    destruct (length wt <=? length vt)%nat eqn:Lt; [|rewrite Ft; reflexivity].
    destruct Ft as (t2 & Ft & Pt2). rewrite Ft.
    cbn -[count_loop fill_loop rounds clear_seekg filled].
    destruct (length ws <=? length vs)%nat eqn:Ls; [|rewrite Fs; reflexivity].
    destruct Fs as (s2 & Fs & Ps2). rewrite Fs.
    cbn -[count_loop fill_loop rounds clear_seekg filled].
    destruct (length we <=? length ve)%nat eqn:Le; [|rewrite Fe; reflexivity].
    destruct Fe as (e2 & Fe & Pe2). rewrite Fe.
    cbn -[count_loop fill_loop rounds clear_seekg filled].
    rewrite Pq2, Pt2, Ps2, Pe2, Pq, Pt, Ps, Pe.
    unfold loaded_call, engine_call.
    rewrite (filled_length _ _ Lq), (filled_length _ _ Lt), (filled_length _ _ Ls),
      (filled_length _ _ Le).
    reflexivity.
  - cbn [andb]. unfold fits in Ef.
    destruct (Z.of_nat (length vq) <=? INT_MAX) eqn:Eq; [|rewrite Cq; reflexivity].
    destruct Cq as (q1 & Cq & Pq & Aq). rewrite Cq.
    cbn -[count_loop fill_loop rounds clear_seekg new_array].
    destruct (Z.of_nat (length vt) <=? INT_MAX) eqn:Et; [|rewrite Ct; reflexivity].
    destruct Ct as (t1 & Ct & Pt & At). rewrite Ct.
    cbn -[count_loop fill_loop rounds clear_seekg new_array].
    destruct (Z.of_nat (length vs) <=? INT_MAX) eqn:Es; [|rewrite Cs; reflexivity].
    destruct Cs as (s1 & Cs & Ps & As). rewrite Cs.
    cbn -[count_loop fill_loop rounds clear_seekg new_array].
    destruct (Z.of_nat (length ve) <=? INT_MAX) eqn:Ee; [|rewrite Ce; reflexivity].
    destruct Ce as (e1 & Ce & Pe & Ae). rewrite Ce.
    cbn -[count_loop fill_loop rounds clear_seekg new_array].
    cbn [andb] in Ef. apply Z.leb_gt in Ef.
    unfold new_array.
    destruct (Z.leb_spec (sizeof_cell * Z.of_nat (length vq)) (stack env)); [|reflexivity].
    cbn -[count_loop fill_loop rounds clear_seekg Z.mul Z.sub].
    destruct (Z.leb_spec (sizeof_cell * Z.of_nat (length vt))
                (stack env - sizeof_cell * Z.of_nat (length vq))); [|reflexivity].
    cbn -[count_loop fill_loop rounds clear_seekg Z.mul Z.sub].
    destruct (Z.leb_spec (sizeof_cell * Z.of_nat (length vs))
                (stack env - sizeof_cell * Z.of_nat (length vq)
                 - sizeof_cell * Z.of_nat (length vt))); [|reflexivity].
    cbn -[count_loop fill_loop rounds clear_seekg Z.mul Z.sub].
    destruct (Z.leb_spec (sizeof_cell * Z.of_nat (length ve))
                (stack env - sizeof_cell * Z.of_nat (length vq)
                 - sizeof_cell * Z.of_nat (length vt)
                 - sizeof_cell * Z.of_nat (length vs))); [|reflexivity].
    exfalso. unfold sizeof_cell in *. lia.
Qed.

(** ** [getopt] *)

Section GetoptFacts.
Variables (ord : ordering) (argv0 : string).

Lemma take_option_facts o c nc r n :
  let g := take_option argv0 o c nc r n in
  exists c', opt_char g = Some c'
    /\ (c' = "?"%char \/ (c' = c /\ find_option c o <> None /\ message g = []))
    /\ nonopts (after g) = n
    /\ (weight (after g) <= String.length nc
          + total r)%nat
    /\ (find_option c' o = Some required_argument -> c' <> "?"%char ->
        optarg g <> None).
Proof.
  unfold take_option.
  destruct (find_option c o) as [[| |]|] eqn:E.
  - eexists. split; [reflexivity|]. split; [right; repeat split; congruence|].
    split; [reflexivity|]. split; [unfold weight; simpl; lia|].
    intros H. rewrite E in H. discriminate.
  - destruct nc as [|x nc].
    + destruct r as [|a r].
      * eexists. split; [reflexivity|]. split; [left; reflexivity|].
        split; [reflexivity|]. split; [unfold weight; simpl; lia|].
        intros _ H. congruence.
      * eexists. split; [reflexivity|]. split; [right; repeat split; congruence|].
        split; [reflexivity|]. split; [unfold weight; simpl; lia|].
        intros _ _. discriminate.
    + eexists. split; [reflexivity|]. split; [right; repeat split; congruence|].
      split; [reflexivity|]. split; [unfold weight; simpl; lia|].
      intros _ _. discriminate.
  - destruct nc as [|x nc];
      (eexists; split; [reflexivity|]; split; [right; repeat split; congruence|];
       split; [reflexivity|]; split; [unfold weight; simpl; lia|];
       intros H; rewrite E in H; discriminate).
  - eexists. split; [reflexivity|]. split; [left; reflexivity|].
    split; [reflexivity|]. split; [unfold weight; simpl; lia|].
    intros _ H. congruence.
Qed.

Lemma skip_nonopts_weight l sk r :
  skip_nonopts l = (sk, r) ->
  (total r
   <= total l)%nat.
Proof.
  revert sk r. induction l as [|a l IH]; simpl; intros sk r H.
  - inversion H. simpl. lia.
  - destruct (NONOPTION_P a).
    + destruct (skip_nonopts l) as [n r'] eqn:E. inversion H. subst.
      specialize (IH _ _ eq_refl). lia.
    + inversion H. simpl. lia.
Qed.

(** What a call of [getopt] comes to: the scan is over, or one option
    character is taken from a cluster. *)
Lemma getopt_cases d :
  (exists n r, getopt ord argv0 optstring d = finish n r)
  \/ (exists c nc r n,
        getopt ord argv0 optstring d = take_option argv0 optstring c nc r n
        /\ (String.length nc
            + total r
            < weight d)%nat).
Proof.
  unfold getopt. destruct d as [nx rs no]. simpl.
  destruct nx as [|c nc].
  - assert (H : exists n r,
               match ord with
               | PERMUTE => let '(sk, r) := skip_nonopts rs in ((no ++ sk)%list, r)
               | REQUIRE_ORDER => (no, rs)
               end = (n, r)
               /\ (total r
                   <= total rs)%nat).
    { destruct ord.
      - exists no, rs. split; [reflexivity|lia].
      - destruct (skip_nonopts rs) as [sk r] eqn:E.
        exists (no ++ sk)%list, r. split; [reflexivity|].
        eapply skip_nonopts_weight; eassumption. }
    destruct H as (n & r & -> & Hw).
    destruct r as [|a r']; [left; eauto|].
    destruct (String.eqb a "--"); [left; eauto|].
    destruct a as [|x a]; [left; eauto|].
    destruct (Ascii.eqb x "-") eqn:Ex.
    + apply Ascii.eqb_eq in Ex. subst x.
      destruct a as [|c nc]; [left; eauto|].
      right. exists c, nc, r', n. split; [reflexivity|].
      unfold weight. simpl in *. lia.
    + left. exists n, (String x a :: r').
      each_char x; try reflexivity; discriminate Ex.
  - right. exists c, nc, rs, no. split; [reflexivity|].
    unfold weight. simpl. lia.
Qed.

Lemma getopt_end d :
  opt_char (getopt ord argv0 optstring d) = None ->
  message (getopt ord argv0 optstring d) = []
  /\ nextchar (after (getopt ord argv0 optstring d)) = "".
Proof.
  destruct (getopt_cases d) as [(n & r & ->)|(c & nc & r & n & -> & _)].
  - intros _. split; reflexivity.
  - destruct (take_option_facts optstring c nc r n) as (c' & E & _).
    simpl in E. rewrite E. discriminate.
Qed.

Lemma getopt_option d c :
  opt_char (getopt ord argv0 optstring d) = Some c ->
  (weight (after (getopt ord argv0 optstring d)) < weight d)%nat
  /\ (c = "?"%char
      \/ (find_option c optstring <> None
          /\ message (getopt ord argv0 optstring d) = [])).
Proof.
  destruct (getopt_cases d) as [(n & r & ->)|(x & nc & r & n & -> & Hw)].
  - discriminate.
  - destruct (take_option_facts optstring x nc r n) as (c' & E & Hc & _ & Hw' & _).
    simpl in *. rewrite E. intros H. inversion H. subst c'. split; [lia|].
    destruct Hc as [Hc|(-> & Hc)]; [left; assumption|right; assumption].
Qed.

(** [optarg] is set whenever an option with a required argument is
    returned. *)
Lemma getopt_required_optarg d c :
  opt_char (getopt ord argv0 optstring d) = Some c ->
  find_option c optstring = Some required_argument ->
  optarg (getopt ord argv0 optstring d) <> None.
Proof.
  destruct (getopt_cases d) as [(n & r & ->)|(x & nc & r & n & -> & Hw)].
  - discriminate.
  - destruct (take_option_facts optstring x nc r n) as (c' & E & _ & _ & _ & Ho).
    simpl in *. rewrite E. intros H. inversion H. subst c'. intros Hf.
    apply Ho; [assumption|]. intros ->. discriminate Hf.
Qed.

Lemma getopt_nothing_left d :
  nextchar d = "" -> rest d = [] ->
  opt_char (getopt ord argv0 optstring d) = None.
Proof.
  destruct d as [nx rs no]. simpl. intros -> ->. unfold getopt. simpl.
  destruct ord; reflexivity.
Qed.

End GetoptFacts.

(** ** The option loop *)

Section Loop.
Variable atof : string -> double.
Variables (ord : ordering) (argv0 : string).

(** The [switch], case by case. *)
Lemma switch_body_walk l e :
  switch_body atof (Some (s_opt e)) (s_optarg e) l
  = if is_help (s_opt e) then ([Stderr help_text], Returned (Return (-1)))
    else if (is_checked_source (s_opt e) && input_specified l)%bool
         then ([Stderr conflict_message], Exited EXIT_FAILURE)
    else if has_case (s_opt e) then ([], Returned (Continue (effect atof l e)))
    else ([], Returned Break).
Proof.
  unfold effect. destruct e as [c oa m a]. cbn [s_opt s_optarg].
  each_char c; try reflexivity; destruct (input_specified l) eqn:E;
    cbn; rewrite ?E; cbn; rewrite ?E; reflexivity.
Qed.

Lemma effect_input_specified l e :
  input_specified (effect atof l e) = (input_specified l || is_source (s_opt e))%bool.
Proof.
  unfold effect. destruct e as [c oa m a]. cbn [s_opt s_optarg].
  each_char c; try (cbn; rewrite orb_false_r; reflexivity);
    destruct oa; destruct (input_specified l) eqn:E;
    cbn; rewrite ?E; cbn; rewrite ?E; reflexivity.
Qed.

Lemma print_messages ms :
  fold_right (fun m k => fprintf_stderr m;; k) (ret tt) ms = (map Stderr ms, Returned tt).
Proof.
  induction ms as [|m ms IH]; [reflexivity|].
  cbn [fold_right map]. rewrite IH. reflexivity.
Qed.

Lemma getopt_run_total fuel d :
  (weight d < fuel)%nat ->
  exists es fin, getopt_run ord argv0 fuel d = (es, Some fin) /\ nextchar fin = "".
Proof.
  revert d. induction fuel as [|fuel IH]; intros d H; [lia|].
  cbn [getopt_run].
  destruct (opt_char (getopt ord argv0 optstring d)) as [c|] eqn:E.
  - destruct (getopt_option ord argv0 d c E) as [Hw _].
    destruct (IH (after (getopt ord argv0 optstring d))) as (es & fin & -> & Hn); [lia|].
    eauto.
  - destruct (getopt_end ord argv0 d E) as [_ Hn]. eauto.
Qed.

(** The loop does what [walk] says. *)
Lemma loop_walk fuel :
  forall l d es fin,
    getopt_run ord argv0 fuel d = (es, Some fin) ->
    option_loop atof ord argv0 fuel l d
    = loop_outcome atof l fin (walk (input_specified l) es).
Proof.
  induction fuel as [|fuel IH]; intros l d es fin H; [discriminate|].
  cbn [getopt_run] in H. cbn [option_loop].
  destruct (opt_char (getopt ord argv0 optstring d)) as [c|] eqn:E.
  - destruct (getopt_run ord argv0 fuel (after (getopt ord argv0 optstring d)))
      as [es' fin'] eqn:Er.
    inversion H. subst es fin'. clear H.
    rewrite print_messages.
    set (e := {| s_opt := c; s_optarg := optarg (getopt ord argv0 optstring d);
                 s_message := message (getopt ord argv0 optstring d);
                 s_after := after (getopt ord argv0 optstring d) |}).
    change (optarg (getopt ord argv0 optstring d)) with (s_optarg e).
    change c with (s_opt e) at 1.
    rewrite switch_body_walk. cbn [walk].
    destruct (is_help (s_opt e)) eqn:Eh.
    + cbn. rewrite ?app_nil_r. reflexivity.
    + assert (Hm : message (getopt ord argv0 optstring d) = []).
      { destruct (getopt_option ord argv0 d c E) as [_ [->|[_ Hm]]];
          [discriminate Eh|exact Hm]. }
      rewrite Hm.
      destruct (is_checked_source (s_opt e) && input_specified l)%bool; [reflexivity|].
      destruct (has_case (s_opt e)); [|reflexivity].
      cbn [map bind]. rewrite (IH _ _ _ _ Er). rewrite effect_input_specified.
      destruct (walk (input_specified l || is_source (s_opt e)) es') as [p [|b|b|b]];
        reflexivity.
  - inversion H. subst es fin. clear H.
    destruct (getopt_end ord argv0 d E) as [-> _]. reflexivity.
Qed.

End Loop.

(** ** [main] by verdict *)

Section Main.
Variable atof : string -> double.
Variables (ord : ordering) (argv0 : string) (args : list string).

Lemma optind_left_over argc d : negb (optind argc d =? argc) = left_over d.
Proof.
  unfold optind, left_over. destruct (nextchar d) as [|c nc], (rest d) as [|a r];
    cbn [length].
  - rewrite !Z.sub_0_r, Z.eqb_refl. reflexivity.
  - destruct (Z.eqb_spec (argc - Z.of_nat (S (length r)) - 0) argc); [lia|reflexivity].
  - destruct (Z.eqb_spec (argc - Z.of_nat 0 - 1) argc); [lia|reflexivity].
  - destruct (Z.eqb_spec (argc - Z.of_nat (S (length r)) - 1) argc); [lia|reflexivity].
Qed.

Lemma scan_total :
  exists es fin, scan ord argv0 args = (es, Some fin) /\ nextchar fin = "".
Proof. apply getopt_run_total. lia. Qed.

Theorem parse_judge :
  parse_options atof ord argv0 args = parse_verdict (judge atof ord argv0 args).
Proof.
  destruct scan_total as (es & fin & Hs & Hn).
  unfold parse_options, judge. rewrite Hs.
  unfold scan in Hs. rewrite (loop_walk atof ord argv0 _ _ _ _ _ Hs).
  cbn [initial_locals input_specified].
  destruct (walk false es) as [p [|e|e|e]]; cbn [loop_outcome].
  - cbn -[help_text optind]. rewrite optind_left_over.
    unfold after_loop. destruct (left_over fin); [reflexivity|].
    destruct (input_specified (fold_left (effect atof) p initial_locals)) eqn:E;
      cbn -[help_text]; rewrite ?E; reflexivity.
  - cbn -[help_text optind]. rewrite optind_left_over.
    unfold after_loop. destruct (left_over (s_after e)); [reflexivity|].
    destruct (input_specified (fold_left (effect atof) p initial_locals)) eqn:E;
      cbn -[help_text]; rewrite ?E; reflexivity.
  - cbn -[help_text]. rewrite ?app_nil_r. reflexivity.
  - reflexivity.
Qed.

(** The whole run, by verdict. *)
Theorem main_judge env :
  main atof ord env argv0 args
  = match judge atof ord argv0 args with
    | Accepted l =>
        (Stdout start_text :: fst (series_and_run env (params l)),
         snd (series_and_run env (params l)))
    | HelpExit e =>
        (Stdout start_text :: (map Stderr (s_message e) ++ [Stderr help_text])%list,
         Returned (-1))
    | ConflictExit => ([Stdout start_text; Stderr conflict_message], Exited EXIT_FAILURE)
    | LeftOver =>
        ([Stdout start_text; Stderr help_text; Stderr unexpected_message],
         Exited EXIT_FAILURE)
    | NoInput => ([Stdout start_text; Stderr no_input_message], Exited EXIT_FAILURE)
    end.
Proof.
  unfold main. rewrite parse_judge.
  destruct (judge atof ord argv0 args) as [l|e| | |]; cbn -[series_and_run help_text];
    rewrite ?app_nil_r; try reflexivity.
  destruct (series_and_run env (params l)); reflexivity.
Qed.

End Main.

(** ** The series files, opened or not *)

Lemma series_and_run_unopened env p text :
  first_unopened env p = Some text ->
  series_and_run env p
  = ((opens env p ++ [Stderr ("[Error] " ++ text ++ NL)])%list, Exited EXIT_FAILURE).
Proof.
  unfold first_unopened, opens, opened, series_and_run, ifstream_open.
  destruct (open_file env (q_file_name p)), (open_file env (t_file_name p)),
    (open_file env (s_file_name p)), (open_file env (e_file_name p));
    cbn -[count_loop fill_loop rounds clear_seekg new_array];
    intros H; inversion H; reflexivity.
Qed.

Lemma series_and_run_opened env p :
  first_unopened env p = None ->
  exists vq wq vt wt vs ws ve we,
    series_read env p vq wq vt wt vs ws ve we
    /\ series_and_run env p = loaded_run env p vq wq vt wt vs ws ve we.
Proof.
  unfold first_unopened, opened.
  destruct (open_file env (q_file_name p)) as [fq|] eqn:Eq; [|discriminate].
  destruct (open_file env (t_file_name p)) as [ft|] eqn:Et; [|discriminate].
  destruct (open_file env (s_file_name p)) as [fs|] eqn:Es; [|discriminate].
  destruct (open_file env (e_file_name p)) as [fe|] eqn:Ee; [|discriminate].
  intros _.
  destruct (reads_total get_float float_rejects_nothing (bytes fq)) as [vq Rq].
  destruct (reads_total get_int int_rejects_nothing (bytes ft)) as [vt Rt].
  destruct (reads_total get_int int_rejects_nothing (bytes fs)) as [vs Rs].
  destruct (reads_total get_int int_rejects_nothing (bytes fe)) as [ve Re].
  destruct (rereads_total get_float fq float_rejects_nothing) as [wq Wq].
  destruct (rereads_total get_int ft int_rejects_nothing) as [wt Wt].
  destruct (rereads_total get_int fs int_rejects_nothing) as [ws Ws].
  destruct (rereads_total get_int fe int_rejects_nothing) as [we We].
  assert (H : series_read env p vq wq vt wt vs ws ve we).
  { exists fq, ft, fs, fe. repeat split; assumption. }
  exists vq, wq, vt, wt, vs, ws, ve, we. split; [exact H|].
  apply series_and_run_loads. exact H.
Qed.

Lemma series_read_opened env p vq wq vt wt vs ws ve we :
  series_read env p vq wq vt wt vs ws ve we -> first_unopened env p = None.
Proof.
  intros (fq & ft & fs & fe & (Oq & Ot & Os & Oe) & _).
  unfold first_unopened, opened. rewrite Oq, Ot, Os, Oe. reflexivity.
Qed.

Lemma within_same nq nt ns ne : within nq nt ns ne nq nt ns ne = true.
Proof. unfold within. rewrite !Nat.leb_refl. reflexivity. Qed.

Lemma filled_all {T} (vs : list T) : filled (length vs) vs = map Some vs.
Proof. unfold filled. rewrite Nat.sub_diag. apply app_nil_r. Qed.

Lemma steady_series_read env p vq vt vs ve :
  steady_series env p vq vt vs ve -> series_read env p vq vq vt vt vs vs ve ve.
Proof.
  intros (fq & ft & fs & fe & Ho & (Sq & St & Ss & Se) & (Rq & Rt & Rs & Re)).
  exists fq, ft, fs, fe. split; [exact Ho|]. split; [repeat split; assumption|].
  unfold rereads, steady in *. rewrite Sq, St, Ss, Se. repeat split; assumption.
Qed.

(** The run over four regular files that stay as they are: each array
    holds the values of its file. *)
Lemma steady_run env p vq vt vs ve :
  steady_series env p vq vt vs ve ->
  fits env (length vq) (length vt) (length vs) (length ve) = true ->
  series_and_run env p
  = (complete_run p (engine_call p (map Some vt) (map Some vq) (map Some vs) (map Some ve)),
     Returned 0).
Proof.
  intros H Hf.
  rewrite (series_and_run_loads _ _ _ _ _ _ _ _ _ _ (steady_series_read _ _ _ _ _ _ H)).
  unfold loaded_run, loads, loaded_call. rewrite Hf, within_same, !filled_all. reflexivity.
Qed.

(** What a second pass reads from a file that stays as it is. *)
Lemma series_read_steady env p vq wq vt wt vs ws ve we uq ut us ue :
  series_read env p vq wq vt wt vs ws ve we -> steady_series env p uq ut us ue ->
  (vq = uq /\ vt = ut /\ vs = us /\ ve = ue) /\ (wq = uq /\ wt = ut /\ ws = us /\ we = ue).
Proof.
  intros (fq & ft & fs & fe & (Oq & Ot & Os & Oe) & (Rq & Rt & Rs & Re)
          & (Wq & Wt & Ws & We))
         (gq & gt & gs & ge & (Pq & Pt & Ps & Pe) & (Sq & St & Ss & Se)
          & (Uq & Ut & Us & Ue)).
  rewrite Oq in Pq. rewrite Ot in Pt. rewrite Os in Ps. rewrite Oe in Pe.
  inversion Pq; inversion Pt; inversion Ps; inversion Pe. subst gq gt gs ge.
  pose proof (reads_unique _ _ _ Uq _ Rq). pose proof (reads_unique _ _ _ Ut _ Rt).
  pose proof (reads_unique _ _ _ Us _ Rs). pose proof (reads_unique _ _ _ Ue _ Re).
  subst vq vt vs ve. split; [repeat split|].
  pose proof (rereads_steady _ _ _ _ Sq Uq Wq). pose proof (rereads_steady _ _ _ _ St Ut Wt).
  pose proof (rereads_steady _ _ _ _ Ss Us Ws). pose proof (rereads_steady _ _ _ _ Se Ue We).
  repeat split; assumption.
Qed.



Lemma calls_app a b : calls (a ++ b) = (calls a ++ calls b)%list.
Proof. apply filter_app. Qed.

(** ** Option characters *)

Lemma is_help_has_case c : is_help c = true -> has_case c = true.
Proof. each_char c; intros H; try reflexivity; discriminate H. Qed.

Lemma is_source_has_case c : is_source c = true -> has_case c = true.
Proof. each_char c; intros H; try reflexivity; discriminate H. Qed.

Lemma is_checked_source_is_source c : is_checked_source c = true -> is_source c = true.
Proof. each_char c; intros H; try reflexivity; discriminate H. Qed.

Lemma is_help_spec c : is_help c = true <-> c = "h"%char \/ c = "?"%char.
Proof.
  unfold is_help. rewrite orb_true_iff, !Ascii.eqb_eq. tauto.
Qed.

(** [Z] is the one option of the option string that the [switch] has no
    case for. *)
Lemma known_letter c :
  find_option c optstring <> None -> c <> "Z"%char -> has_case c = true.
Proof.
  each_char c; intros H1 H2;
    first [reflexivity | exfalso; apply H1; reflexivity | exfalso; apply H2; reflexivity].
Qed.

Lemma has_help_spec ls : has_help ls = true <-> In "h"%char ls \/ In "?"%char ls.
Proof.
  unfold has_help. rewrite existsb_exists. split.
  - intros (c & Hin & Hc). apply is_help_spec in Hc. destruct Hc; subst; auto.
  - intros [H|H]; eexists; (split; [exact H|reflexivity]).
Qed.

(** ** The options [getopt] finds *)

Section Scan.
Variables (ord : ordering) (argv0 : string).

Lemma letters_known fuel :
  forall d es fin,
    getopt_run ord argv0 fuel d = (es, fin) ->
    forall e, In e es ->
      s_opt e = "?"%char \/ find_option (s_opt e) optstring <> None.
Proof.
  induction fuel as [|fuel IH]; intros d es fin H e Hin; cbn [getopt_run] in H.
  - inversion H. subst. destruct Hin.
  - destruct (opt_char (getopt ord argv0 optstring d)) as [c|] eqn:E.
    + destruct (getopt_run ord argv0 fuel (after (getopt ord argv0 optstring d)))
        as [es' fin'] eqn:Er.
      inversion H. subst. destruct Hin as [<-|Hin].
      * cbn [s_opt]. destruct (getopt_option ord argv0 d c E) as [_ [Hc|[Hc _]]]; auto.
      * eapply IH; eassumption.
    + inversion H. subst. destruct Hin.
Qed.

(** An option after which nothing is left is the last one. *)
Lemma getopt_run_last fuel :
  forall d es fin,
    getopt_run ord argv0 fuel d = (es, fin) ->
    forall p e q, es = (p ++ e :: q)%list -> left_over (s_after e) = false -> q = [].
Proof.
  induction fuel as [|fuel IH]; intros d es fin H p e q Hes Hl; subst es;
    cbn [getopt_run] in H.
  - destruct p; discriminate.
  - destruct (opt_char (getopt ord argv0 optstring d)) as [c|] eqn:E.
    + destruct (getopt_run ord argv0 fuel (after (getopt ord argv0 optstring d)))
        as [es' fin'] eqn:Er.
      destruct p as [|e0 p]; cbn [app] in H; inversion H; subst; clear H.
      * cbn [s_after] in Hl. unfold left_over in Hl.
        destruct (nextchar (after (getopt ord argv0 optstring d))) eqn:En;
          [|discriminate].
        destruct (rest (after (getopt ord argv0 optstring d))) eqn:Erest;
          [|discriminate].
        destruct fuel as [|fuel]; cbn [getopt_run] in Er.
        -- inversion Er. reflexivity.
        -- rewrite (getopt_nothing_left ord argv0 _ En Erest) in Er.
           inversion Er. reflexivity.
      * eapply IH; [exact Er|reflexivity|exact Hl].
    + destruct p; discriminate.
Qed.

End Scan.

(** ** What [walk] tells about the options *)

Lemma conflict_after_true ls : conflict_after true ls = existsb is_checked_source ls.
Proof.
  induction ls as [|c ls IH]; [reflexivity|]. cbn [conflict_after existsb].
  destruct (is_checked_source c); [reflexivity|].
  rewrite IH. destruct (is_source c); reflexivity.
Qed.

Lemma conflict_after_app seen a b :
  conflict_after seen (a ++ b)
  = (conflict_after seen a || conflict_after (seen || existsb is_source a) b)%bool.
Proof.
  revert seen. induction a as [|c a IH]; intros seen; cbn [app conflict_after existsb].
  - rewrite orb_false_r. reflexivity.
  - destruct (is_checked_source c) eqn:Ec.
    + rewrite (is_checked_source_is_source c Ec). rewrite IH. cbn [orb].
      rewrite orb_true_r. cbn [orb]. rewrite orb_assoc. reflexivity.
    + destruct (is_source c); rewrite IH; cbn [orb]; rewrite ?orb_true_r, ?orb_false_r;
        reflexivity.
Qed.

Lemma walk_spec es :
  forall seen p s,
    walk seen es = (p, s) ->
    let ls := map s_opt es in
    match s with
    | AtEnd =>
        p = es /\ has_help ls = false /\ conflict_after seen ls = false
        /\ forallb has_case ls = true
    | AtBreak e =>
        (exists q, es = (p ++ e :: q)%list) /\ has_case (s_opt e) = false
        /\ has_help (map s_opt p) = false
        /\ conflict_after seen (map s_opt p) = false
    | AtHelp e => (exists q, es = (p ++ e :: q)%list) /\ is_help (s_opt e) = true
    | AtConflict e =>
        (exists q, es = (p ++ e :: q)%list) /\ conflict_after seen ls = true
    end.
Proof.
  induction es as [|e es IH]; intros seen p s H; cbn [walk] in H.
  - inversion H. subst. repeat split.
  - destruct (is_help (s_opt e)) eqn:Eh.
    { inversion H. subst. split; [exists es; reflexivity|assumption]. }
    destruct (is_checked_source (s_opt e)) eqn:Ec.
    + destruct seen; cbn [andb] in H.
      * inversion H. subst. split; [exists es; reflexivity|].
        cbn [map conflict_after]. rewrite Ec. reflexivity.
      * rewrite (is_source_has_case _ (is_checked_source_is_source _ Ec)) in H.
        rewrite (is_checked_source_is_source _ Ec) in H. cbn [orb] in H.
        destruct (walk true es) as [p' s'] eqn:Ew. inversion H. subst.
        specialize (IH _ _ _ Ew). cbn zeta in IH.
        cbn [map conflict_after has_help existsb forallb]. rewrite Ec, Eh.
        rewrite (is_source_has_case _ (is_checked_source_is_source _ Ec)).
        cbn [orb andb]. fold (has_help (map s_opt es)).
        destruct s as [|b|b|b].
        -- destruct IH as (-> & ? & ? & ?). repeat split; assumption.
        -- destruct IH as ((q & ->) & ? & ? & ?).
           split; [exists q; reflexivity|]. repeat split; assumption.
        -- destruct IH as ((q & ->) & ?). split; [exists q; reflexivity|assumption].
        -- destruct IH as ((q & ->) & ?). split; [exists q; reflexivity|assumption].
    + cbn [andb] in H. destruct (has_case (s_opt e)) eqn:Ek.
      * destruct (walk (seen || is_source (s_opt e)) es) as [p' s'] eqn:Ew.
        inversion H. subst. specialize (IH _ _ _ Ew). cbn zeta in IH.
        cbn [map conflict_after has_help existsb forallb]. rewrite Ec, Eh, Ek.
        cbn [orb andb]. fold (has_help (map s_opt es)).
        assert (Hc : forall l, (if is_source (s_opt e) then conflict_after true l
                                else conflict_after seen l)
                               = conflict_after (seen || is_source (s_opt e)) l).
        { intros l. destruct (is_source (s_opt e)); rewrite ?orb_true_r, ?orb_false_r;
            reflexivity. }
        rewrite !Hc.
        destruct s as [|b|b|b].
        -- destruct IH as (-> & ? & ? & ?). repeat split; assumption.
        -- destruct IH as ((q & ->) & ? & ? & ?).
           split; [exists q; reflexivity|]. repeat split; assumption.
        -- destruct IH as ((q & ->) & ?). split; [exists q; reflexivity|assumption].
        -- destruct IH as ((q & ->) & ?). split; [exists q; reflexivity|assumption].
      * inversion H. subst. split; [exists es; reflexivity|]. repeat split. assumption.
Qed.

(** Where the loop stops first: at a refused input source when there is
    one in front of the first option that brings the help text. *)
Lemma walk_stop es :
  forall seen p s,
    walk seen es = (p, s) ->
    match s with
    | AtConflict _ => conflict_after seen (before_help (map s_opt es)) = true
    | AtHelp _ => conflict_after seen (before_help (map s_opt es)) = false
    | _ => True
    end.
Proof.
  induction es as [|e es IH]; intros seen p s H; cbn [walk] in H.
  - inversion H. subst. exact I.
  - cbn [map before_help]. destruct (is_help (s_opt e)) eqn:Eh.
    { inversion H. subst. reflexivity. }
    cbn [conflict_after].
    destruct (is_checked_source (s_opt e)) eqn:Ec.
    + destruct seen; cbn [andb] in H.
      * inversion H. subst. reflexivity.
      * rewrite (is_source_has_case _ (is_checked_source_is_source _ Ec)) in H.
        rewrite (is_checked_source_is_source _ Ec) in H. cbn [orb] in H.
        destruct (walk true es) as [p' s'] eqn:Ew. inversion H. subst.
        exact (IH _ _ _ Ew).
    + cbn [andb] in H. destruct (has_case (s_opt e)) eqn:Ek.
      * destruct (walk (seen || is_source (s_opt e)) es) as [p' s'] eqn:Ew.
        inversion H. subst. specialize (IH _ _ _ Ew).
        destruct (is_source (s_opt e)); rewrite ?orb_true_r, ?orb_false_r in IH;
          exact IH.
      * inversion H. subst. exact I.
Qed.

Lemma before_help_all ls : has_help ls = false -> before_help ls = ls.
Proof.
  induction ls as [|c ls IH]; [reflexivity|]. cbn [has_help existsb before_help].
  destruct (is_help c); [discriminate|]. intros H. f_equal. exact (IH H).
Qed.

Lemma source_unchecked c : is_source c = true -> is_checked_source c = false -> c = "B"%char.
Proof. each_char c; intros H1 H2; try reflexivity; discriminate. Qed.

Lemma checked_not_B c : is_checked_source c = true -> c <> "B"%char.
Proof. intros H ->. discriminate H. Qed.

Lemma no_second_source seen ls :
  second_source seen ls = None -> conflict_after seen ls = false.
Proof.
  revert seen. induction ls as [|c ls IH]; intros seen H; [reflexivity|].
  cbn [second_source] in H. cbn [conflict_after].
  destruct (is_checked_source c) eqn:Ec.
  - rewrite (is_checked_source_is_source _ Ec) in H.
    destruct seen; [discriminate|]. exact (IH _ H).
  - destruct (is_source c); [|exact (IH _ H)].
    destruct seen; [discriminate|]. exact (IH _ H).
Qed.

Lemma checked_second_source seen ls c :
  second_source seen ls = Some c -> is_checked_source c = true ->
  conflict_after seen ls = true.
Proof.
  revert seen. induction ls as [|x ls IH]; intros seen H Hc; [discriminate|].
  cbn [second_source] in H. cbn [conflict_after].
  destruct (is_checked_source x) eqn:Ex.
  - rewrite (is_checked_source_is_source _ Ex) in H.
    destruct seen; [reflexivity|]. exact (IH _ H Hc).
  - destruct (is_source x) eqn:Es; [|exact (IH _ H Hc)].
    destruct seen; [|exact (IH _ H Hc)].
    inversion H. subst x. congruence.
Qed.

(** Where no [-B] comes second among the input sources, the two checks on
    the input source come to this: exactly one is given. *)
Lemma one_source seen ls :
  second_source seen ls <> Some "B"%char ->
  conflict_after seen ls
  = (2 <=? (if seen then 1 else 0) + count_sources ls)%nat.
Proof.
  unfold count_sources.
  revert seen. induction ls as [|c ls IH]; intros seen H.
  - destruct seen; reflexivity.
  - cbn [second_source] in H. cbn [conflict_after filter].
    destruct (is_checked_source c) eqn:Ec.
    + rewrite (is_checked_source_is_source _ Ec) in *. cbn [length].
      destruct seen.
      * reflexivity.
      * exact (IH true H).
    + destruct (is_source c) eqn:Es.
      * pose proof (source_unchecked c Es Ec) as ->. cbn [length].
        destruct seen; [exfalso; apply H; reflexivity|].
        exact (IH true H).
      * exact (IH seen H).
Qed.

Lemma has_source_count ls : has_source ls = negb (count_sources ls =? 0)%nat.
Proof.
  unfold has_source, count_sources. induction ls as [|c ls IH]; [reflexivity|].
  cbn [existsb filter]. destruct (is_source c); [reflexivity|exact IH].
Qed.

(** ** The configuration after the options *)

Section Configuration.
Variable atof : string -> double.

Ltac by_cases e l :=
  unfold effect; destruct e as [c oa m a]; cbn [s_opt s_optarg];
  each_char c; destruct oa; destruct (input_specified l) eqn:E;
  cbn; rewrite ?E; cbn; rewrite ?E.

Lemma effect_no_case l e : has_case (s_opt e) = false -> effect atof l e = l.
Proof.
  unfold effect; destruct e as [c oa m a]; cbn [s_opt s_optarg].
  each_char c; intros H; try discriminate H; reflexivity.
Qed.

Lemma effect_multi_stream l e :
  multi_stream (params (effect atof l e)) = multi_stream (params l).
Proof. by_cases e l; reflexivity. Qed.

Lemma effect_frame_count l e :
  frame_count (params (effect atof l e))
  = if Ascii.eqb (s_opt e) "N" then atoi (str (s_optarg e)) else frame_count (params l).
Proof. by_cases e l; reflexivity. Qed.

Lemma effect_q_tolerance l e :
  q_tolerance (params (effect atof l e))
  = if Ascii.eqb (s_opt e) "t" then tolerance (atoi (str (s_optarg e)))
    else q_tolerance (params l).
Proof. by_cases e l; reflexivity. Qed.

Lemma effect_webcam l e :
  (is_checked_source (s_opt e) && input_specified l)%bool = false ->
  use_webcam (params (effect atof l e))
  = (use_webcam (params l) || Ascii.eqb (s_opt e) "W")%bool
  /\ webcam_idx (params (effect atof l e))
     = match s_optarg e with
       | Some a => if Ascii.eqb (s_opt e) "W" then atoi a else webcam_idx (params l)
       | None => webcam_idx (params l)
       end.
Proof.
  by_cases e l; intros H; try discriminate H; rewrite ?orb_false_r, ?orb_true_r;
    split; reflexivity.
Qed.

Lemma fold_input_specified es :
  forall l,
    input_specified (fold_left (effect atof) es l)
    = (input_specified l || has_source (map s_opt es))%bool.
Proof.
  induction es as [|e es IH]; intros l; cbn [fold_left map has_source existsb].
  - rewrite orb_false_r. reflexivity.
  - rewrite IH, effect_input_specified, orb_assoc. reflexivity.
Qed.

Lemma fold_multi_stream es :
  forall l,
    multi_stream (params (fold_left (effect atof) es l)) = multi_stream (params l).
Proof.
  induction es as [|e es IH]; intros l; cbn [fold_left]; [reflexivity|].
  rewrite IH. apply effect_multi_stream.
Qed.

Lemma last_optarg_snoc c es e :
  last_optarg c (es ++ [e])
  = if Ascii.eqb (s_opt e) c then Some (s_optarg e) else last_optarg c es.
Proof. unfold last_optarg. rewrite fold_left_app. reflexivity. Qed.

Lemma fold_frame_count es l :
  frame_count (params (fold_left (effect atof) es l))
  = match last_optarg "N" es with
    | Some oa => atoi (str oa)
    | None => frame_count (params l)
    end.
Proof.
  induction es as [|e es IH] using rev_ind; [reflexivity|].
  rewrite fold_left_app, last_optarg_snoc. cbn [fold_left].
  rewrite effect_frame_count. destruct (Ascii.eqb (s_opt e) "N"); [reflexivity|exact IH].
Qed.

Lemma fold_q_tolerance es l :
  q_tolerance (params (fold_left (effect atof) es l))
  = match last_optarg "t" es with
    | Some oa => tolerance (atoi (str oa))
    | None => q_tolerance (params l)
    end.
Proof.
  induction es as [|e es IH] using rev_ind; [reflexivity|].
  rewrite fold_left_app, last_optarg_snoc. cbn [fold_left].
  rewrite effect_q_tolerance. destruct (Ascii.eqb (s_opt e) "t"); [reflexivity|exact IH].
Qed.

Lemma last_optarg_none c es :
  ~ In c (map s_opt es) -> last_optarg c es = None.
Proof.
  induction es as [|e es IH] using rev_ind; intros H; [reflexivity|].
  rewrite last_optarg_snoc. rewrite map_app, in_app_iff in H. cbn [map In] in H.
  destruct (Ascii.eqb_spec (s_opt e) c) as [Ec|_]; [tauto|]. apply IH. tauto.
Qed.

(** No checked input source among the options: the webcam members stay
    as they are. *)
Lemma fold_webcam_unchanged es :
  forall l,
    existsb is_checked_source (map s_opt es) = false ->
    use_webcam (params (fold_left (effect atof) es l)) = use_webcam (params l)
    /\ webcam_idx (params (fold_left (effect atof) es l)) = webcam_idx (params l).
Proof.
  induction es as [|e es IH]; intros l H; cbn [fold_left]; [split; reflexivity|].
  cbn [map existsb] in H. apply orb_false_elim in H. destruct H as [Hc Hr].
  destruct (IH (effect atof l e) Hr) as [-> ->].
  destruct (effect_webcam l e) as [-> ->]; [rewrite Hc; reflexivity|].
  assert (Hw : Ascii.eqb (s_opt e) "W" = false).
  { unfold is_checked_source in Hc. apply orb_false_elim in Hc. tauto. }
  rewrite Hw, orb_false_r. destruct (s_optarg e); split; reflexivity.
Qed.

(** Where no input source is refused, [-W] sets the webcam flag, and the
    index when it comes with one. *)
Lemma fold_webcam es :
  forall l,
    conflict_after (input_specified l) (map s_opt es) = false ->
    forall e, In e es -> s_opt e = "W"%char ->
      use_webcam (params (fold_left (effect atof) es l)) = true
      /\ webcam_idx (params (fold_left (effect atof) es l))
         = match s_optarg e with
           | Some a => atoi a
           | None => webcam_idx (params l)
           end.
Proof.
  induction es as [|e1 es IH]; intros l H e Hin HW; [destruct Hin|].
  cbn [map conflict_after] in H. cbn [fold_left].
  destruct Hin as [->|Hin].
  - rewrite HW in H. cbn [is_checked_source Ascii.eqb] in H.
    change (is_checked_source "W") with true in H. cbv iota in H.
    apply orb_false_elim in H. destruct H as [Hs Hc].
    rewrite conflict_after_true in Hc.
    destruct (fold_webcam_unchanged es (effect atof l e) Hc) as [-> ->].
    destruct (effect_webcam l e) as [-> ->];
      [rewrite HW, Hs; reflexivity|].
    rewrite HW. cbn [Ascii.eqb]. rewrite orb_true_r.
    split; [reflexivity|]. destruct (s_optarg e); reflexivity.
  - assert (Hc : conflict_after (input_specified (effect atof l e1)) (map s_opt es) = false
                 /\ (is_checked_source (s_opt e1) = true ->
                     existsb is_checked_source (map s_opt es) = false)
                 /\ (is_checked_source (s_opt e1) && input_specified l)%bool = false).
    { rewrite effect_input_specified.
      destruct (is_checked_source (s_opt e1)) eqn:Ec.
      - apply orb_false_elim in H. destruct H as [Hs Hc].
        rewrite (is_checked_source_is_source _ Ec), orb_true_r, Hs.
        rewrite <- conflict_after_true. repeat split; auto.
      - destruct (is_source (s_opt e1)); rewrite ?orb_true_r, ?orb_false_r;
          repeat split; auto; discriminate. }
    destruct Hc as (Hc1 & Hc2 & Hc3).
    destruct (IH (effect atof l e1) Hc1 e Hin HW) as [-> ->].
    split; [reflexivity|]. destruct (s_optarg e); [reflexivity|].
    destruct (effect_webcam l e1 Hc3) as [_ ->].
    destruct (s_optarg e1); [|reflexivity].
    destruct (Ascii.eqb_spec (s_opt e1) "W") as [E1|_]; [|reflexivity].
    exfalso. assert (Hx : existsb is_checked_source (map s_opt es) = false).
    { apply Hc2. rewrite E1. reflexivity. }
    assert (Hy : existsb is_checked_source (map s_opt es) = true).
    { apply existsb_exists. exists (s_opt e). split; [apply in_map; assumption|].
      rewrite HW. reflexivity. }
    congruence.
Qed.

End Configuration.

(** ** The verdict and the options *)

Section Verdicts.
Variable atof : string -> double.
Variables (ord : ordering) (argv0 : string) (args : list string).

Lemma no_break_without_Z :
  ~ In "Z"%char (letters ord argv0 args) ->
  forall e, In e (fst (scan ord argv0 args)) -> has_case (s_opt e) = true.
Proof.
  intros HZ e Hin.
  destruct (scan ord argv0 args) as [es fin] eqn:Hs. cbn [fst] in Hin.
  destruct (letters_known ord argv0 _ _ _ _ Hs e Hin) as [H|H].
  - apply is_help_has_case. rewrite H. reflexivity.
  - apply known_letter; [assumption|]. intros Hc. apply HZ.
    unfold letters. rewrite Hs. cbn [fst]. rewrite <- Hc. apply in_map. assumption.
Qed.

Lemma left_over_rest d : nextchar d = "" -> (left_over d = false <-> rest d = []).
Proof.
  unfold left_over. intros ->. destruct (rest d); split; intros H; congruence.
Qed.

(** What each verdict tells about the options found in the argument
    vector. *)
Lemma judge_cases :
  let es := fst (scan ord argv0 args) in
  let ls := letters ord argv0 args in
  match judge atof ord argv0 args with
  | Accepted l =>
      l = fold_left (effect atof) es initial_locals
      /\ has_help ls = false /\ conflict ls = false /\ has_source ls = true
      /\ (~ In "Z"%char ls -> operands ord argv0 args = [])
  | NoInput =>
      has_help ls = false /\ conflict ls = false /\ has_source ls = false
      /\ (~ In "Z"%char ls -> operands ord argv0 args = [])
  | LeftOver =>
      ~ In "Z"%char ls ->
      operands ord argv0 args <> [] /\ has_help ls = false /\ conflict ls = false
  | HelpExit e => In e es /\ is_help (s_opt e) = true
  | ConflictExit => conflict ls = true
  end.
Proof.
  pose proof no_break_without_Z as HZ.
  destruct (scan_total ord argv0 args) as (es & fin & Hs & Hn).
  unfold judge, letters, operands in *. rewrite Hs in *. cbn [fst snd] in *.
  destruct (walk false es) as [p s] eqn:Hw.
  pose proof (walk_spec es _ _ _ Hw) as Hspec. cbn zeta in Hspec.
  destruct s as [|e|e|e].
  - destruct Hspec as (-> & Hh & Hc & _). unfold after_loop.
    destruct (left_over fin) eqn:El.
    + intros _. repeat split; try assumption.
      intros Hr. apply (left_over_rest _ Hn) in Hr. congruence.
    + apply (left_over_rest _ Hn) in El.
      rewrite fold_input_specified. cbn [initial_locals input_specified orb].
      destruct (has_source (map s_opt es)) eqn:Es; repeat split; auto.
  - destruct Hspec as ((q & Hes) & Hk & Hh & Hc). unfold after_loop.
    destruct (left_over (s_after e)) eqn:El.
    + intros Hz. exfalso.
      rewrite (HZ Hz e) in Hk; [discriminate|]. rewrite Hes. apply in_elt.
    + assert (Hq : q = []).
      { unfold scan in Hs. eapply getopt_run_last; eassumption. }
      subst q.
      assert (Hnh : is_help (s_opt e) = false).
      { destruct (is_help (s_opt e)) eqn:E; [|reflexivity].
        rewrite (is_help_has_case _ E) in Hk. discriminate. }
      assert (Hns : is_source (s_opt e) = false).
      { destruct (is_source (s_opt e)) eqn:E; [|reflexivity].
        rewrite (is_source_has_case _ E) in Hk. discriminate. }
      assert (Hnc : is_checked_source (s_opt e) = false).
      { destruct (is_checked_source (s_opt e)) eqn:E; [|reflexivity].
        rewrite (is_checked_source_is_source _ E) in Hns. discriminate. }
      assert (F1 : has_help (map s_opt es) = false).
      { rewrite Hes, map_app. unfold has_help in *. rewrite existsb_app, Hh.
        cbn [map existsb]. rewrite Hnh. reflexivity. }
      assert (F2 : conflict (map s_opt es) = false).
      { rewrite Hes, map_app. unfold conflict. rewrite conflict_after_app, Hc.
        cbn [map conflict_after]. rewrite Hnc, Hns. reflexivity. }
      assert (F3 : has_source (map s_opt es) = has_source (map s_opt p)).
      { rewrite Hes, map_app. unfold has_source. rewrite existsb_app.
        cbn [map existsb]. rewrite Hns, !orb_false_r. reflexivity. }
      assert (F4 : fold_left (effect atof) es initial_locals
                   = fold_left (effect atof) p initial_locals).
      { rewrite Hes, fold_left_app. cbn [fold_left]. apply effect_no_case. assumption. }
      assert (F5 : ~ In "Z"%char (map s_opt es) -> rest fin = []).
      { intros Hz. exfalso.
        rewrite (HZ Hz e) in Hk; [discriminate|]. rewrite Hes. apply in_elt. }
      rewrite fold_input_specified. cbn [initial_locals input_specified orb].
      rewrite <- F3.
      destruct (has_source (map s_opt es)) eqn:Es; repeat split; auto.
  - destruct Hspec as ((q & ->) & Hh). split; [apply in_elt|assumption].
  - destruct Hspec as (_ & Hc). exact Hc.
Qed.

(** Which of the two comes first, the refused input source or the help
    text. *)
Lemma judge_stop :
  let front := before_help (letters ord argv0 args) in
  match judge atof ord argv0 args with
  | ConflictExit => conflict front = true
  | HelpExit _ => conflict front = false
  | _ => True
  end.
Proof.
  destruct (scan_total ord argv0 args) as (es & fin & Hs & Hn).
  unfold judge, letters, conflict. rewrite Hs. cbn [fst].
  destruct (walk false es) as [p s] eqn:Hw.
  pose proof (walk_stop es _ _ _ Hw) as H.
  destruct s as [|e|e|e]; try exact H; unfold after_loop.
  - destruct (left_over fin); [exact I|].
    destruct (input_specified (fold_left (effect atof) p initial_locals)); exact I.
  - destruct (left_over (s_after e)); [exact I|].
    destruct (input_specified (fold_left (effect atof) p initial_locals)); exact I.
Qed.

End Verdicts.

(** ** The run as a whole *)

Lemma in_calls a tr : In (Run a) tr <-> In (Run a) (calls tr).
Proof.
  unfold calls. rewrite filter_In. split; [intros H; split; [exact H|reflexivity]|tauto].
Qed.

Lemma calls_stderr ms : calls (map Stderr ms) = [].
Proof. induction ms; [reflexivity|assumption]. Qed.

Lemma opens_untouched_calls env p tail :
  calls tail = [] -> calls (opens env p ++ tail) = [].
Proof. intros H. rewrite calls_app, H. reflexivity. Qed.

Section Run.
Variable atof : string -> double.
Variables (ord : ordering) (env : environment) (argv0 : string) (args : list string).

Lemma judge_accepted_parsed l :
  judge atof ord argv0 args = Accepted l ->
  params l = parsed atof ord argv0 args
  /\ has_help (letters ord argv0 args) = false
  /\ conflict (letters ord argv0 args) = false
  /\ has_source (letters ord argv0 args) = true
  /\ (~ In "Z"%char (letters ord argv0 args) -> operands ord argv0 args = []).
Proof.
  intros Hj. pose proof (judge_cases atof ord argv0 args) as H. cbn zeta in H.
  rewrite Hj in H. destruct H as (-> & H). split; [reflexivity|exact H].
Qed.

(** A run of [main] goes one of three ways.  The engine is called, once,
    after the two passes over the four files, and [main] returns 0.  Or the
    four files are opened and the behaviour is undefined from there on: the
    arrays cannot be counted or have no room, or the second pass finds more
    values than the first.  Or the engine is not called and the process ends
    with a status other than 0, the last thing written being a diagnostic
    on [stderr]. *)
Lemma main_cases :
  let m := main atof ord env argv0 args in
  (exists l vq wq vt wt vs ws ve we,
      judge atof ord argv0 args = Accepted l
      /\ series_read env (params l) vq wq vt wt vs ws ve we
      /\ loads env vq wq vt wt vs ws ve we = true
      /\ m = (Stdout start_text
                :: complete_run (params l) (loaded_call (params l) vq wq vt wt vs ws ve we),
              Returned 0))
  \/ (exists l vq wq vt wt vs ws ve we,
         judge atof ord argv0 args = Accepted l
         /\ series_read env (params l) vq wq vt wt vs ws ve we
         /\ loads env vq wq vt wt vs ws ve we = false
         /\ m = (Stdout start_text :: all_opened (params l), Undefined))
  \/ (calls (fst m) = []
      /\ (snd m = Returned (-1) \/ snd m = Exited EXIT_FAILURE)
      /\ (exists text, last (fst m) (Stdout "") = Stderr text)
      /\ match judge atof ord argv0 args with
         | Accepted l =>
             exists text,
               first_unopened env (params l) = Some text
               /\ m = (Stdout start_text
                         :: (opens env (params l) ++ [Stderr ("[Error] " ++ text ++ NL)])%list,
                       Exited EXIT_FAILURE)
         | v => m = (fst (parse_verdict v),
                     match snd (parse_verdict v) with
                     | Returned (inr z) => Returned z
                     | Exited s => Exited s
                     | _ => Undefined
                     end)
                /\ forall e, In e (fst m) -> is_open_event e = false
         end).
Proof.
  cbn zeta. rewrite main_judge.
  destruct (judge atof ord argv0 args) as [l|e| | |] eqn:Hj.
  - destruct (first_unopened env (params l)) as [text|] eqn:E.
    + right. right. rewrite (series_and_run_unopened _ _ _ E). cbn [fst snd].
      split; [|split; [right; reflexivity|split]].
      * change (calls (opens env (params l) ++ [Stderr ("[Error] " ++ text ++ NL)]) = []).
        apply opens_untouched_calls. reflexivity.
      * eexists. unfold opens. reflexivity.
      * exists text. split; reflexivity.
    + destruct (series_and_run_opened _ _ E)
        as (vq & wq & vt & wt & vs & ws & ve & we & Hr & ->).
      unfold loaded_run.
      destruct (loads env vq wq vt wt vs ws ve we) eqn:El; [left|right; left];
        exists l, vq, wq, vt, wt, vs, ws, ve, we; repeat split; assumption.
  - right. right. cbn [fst snd parse_verdict].
    split; [|split; [left; reflexivity|split; [|split; [reflexivity|]]]].
    + change (calls (map Stderr (s_message e) ++ [Stderr help_text]) = []).
      rewrite calls_app, calls_stderr. reflexivity.
    + exists help_text.
      change (Stdout start_text :: (map Stderr (s_message e) ++ [Stderr help_text])%list)
        with ((Stdout start_text :: map Stderr (s_message e)) ++ [Stderr help_text])%list.
      apply last_last.
    + intros x [<-|Hx]; [reflexivity|]. apply in_app_iff in Hx.
      destruct Hx as [Hx|[<-|[]]]; [|reflexivity].
      apply in_map_iff in Hx. destruct Hx as (t & <- & _). reflexivity.
  - right. right. cbn [fst snd parse_verdict].
    split; [reflexivity|]. split; [right; reflexivity|]. split; [eexists; reflexivity|].
    split; [reflexivity|]. intros x Hx. cbn [In] in Hx.
    repeat (destruct Hx as [<-|Hx]; [reflexivity|]). destruct Hx.
  - right. right. cbn [fst snd parse_verdict].
    split; [reflexivity|]. split; [right; reflexivity|]. split; [eexists; reflexivity|].
    split; [reflexivity|]. intros x Hx. cbn [In] in Hx.
    repeat (destruct Hx as [<-|Hx]; [reflexivity|]). destruct Hx.
  - right. right. cbn [fst snd parse_verdict].
    split; [reflexivity|]. split; [right; reflexivity|]. split; [eexists; reflexivity|].
    split; [reflexivity|]. intros x Hx. cbn [In] in Hx.
    repeat (destruct Hx as [<-|Hx]; [reflexivity|]). destruct Hx.
Qed.

End Run.

Lemma parse_accepted atof ord argv0 args tr l :
  parse_options atof ord argv0 args = (tr, Returned (inl l)) ->
  judge atof ord argv0 args = Accepted l.
Proof.
  rewrite parse_judge.
  destruct (judge atof ord argv0 args) as [l0|e| | |]; intros H; try discriminate H.
  inversion H. reflexivity.
Qed.

(** ** The first call of [getopt] and the calls after it *)

Section Fuel.
Variables (ord : ordering) (argv0 : string).

(** The fuel does not matter once there is enough of it. *)
Lemma getopt_run_fuel fuel :
  forall fuel' d,
    (weight d < fuel)%nat -> (weight d < fuel')%nat ->
    getopt_run ord argv0 fuel d = getopt_run ord argv0 fuel' d.
Proof.
  induction fuel as [|fuel IH]; intros fuel' d H H'; [lia|].
  destruct fuel' as [|fuel']; [lia|]. cbn [getopt_run].
  destruct (opt_char (getopt ord argv0 optstring d)) as [c|] eqn:E; [|reflexivity].
  destruct (getopt_option ord argv0 d c E) as [Hw _].
  rewrite (IH fuel' (after (getopt ord argv0 optstring d))) by lia. reflexivity.
Qed.

Lemma scan_step args :
  scan ord argv0 args
  = let g := getopt ord argv0 optstring (initial args) in
    match opt_char g with
    | None => ([], Some (after g))
    | Some c =>
        let '(es, fin) := getopt_run ord argv0 (S (weight (after g))) (after g) in
        ({| s_opt := c; s_optarg := optarg g; s_message := message g;
            s_after := after g |} :: es, fin)
    end.
Proof.
  unfold scan. cbn [getopt_run]. cbv zeta.
  destruct (opt_char (getopt ord argv0 optstring (initial args))) as [c|] eqn:E;
    [|reflexivity].
  destruct (getopt_option ord argv0 _ c E) as [Hw _].
  rewrite (getopt_run_fuel (weight (initial args))
             (S (weight (after (getopt ord argv0 optstring (initial args))))))
    by lia.
  reflexivity.
Qed.

End Fuel.

Lemma getopt_run_same ord argv0 d1 d2 :
  getopt ord argv0 optstring d1 = getopt ord argv0 optstring d2 ->
  getopt_run ord argv0 (S (weight d1)) d1 = getopt_run ord argv0 (S (weight d2)) d2.
Proof.
  intros Hg. cbn [getopt_run].
  destruct (opt_char (getopt ord argv0 optstring d1)) as [x|] eqn:E1;
    rewrite <- Hg, E1; [|reflexivity].
  destruct (getopt_option ord argv0 d1 x E1) as [H1 _].
  assert (E2 : opt_char (getopt ord argv0 optstring d2) = Some x) by (rewrite <- Hg; exact E1).
  destruct (getopt_option ord argv0 d2 x E2) as [H2 _]. rewrite <- Hg in H2.
  rewrite (getopt_run_fuel ord argv0 (weight d1) (weight d2)) by assumption.
  reflexivity.
Qed.

Lemma getopt_at_option ord argv0 c nc r n :
  String "-" (String c nc) <> "--" ->
  getopt ord argv0 optstring
    {| nextchar := ""; rest := String "-" (String c nc) :: r; nonopts := n |}
  = take_option argv0 optstring c nc r n.
Proof.
  intros H. unfold getopt. cbn [nextchar rest nonopts].
  assert (E : match ord with
              | PERMUTE =>
                  let '(sk, r0) := skip_nonopts (String "-" (String c nc) :: r) in
                  ((n ++ sk)%list, r0)
              | REQUIRE_ORDER => (n, String "-" (String c nc) :: r)
              end = (n, String "-" (String c nc) :: r)).
  { destruct ord; [reflexivity|]. cbn. rewrite app_nil_r. reflexivity. }
  rewrite E.
  destruct (String.eqb_spec (String "-" (String c nc)) "--") as [E1|_]; [contradiction|].
  reflexivity.
Qed.

Lemma option_not_dash c nc : find_option c optstring <> None -> String "-" (String c nc) <> "--".
Proof. intros H E. inversion E. subst c. apply H. reflexivity. Qed.

(** A character is not among the (computed) option characters. *)
Ltac not_among :=
  let H := fresh "H" in
  intros H; vm_compute in H;
  repeat (destruct H as [H|H]; [discriminate H|]); exact H.

(** * The claims

    The claims on the numeric series loader, C3 and C4, rest on what the
    extractions read from decimal numerals; they stand at the end of the
    file, behind the properties of the extractions. *)

(** ** Input sources *)

(** C1.  The claim asks that any two of [-f], [-W], [-B], in any order, end
    option parsing with a fatal error.  The case for [-B] has no check of
    [input_specified], unlike its siblings [-f] and [-W]: on [-W -B] with
    the four series files of the spec's scenario, the two options are both
    found, no file is refused, the engine is called with the webcam flag
    and the benchmark flag both set, and [main] returns 0. *)
Theorem C1_benchmark_after_webcam_is_accepted (atof : string -> double) (ord : ordering) :
  let args := "-W" :: "-B" :: "-o" :: "out.bin" :: "-N" :: "10" :: series_options in
  let m := main atof ord scenario_files "ddm" args in
  letters ord "ddm" args = ["W"; "B"; "o"; "N"; "Q"; "T"; "S"; "E"]%char
  /\ snd m = Returned 0
  /\ exists a, calls (fst m) = [Run a]
               /\ arg_use_webcam a = true /\ arg_benchmark_mode a = true.
Proof.
  destruct ord; vm_compute; (split; [reflexivity|]); (split; [reflexivity|]);
    eexists; (split; [reflexivity|]); split; reflexivity.
Qed.

(** The order matters: [-B -W] is refused. *)
Lemma webcam_after_benchmark_is_refused (atof : string -> double) (ord : ordering) :
  main atof ord scenario_files "ddm" ("-B" :: "-W" :: series_options)
  = ([Stdout start_text; Stderr conflict_message], Exited EXIT_FAILURE).
Proof. destruct ord; vm_compute; reflexivity. Qed.

(** ** Multi-stream execution *)

(** C2.  The claim asks that [-Z] turns multi-stream execution off.  [Z] is
    in the option string and in the help text, but the [switch] has no case
    for it: [getopt] returns it, the loop is left through the [break] after
    the [switch], and [multi_stream] keeps its initial value.  On the
    spec's scenario with [-Z] added, the engine is called with multi-stream
    execution on. *)
Theorem C2_Z_leaves_multi_stream_on (atof : string -> double) (ord : ordering) :
  let args := ("-f" :: "video.mp4" :: "-o" :: "out.bin" :: "-N" :: "100"
               :: series_options ++ ["-Z"])%list in
  let m := main atof ord scenario_files "ddm" args in
  In "Z"%char (letters ord "ddm" args)
  /\ snd m = Returned 0
  /\ exists a, calls (fst m) = [Run a] /\ arg_multistream a = true.
Proof.
  destruct ord; vm_compute; (split; [tauto|]); (split; [reflexivity|]);
    eexists; split; reflexivity.
Qed.

(** No argument vector turns it off: whenever the engine is called,
    multi-stream execution is on. *)
Lemma engine_always_multistream atof ord env argv0 args a :
  In (Run a) (fst (main atof ord env argv0 args)) -> arg_multistream a = true.
Proof.
  intros Hin. apply in_calls in Hin. revert Hin.
  destruct (main_cases atof ord env argv0 args)
    as [(l & vq & wq & vt & wt & vs & ws & ve & we & Hj & _ & _ & ->)
       |[(l & vq & wq & vt & wt & vs & ws & ve & we & _ & _ & _ & ->)|[-> _]]].
  - cbn [fst calls filter is_run_event complete_run].
    intros [Hin|[]]. inversion Hin. subst a.
    cbn [loaded_call engine_call arg_multistream].
    destruct (judge_accepted_parsed atof ord argv0 args l Hj) as [-> _].
    unfold parsed. apply fold_multi_stream.
  - intros [].
  - intros [].
Qed.

(** ** The series files and the engine *)

Lemma aborted_unless_called (m : M Z) :
  calls (fst m) = [] -> snd m = Returned (-1) \/ snd m = Exited EXIT_FAILURE -> aborted m.
Proof.
  intros Hc [H|H]; (split; [|exact Hc]); rewrite H; eexists; (split; [reflexivity|]);
    discriminate.
Qed.

Lemma not_aborted_when_called (m : M Z) a : calls (fst m) = [Run a] -> ~ aborted m.
Proof. intros H [_ Hc]. congruence. Qed.

Lemma calls_help_exit t ms h :
  calls (Stdout t :: (map Stderr ms ++ [Stderr h])%list) = [].
Proof.
  change (calls (map Stderr ms ++ [Stderr h]) = []).
  rewrite calls_app, calls_stderr. reflexivity.
Qed.

Lemma first_unopened_none env p cq ct cs ce :
  open_file env (q_file_name p) = Some cq -> open_file env (t_file_name p) = Some ct ->
  open_file env (s_file_name p) = Some cs -> open_file env (e_file_name p) = Some ce ->
  first_unopened env p = None.
Proof. unfold first_unopened, opened. intros -> -> -> ->. reflexivity. Qed.

(** The values that successive extractions read from a concrete text: by
    computation. *)
Ltac read_values :=
  repeat (eapply reads_next; [vm_compute; reflexivity|]);
  apply reads_stop; vm_compute; reflexivity.

(** A concrete environment holds four regular files: by computation. *)
Ltac steady_files :=
  do 4 eexists;
  split; [repeat split; vm_compute; reflexivity|];
  split; [repeat split; reflexivity|];
  repeat split; read_values.

(** C7, as the code has it.  If one of the four series files named by the
    options cannot be opened, the process ends with a status other than 0,
    the last thing it writes is a diagnostic on [stderr], and the engine is
    not called; when option parsing had passed, that diagnostic is the
    "cannot open" error of the first file that failed, written after the
    four attempts to open.  The engine is called at most once.  It is
    called exactly once, after the four files were opened and read, with
    each array holding exactly the values of its file, in order, and
    [main] returns 0, when option parsing passes, the four files are
    regular files that read the same again after the streams have sought
    back, and the four arrays can be counted and have room on the stack.
    Whenever it is called, all four files were opened and both passes were
    made over them, each count is the number of values the first pass
    read, the call comes after the four files were opened, and [main]
    returns 0. *)
Theorem C7_unopened_series_file_is_fatal (atof : string -> double) (ord : ordering)
    (env : environment) (argv0 : string) (args : list string) :
  let m := main atof ord env argv0 args in
  let p := parsed atof ord argv0 args in
  (first_unopened env p <> None ->
   aborted m /\ exists text, last (fst m) (Stdout "") = Stderr text)
  /\ (forall tr l text,
         parse_options atof ord argv0 args = (tr, Returned (inl l)) ->
         first_unopened env (params l) = Some text ->
         m = (Stdout start_text
                :: (opens env (params l) ++ [Stderr ("[Error] " ++ text ++ NL)])%list,
              Exited EXIT_FAILURE))
  /\ (length (calls (fst m)) <= 1)%nat
  /\ (forall tr l vq vt vs ve,
         parse_options atof ord argv0 args = (tr, Returned (inl l)) ->
         steady_series env (params l) vq vt vs ve ->
         fits env (length vq) (length vt) (length vs) (length ve) = true ->
         exists a,
           a = engine_call (params l) (map Some vt) (map Some vq) (map Some vs) (map Some ve)
           /\ m = (Stdout start_text :: complete_run (params l) a, Returned 0)
           /\ calls (fst m) = [Run a])
  /\ (forall a,
         In (Run a) (fst m) ->
         exists vq wq vt wt vs ws ve we,
           series_read env p vq wq vt wt vs ws ve we
           /\ loads env vq wq vt wt vs ws ve we = true
           /\ (arg_lambda_count a = Z.of_nat (length vq)
               /\ arg_tau_count a = Z.of_nat (length vt)
               /\ arg_scale_count a = Z.of_nat (length vs)
               /\ arg_episode_count a = Z.of_nat (length ve))
           /\ m = (Stdout start_text :: complete_run p a, Returned 0)).
Proof.
  cbn zeta.
  assert (Hsteady : forall tr l vq vt vs ve,
             parse_options atof ord argv0 args = (tr, Returned (inl l)) ->
             steady_series env (params l) vq vt vs ve ->
             fits env (length vq) (length vt) (length vs) (length ve) = true ->
             exists a,
               a = engine_call (params l) (map Some vt) (map Some vq) (map Some vs)
                     (map Some ve)
               /\ main atof ord env argv0 args
                  = (Stdout start_text :: complete_run (params l) a, Returned 0)
               /\ calls (fst (main atof ord env argv0 args)) = [Run a]).
  { intros tr l vq vt vs ve Hpo Hst Hfit. apply parse_accepted in Hpo.
    eexists. split; [reflexivity|].
    assert (E : main atof ord env argv0 args
                = (Stdout start_text
                     :: complete_run (params l)
                          (engine_call (params l) (map Some vt) (map Some vq)
                             (map Some vs) (map Some ve)),
                   Returned 0)).
    { rewrite main_judge, Hpo, (steady_run _ _ _ _ _ _ Hst Hfit). reflexivity. }
    split; [exact E|]. rewrite E. reflexivity. }
  destruct (main_cases atof ord env argv0 args)
    as [(l & vq & wq & vt & wt & vs & ws & ve & we & Hj & Hr & Hl & Hm)
       |[(l & vq & wq & vt & wt & vs & ws & ve & we & Hj & Hr & Hl & Hm)
        |(Hc & Hs & Hl & Hv)]].
  - destruct (judge_accepted_parsed atof ord argv0 args l Hj) as [Hp _].
    rewrite Hp in *. split; [|split; [|split; [|split; [exact Hsteady|]]]].
    + intros H. exfalso. apply H. eapply series_read_opened; eassumption.
    + intros tr l' text Hpo Hf. rewrite parse_judge, Hj in Hpo.
      inversion Hpo. subst l'. rewrite Hp in Hf.
      rewrite (series_read_opened _ _ _ _ _ _ _ _ _ _ Hr) in Hf. discriminate.
    + rewrite Hm. cbn. lia.
    + intros a Hin. rewrite Hm in Hin. apply in_calls in Hin. cbn in Hin.
      destruct Hin as [Hin|[]]. inversion Hin. subst a.
      exists vq, wq, vt, wt, vs, ws, ve, we.
      split; [exact Hr|]. split; [exact Hl|]. split; [|exact Hm].
      unfold loads in Hl. apply andb_prop in Hl. destruct Hl as [_ Hw].
      unfold within in Hw. rewrite !andb_true_iff in Hw.
      destruct Hw as (((Lq & Lt) & Ls) & Le).
      cbn [loaded_call engine_call arg_lambda_count arg_tau_count arg_scale_count
           arg_episode_count].
      rewrite !filled_length by assumption. repeat split.
  - destruct (judge_accepted_parsed atof ord argv0 args l Hj) as [Hp _].
    rewrite Hp in *. split; [|split; [|split; [|split; [exact Hsteady|]]]].
    + intros H. exfalso. apply H. eapply series_read_opened; eassumption.
    + intros tr l' text Hpo Hf. rewrite parse_judge, Hj in Hpo.
      inversion Hpo. subst l'. rewrite Hp in Hf.
      rewrite (series_read_opened _ _ _ _ _ _ _ _ _ _ Hr) in Hf. discriminate.
    + rewrite Hm. cbn. lia.
    + intros a Hin. rewrite Hm in Hin. apply in_calls in Hin. cbn in Hin. destruct Hin.
  - split; [|split; [|split; [|split; [exact Hsteady|]]]].
    + intros _. split; [apply aborted_unless_called; assumption|exact Hl].
    + intros tr l text Hpo Hf. rewrite parse_judge in Hpo.
      destruct (judge atof ord argv0 args) as [l0|e| | |]; try discriminate Hpo.
      inversion Hpo. subst l0. destruct Hv as (text' & Hf' & ->).
      rewrite Hf in Hf'. inversion Hf'. reflexivity.
    + rewrite Hc. cbn. lia.
    + intros a Hin. apply in_calls in Hin. rewrite Hc in Hin. destruct Hin.
Qed.

(** C7 on a path that names no file, and on the four files of the spec's
    scenario. *)
Lemma C7_witness :
  let args := ["-B"; "-Q"; "missing.txt"; "-T"; "t.txt"; "-S"; "s.txt"; "-E"; "e.txt"] in
  let m := main no_atof PERMUTE scenario_files "ddm" args in
  let m' := main no_atof PERMUTE scenario_files "ddm" ("-B" :: series_options) in
  (aborted m
   /\ m = ([Stdout start_text; Open "missing.txt" false; Open "t.txt" true;
            Open "s.txt" true; Open "e.txt" true;
            Stderr ("[Error] cannot open lambda-file." ++ NL)],
           Exited EXIT_FAILURE))
  /\ exists a,
       calls (fst m') = [Run a] /\ snd m' = Returned 0
       /\ arg_tau_arr a = [Some 1; Some 2; Some 4; Some 8] /\ arg_tau_count a = 4.
Proof.
  cbn zeta. split.
  - destruct (C7_unopened_series_file_is_fatal no_atof PERMUTE scenario_files "ddm"
                ["-B"; "-Q"; "missing.txt"; "-T"; "t.txt"; "-S"; "s.txt"; "-E"; "e.txt"])
      as (H1 & H2 & _).
    split.
    + apply H1. vm_compute. discriminate.
    + eapply eq_trans; [eapply H2; vm_compute; reflexivity|]. vm_compute. reflexivity.
  - destruct (C7_unopened_series_file_is_fatal no_atof PERMUTE scenario_files "ddm"
                ("-B" :: series_options))
      as (_ & _ & _ & H4 & _).
    edestruct H4 as (a & Ha & Hm & Hc).
    + vm_compute. reflexivity.
    + steady_files.
    + vm_compute. reflexivity.
    + exists a. split; [exact Hc|]. split; [rewrite Hm; reflexivity|].
      rewrite Ha. split; reflexivity.
Defined.

(** C7 as stated fails on a file that cannot be rewound.  With the tau
    values coming through a pipe, the four files are opened, the counting
    pass reads four values, the stream fails to seek back, the filling pass
    stores nothing, and the engine is called with a tau series of four
    cells none of which was written. *)
Lemma C7_called_with_unwritten_cells :
  let env :=
    with_file "t.txt" (pipe ("1" ++ NL ++ "2" ++ NL ++ "4" ++ NL ++ "8")) scenario_files in
  let m := main no_atof PERMUTE env "ddm" ("-B" :: series_options) in
  first_unopened env (parsed no_atof PERMUTE "ddm" ("-B" :: series_options)) = None
  /\ snd m = Returned 0
  /\ exists a,
       calls (fst m) = [Run a]
       /\ arg_tau_count a = 4 /\ arg_tau_arr a = [None; None; None; None].
Proof.
  cbn zeta. split; [vm_compute; reflexivity|]. split; [vm_compute; reflexivity|].
  vm_compute. eexists. split; [reflexivity|]. split; reflexivity.
Qed.

(** ** No input source *)

Lemma conflict_needs_source seen ls :
  conflict_after seen ls = true -> has_source ls = true.
Proof.
  revert seen. induction ls as [|c ls IH]; intros seen H; cbn [conflict_after] in H;
    [discriminate|].
  cbn [has_source existsb]. destruct (is_checked_source c) eqn:Ec.
  - rewrite (is_checked_source_is_source _ Ec). reflexivity.
  - destruct (is_source c); [reflexivity|]. exact (IH _ H).
Qed.

Lemma untouched_parse v :
  (forall l, v <> Accepted l) ->
  forall e, In e (fst (parse_verdict v)) -> is_open_event e = false /\ is_run_event e = false.
Proof.
  intros Hv e Hin. destruct v as [l|x| | |]; cbn [parse_verdict fst] in Hin.
  - exfalso. eapply Hv. reflexivity.
  - destruct Hin as [<-|Hin]; [split; reflexivity|]. apply in_app_iff in Hin.
    destruct Hin as [Hin|[<-|[]]]; [|split; reflexivity].
    apply in_map_iff in Hin. destruct Hin as (t & <- & _). split; reflexivity.
  - cbn [In] in Hin. repeat (destruct Hin as [<-|Hin]; [split; reflexivity|]). destruct Hin.
  - cbn [In] in Hin. repeat (destruct Hin as [<-|Hin]; [split; reflexivity|]). destruct Hin.
  - cbn [In] in Hin. repeat (destruct Hin as [<-|Hin]; [split; reflexivity|]). destruct Hin.
Qed.

(** C8.  When [getopt] finds none of [-f], [-W], [-B] in the argument
    vector, the process ends with a status other than 0 without opening a
    file or calling the engine: after the help text ([-h] or an option
    [getopt] rejects), after the help text and the "unexpected option" error
    (operands left over), or with the error "Must specify input.".  The
    last is what happens when nothing else is wrong with the arguments. *)
Theorem C8_no_input_source_is_fatal (atof : string -> double) (ord : ordering)
    (env : environment) (argv0 : string) (args : list string) :
  has_source (letters ord argv0 args) = false ->
  let m := main atof ord env argv0 args in
  aborted m /\ untouched (fst m)
  /\ ((snd m = Returned (-1) /\ In (Stderr help_text) (fst m))
      \/ m = ([Stdout start_text; Stderr help_text; Stderr unexpected_message],
              Exited EXIT_FAILURE)
      \/ m = ([Stdout start_text; Stderr no_input_message], Exited EXIT_FAILURE))
  /\ (has_help (letters ord argv0 args) = false ->
      ~ In "Z"%char (letters ord argv0 args) ->
      operands ord argv0 args = [] ->
      m = ([Stdout start_text; Stderr no_input_message], Exited EXIT_FAILURE)).
Proof.
  intros Hns. cbn zeta.
  pose proof (judge_cases atof ord argv0 args) as Hj. cbn zeta in Hj.
  pose proof (untouched_parse (judge atof ord argv0 args)) as Hu.
  rewrite main_judge.
  destruct (judge atof ord argv0 args) as [l|e| | |].
  - destruct Hj as (_ & _ & _ & Hs & _). congruence.
  - split; [apply aborted_unless_called; cbn [fst snd];
            [apply calls_help_exit|left; reflexivity]|].
    split; [intros x Hx; apply Hu; [discriminate|exact Hx]|].
    split.
    + left. split; [reflexivity|]. cbn [fst]. right. apply in_app_iff. right. left.
      reflexivity.
    + intros Hh. exfalso. destruct Hj as (Hin & He).
      assert (has_help (letters ord argv0 args) = true); [|congruence].
      apply existsb_exists. exists (s_opt e). split; [|exact He].
      unfold letters. apply in_map. exact Hin.
  - unfold conflict in Hj. apply conflict_needs_source in Hj. congruence.
  - split; [apply aborted_unless_called; [reflexivity|right; reflexivity]|].
    split; [intros x Hx; apply Hu; [discriminate|exact Hx]|].
    split; [right; left; reflexivity|].
    intros _ Hz Ho. exfalso. destruct (Hj Hz) as (Hne & _). contradiction.
  - split; [apply aborted_unless_called; [reflexivity|right; reflexivity]|].
    split; [intros x Hx; apply Hu; [discriminate|exact Hx]|].
    split; [right; right; reflexivity|]. intros _ _ _. reflexivity.
Qed.

(** C8, on an argument vector that names the series files and the output
    but no input source. *)
Lemma C8_witness :
  let args := "-o" :: "out.bin" :: "-N" :: "100" :: series_options in
  let m := main no_atof PERMUTE scenario_files "ddm" args in
  aborted m /\ untouched (fst m)
  /\ m = ([Stdout start_text; Stderr no_input_message], Exited EXIT_FAILURE).
Proof.
  cbn zeta.
  destruct (C8_no_input_source_is_fatal no_atof PERMUTE scenario_files "ddm"
              ("-o" :: "out.bin" :: "-N" :: "100" :: series_options))
    as (Ha & Hu & _ & Hm).
  - vm_compute. reflexivity.
  - split; [exact Ha|]. split; [exact Hu|]. apply Hm.
    + vm_compute. reflexivity.
    + not_among.
    + vm_compute. reflexivity.
Defined.

(** ** Rejected and left-over arguments *)

Lemma unknown_is_help ls : In "?"%char ls -> has_help ls = true.
Proof. intros H. apply has_help_spec. right. exact H. Qed.

(** C5, as the code has it.  Take an argument vector without [-Z] in which
    [getopt] rejects an option (one it does not know, or one whose argument
    is missing) or which leaves operands behind.  The process ends with a
    status other than 0 without opening a file or calling the engine.  The
    checks run in the order of the arguments.  When at most one input
    source stands in front of the first option that brings the help text
    ([-h] or a rejected option; in the whole vector when there is none),
    the help text is written: [main] returns -1 after it, or the process
    exits after it on the "unexpected option" error.  When a second input
    source stands there and it is a [-f] or a [-W], the process exits at it
    on the conflict error alone and the help text is not written.  The case
    of a second input source that is a [-B] is left open here: it is the
    subject of C1. *)
Theorem C5_rejected_arguments_abort (atof : string -> double) (ord : ordering)
    (env : environment) (argv0 : string) (args : list string) :
  ~ In "Z"%char (letters ord argv0 args) ->
  In "?"%char (letters ord argv0 args) \/ operands ord argv0 args <> [] ->
  let m := main atof ord env argv0 args in
  let front := before_help (letters ord argv0 args) in
  aborted m /\ untouched (fst m)
  /\ (second_source false front = None ->
      In (Stderr help_text) (fst m)
      /\ ((snd m = Returned (-1) /\ last (fst m) (Stdout "") = Stderr help_text)
          \/ m = ([Stdout start_text; Stderr help_text; Stderr unexpected_message],
                  Exited EXIT_FAILURE)))
  /\ (forall c,
         second_source false front = Some c -> is_checked_source c = true ->
         m = ([Stdout start_text; Stderr conflict_message], Exited EXIT_FAILURE)
         /\ ~ In (Stderr help_text) (fst m)).
Proof.
  intros HZ Hbad. cbn zeta.
  pose proof (judge_cases atof ord argv0 args) as Hj. cbn zeta in Hj.
  pose proof (judge_stop atof ord argv0 args) as Hstop. cbn zeta in Hstop.
  pose proof (untouched_parse (judge atof ord argv0 args)) as Hu.
  rewrite main_judge.
  destruct (judge atof ord argv0 args) as [l|e| | |].
  - exfalso. destruct Hj as (_ & Hh & _ & _ & Ho). destruct Hbad as [H|H].
    + apply unknown_is_help in H. congruence.
    + apply H, Ho, HZ.
  - split; [apply aborted_unless_called; [apply calls_help_exit|left; reflexivity]|].
    split; [intros x Hx; apply Hu; [discriminate|exact Hx]|].
    split.
    + intros _. split.
      * right. apply in_app_iff. right. left. reflexivity.
      * left. split; [reflexivity|]. cbn [fst].
        change (Stdout start_text :: (map Stderr (s_message e) ++ [Stderr help_text])%list)
          with ((Stdout start_text :: map Stderr (s_message e)) ++ [Stderr help_text])%list.
        apply last_last.
    + intros c Hc Hk. exfalso. unfold conflict in Hstop.
      rewrite (checked_second_source _ _ _ Hc Hk) in Hstop. discriminate.
  - split; [apply aborted_unless_called; [reflexivity|right; reflexivity]|].
    split; [intros x Hx; apply Hu; [discriminate|exact Hx]|].
    split.
    + intros Hn. exfalso. unfold conflict in Hstop.
      rewrite (no_second_source _ _ Hn) in Hstop. discriminate.
    + intros c _ _. split; [reflexivity|].
      cbn [fst]. intros [H|[H|[]]]; discriminate H.
  - destruct (Hj HZ) as (_ & Hh & Hc).
    split; [apply aborted_unless_called; [reflexivity|right; reflexivity]|].
    split; [intros x Hx; apply Hu; [discriminate|exact Hx]|].
    split.
    + intros _. split; [right; left; reflexivity|right; reflexivity].
    + intros c Hs Hk. exfalso. rewrite (before_help_all _ Hh) in Hs.
      unfold conflict in Hc. rewrite (checked_second_source _ _ _ Hs Hk) in Hc.
      discriminate.
  - exfalso. destruct Hj as (Hh & _ & _ & Ho). destruct Hbad as [H|H].
    + apply unknown_is_help in H. congruence.
    + apply H, Ho, HZ.
Qed.

(** C5 on a stray operand after the options of the spec's scenario, on an
    unknown option in front of two input sources, and on an unknown option
    behind a [-f] that follows a [-B]. *)
Lemma C5_witness :
  let args := ("-o" :: "out.bin" :: "-f" :: "video.mp4" :: series_options
               ++ ["extra_token"])%list in
  let m := main no_atof PERMUTE scenario_files "ddm" args in
  let m1 := main no_atof PERMUTE scenario_files "ddm" ["-k"; "-B"; "-f"; "a"] in
  let m2 := main no_atof PERMUTE scenario_files "ddm" ["-B"; "-f"; "a"; "-k"] in
  (aborted m /\ untouched (fst m) /\ In (Stderr help_text) (fst m))
  /\ (aborted m1 /\ In (Stderr help_text) (fst m1))
  /\ (aborted m2 /\ ~ In (Stderr help_text) (fst m2)).
Proof.
  cbn zeta. split; [|split].
  - destruct (C5_rejected_arguments_abort no_atof PERMUTE scenario_files "ddm"
                ("-o" :: "out.bin" :: "-f" :: "video.mp4" :: series_options
                 ++ ["extra_token"])%list)
      as (Ha & Hu & Hh & _).
    + not_among.
    + right. vm_compute. discriminate.
    + split; [exact Ha|]. split; [exact Hu|]. apply Hh. vm_compute. reflexivity.
  - destruct (C5_rejected_arguments_abort no_atof PERMUTE scenario_files "ddm"
                ["-k"; "-B"; "-f"; "a"])
      as (Ha & _ & Hh & _).
    + not_among.
    + left. vm_compute. tauto.
    + split; [exact Ha|]. apply Hh. vm_compute. reflexivity.
  - destruct (C5_rejected_arguments_abort no_atof PERMUTE scenario_files "ddm"
                ["-B"; "-f"; "a"; "-k"])
      as (Ha & _ & _ & Hc).
    + not_among.
    + left. vm_compute. tauto.
    + split; [exact Ha|]. apply (Hc "f"%char); vm_compute; reflexivity.
Defined.

(** C5 as stated fails: in [-B -f a -k] the option [-k] is unknown to
    [getopt], yet the process exits on the conflict between [-B] and [-f]
    and the help text is never written. *)
Lemma C5_conflict_comes_before_help :
  let args := ["-B"; "-f"; "a"; "-k"] in
  let m := main no_atof PERMUTE scenario_files "ddm" args in
  In "?"%char (letters PERMUTE "ddm" args)
  /\ m = ([Stdout start_text; Stderr conflict_message], Exited EXIT_FAILURE)
  /\ (In (Stderr help_text) (fst m) -> False).
Proof.
  cbn zeta. split; [vm_compute; tauto|]. split; [vm_compute; reflexivity|].
  vm_compute. intros [H|[H|[]]]; discriminate H.
Qed.

(** ** The webcam index *)

(** What [getopt] reports at an element [-W] or [-W<index>]: the index is
    the rest of the element, and the elements that follow are left where
    they are. *)
Lemma getopt_at_W ord argv0 index following n :
  getopt ord argv0 optstring
    {| nextchar := ""; rest := ("-W" ++ index) :: following; nonopts := n |}
  = {| opt_char := Some "W"%char;
       optarg := if String.eqb index "" then None else Some index;
       message := [];
       after := {| nextchar := ""; rest := following; nonopts := n |} |}.
Proof.
  change ("-W" ++ index) with (String "-" (String "W" index)).
  rewrite getopt_at_option by discriminate.
  destruct index; reflexivity.
Qed.

(** When option parsing passes, the webcam index is the argument that
    [getopt] reported with [-W]. *)
Lemma webcam_index_stored atof ord argv0 args tr l e :
  parse_options atof ord argv0 args = (tr, Returned (inl l)) ->
  In e (fst (scan ord argv0 args)) -> s_opt e = "W"%char ->
  use_webcam (params l) = true
  /\ webcam_idx (params l)
     = match s_optarg e with
       | Some index => atoi index
       | None => 0
       end.
Proof.
  intros Hp Hin HW. apply parse_accepted in Hp.
  pose proof (judge_cases atof ord argv0 args) as Hj. cbn zeta in Hj.
  rewrite Hp in Hj. destruct Hj as (-> & _ & Hc & _).
  apply (fold_webcam atof); assumption.
Qed.

(** C9, as the code has it.  The index of the webcam is an optional
    argument of [-W]: it is the text that follows [-W] inside the same
    element of the argument vector.  Wherever [getopt] comes to an element
    [-W<index>], it reports [W] with the index as its argument, or with no
    argument when the element is [-W] alone, and goes on with the next
    element, which is not taken for the index.  When option parsing passes,
    the webcam flag is set and the webcam index is the argument reported
    with [-W], read by [atoi], or 0, its default, when there was none.  So
    for an argument vector that starts with [-W<index>]: the index is read
    from the rest of that element, and stays 0 for [-W] alone, whatever the
    element that follows. *)
Theorem C9_webcam_index (atof : string -> double) (ord : ordering) (argv0 : string) :
  (forall index following skipped,
      getopt ord argv0 optstring
        {| nextchar := ""; rest := ("-W" ++ index) :: following; nonopts := skipped |}
      = {| opt_char := Some "W"%char;
           optarg := if String.eqb index "" then None else Some index;
           message := [];
           after := {| nextchar := ""; rest := following; nonopts := skipped |} |})
  /\ (forall args tr l e,
         parse_options atof ord argv0 args = (tr, Returned (inl l)) ->
         In e (fst (scan ord argv0 args)) -> s_opt e = "W"%char ->
         use_webcam (params l) = true
         /\ webcam_idx (params l)
            = match s_optarg e with
              | Some index => atoi index
              | None => 0
              end)
  /\ (forall index following tr l,
         parse_options atof ord argv0 (("-W" ++ index) :: following)
         = (tr, Returned (inl l)) ->
         use_webcam (params l) = true
         /\ webcam_idx (params l) = if String.eqb index "" then 0 else atoi index).
Proof.
  split; [intros; apply getopt_at_W|].
  split; [intros args tr l e; apply webcam_index_stored|].
  intros index following tr l Hp.
  pose proof (scan_step ord argv0 (("-W" ++ index) :: following)) as Hs.
  unfold initial in Hs. rewrite getopt_at_W in Hs. cbn [opt_char optarg message after] in Hs.
  cbv zeta in Hs.
  destruct (getopt_run ord argv0
              (S (weight {| nextchar := ""; rest := following; nonopts := [] |}))
              {| nextchar := ""; rest := following; nonopts := [] |}) as [es fin].
  destruct (webcam_index_stored atof ord argv0 _ tr l
              {| s_opt := "W"; s_optarg := if String.eqb index "" then None else Some index;
                 s_message := [];
                 s_after := {| nextchar := ""; rest := following; nonopts := [] |} |} Hp)
    as [H1 H2].
  - rewrite Hs. left. reflexivity.
  - reflexivity.
  - split; [exact H1|]. rewrite H2. cbn [s_optarg].
    destruct (String.eqb index ""); reflexivity.
Qed.

(** C9 on [-W2] and on [-W] alone. *)
Lemma C9_witness :
  (exists l,
      parse_options no_atof PERMUTE "ddm" ("-W2" :: series_options)
      = ([Stdout start_text], Returned (inl l))
      /\ use_webcam (params l) = true /\ webcam_idx (params l) = 2)
  /\ (exists l,
         parse_options no_atof PERMUTE "ddm" ("-W" :: series_options)
         = ([Stdout start_text], Returned (inl l))
         /\ use_webcam (params l) = true /\ webcam_idx (params l) = 0).
Proof.
  destruct (C9_webcam_index no_atof PERMUTE "ddm") as (_ & _ & H).
  split.
  - eexists. split; [vm_compute; reflexivity|].
    refine (H "2" series_options _ _ _). vm_compute. reflexivity.
  - eexists. split; [vm_compute; reflexivity|].
    refine (H "" series_options _ _ _). vm_compute. reflexivity.
Defined.

(** C9 as stated fails: a token that follows [-W] as an element of its own
    is not parsed as the index.  On [-W 2] the option loop ends with the
    webcam flag set and the webcam index still 0, the [2] is left over as
    an operand, and the run is refused. *)
Lemma C9_following_token_is_not_the_index :
  let args := "-W" :: "2" :: series_options in
  let refused :=
    ([Stdout start_text; Stderr help_text; Stderr unexpected_message], Exited EXIT_FAILURE) in
  ((exists tr l d,
       option_loop no_atof PERMUTE "ddm" (S (weight (initial args))) initial_locals
         (initial args)
       = (tr, Returned (inl (l, d)))
       /\ use_webcam (params l) = true /\ webcam_idx (params l) = 0
       /\ rest d = ["2"])
   /\ main no_atof PERMUTE scenario_files "ddm" args = refused)
  /\ ((exists tr l d,
          option_loop no_atof REQUIRE_ORDER "ddm" (S (weight (initial args))) initial_locals
            (initial args)
          = (tr, Returned (inl (l, d)))
          /\ use_webcam (params l) = true /\ webcam_idx (params l) = 0
          /\ rest d = "2" :: series_options)
      /\ main no_atof REQUIRE_ORDER scenario_files "ddm" args = refused).
Proof.
  cbn zeta. split; (split; [|vm_compute; reflexivity]); vm_compute; do 3 eexists;
    (split; [reflexivity|]); (split; [reflexivity|]); split; reflexivity.
Qed.

(** An index in an argument of its own is not taken for the index: [-W 2]
    leaves the index at 0 and [2] as an operand, and the run is refused. *)
Lemma webcam_index_apart_is_an_operand (atof : string -> double) :
  map s_optarg (fst (scan PERMUTE "ddm" ("-W" :: "2" :: series_options)))
    = [None; Some "q.txt"; Some "t.txt"; Some "s.txt"; Some "e.txt"]
  /\ operands PERMUTE "ddm" ("-W" :: "2" :: series_options) = ["2"]
  /\ main atof PERMUTE scenario_files "ddm" ("-W" :: "2" :: series_options)
     = ([Stdout start_text; Stderr help_text; Stderr unexpected_message],
        Exited EXIT_FAILURE).
Proof. repeat split; vm_compute; reflexivity. Qed.

(** ** What makes the program abort *)

(** C10, as the code has it.  Take an argument vector without [-Z] in
    which the second input source, if there is one, is not a [-B] (that
    combination is the subject of C1).  The process ends with a status
    other than 0 without calling the engine if and only if one of these
    holds: help is asked for ([-h]); [getopt] rejects an option; the number
    of input sources given is not exactly one; operands are left over; one
    of the four series files named by the options cannot be opened (an
    omitted [-Q], [-T], [-S] or [-E] leaves the empty path, which cannot be
    opened).  Nothing else is checked.  Otherwise the four files are opened
    and read, and [main] returns 0 after one call of the engine, in which
    the frame count is 0 when [-N] is absent; unless the arrays cannot be
    counted or have no room on the stack, or the second pass finds more
    values than the first: then the behaviour is undefined once the files
    are opened. *)
Theorem C10_abort_causes (atof : string -> double) (ord : ordering)
    (env : environment) (argv0 : string) (args : list string) :
  ~ In "Z"%char (letters ord argv0 args) ->
  second_source false (letters ord argv0 args) <> Some "B"%char ->
  let m := main atof ord env argv0 args in
  let ls := letters ord argv0 args in
  let p := parsed atof ord argv0 args in
  (aborted m
   <-> (In "h"%char ls \/ In "?"%char ls \/ count_sources ls <> 1%nat
        \/ operands ord argv0 args <> []
        \/ first_unopened env p <> None))
  /\ (~ aborted m ->
      exists vq wq vt wt vs ws ve we,
        series_read env p vq wq vt wt vs ws ve we
        /\ if loads env vq wq vt wt vs ws ve we
           then snd m = Returned 0
                /\ exists a, calls (fst m) = [Run a]
                             /\ (~ In "N"%char ls -> arg_frame_count a = 0)
           else m = (Stdout start_text :: all_opened p, Undefined)).
Proof.
  intros HZ HB. cbn zeta.
  pose proof (judge_cases atof ord argv0 args) as Hj. cbn zeta in Hj.
  assert (Hone : (conflict (letters ord argv0 args) = true
                  \/ has_source (letters ord argv0 args) = false)
                 <-> count_sources (letters ord argv0 args) <> 1%nat).
  { unfold conflict. rewrite (one_source false _ HB), has_source_count.
    cbn [Nat.add]. rewrite Nat.leb_le, negb_false_iff, Nat.eqb_eq. lia. }
  assert (Hrun : forall l vq wq vt wt vs ws ve we,
             judge atof ord argv0 args = Accepted l ->
             series_read env (params l) vq wq vt wt vs ws ve we ->
             ~ (In "h"%char (letters ord argv0 args) \/ In "?"%char (letters ord argv0 args)
                \/ count_sources (letters ord argv0 args) <> 1%nat
                \/ operands ord argv0 args <> []
                \/ first_unopened env (parsed atof ord argv0 args) <> None)).
  { intros l vq wq vt wt vs ws ve we Hjl Hr H. rewrite Hjl in Hj.
    destruct Hj as (Hfold & Hh & Hcf & Hsrc & Ho).
    destruct (judge_accepted_parsed atof ord argv0 args l Hjl) as [Hp _].
    destruct H as [H|[H|[H|[H|H]]]].
    - assert (has_help (letters ord argv0 args) = true)
        by (apply has_help_spec; left; exact H). congruence.
    - assert (has_help (letters ord argv0 args) = true)
        by (apply has_help_spec; right; exact H). congruence.
    - apply Hone in H. destruct H; congruence.
    - apply H, Ho, HZ.
    - apply H. rewrite <- Hp. eapply series_read_opened; eassumption. }
  destruct (main_cases atof ord env argv0 args)
    as [(l & vq & wq & vt & wt & vs & ws & ve & we & Hjl & Hr & Hl & Hm)
       |[(l & vq & wq & vt & wt & vs & ws & ve & we & Hjl & Hr & Hl & Hm)
        |(Hc & Hs & Hl & Hv)]].
  - destruct (judge_accepted_parsed atof ord argv0 args l Hjl) as [Hp _].
    assert (Hcalls : calls (fst (main atof ord env argv0 args))
                     = [Run (loaded_call (params l) vq wq vt wt vs ws ve we)])
      by (rewrite Hm; reflexivity).
    split; [split|].
    + intros Ha. exfalso. exact (not_aborted_when_called _ _ Hcalls Ha).
    + intros H. exfalso. exact (Hrun _ _ _ _ _ _ _ _ _ Hjl Hr H).
    + intros _. rewrite <- Hp. exists vq, wq, vt, wt, vs, ws, ve, we.
      split; [exact Hr|]. rewrite Hl. split; [rewrite Hm; reflexivity|].
      eexists. split; [exact Hcalls|]. intros HN.
      cbn [loaded_call engine_call arg_frame_count].
      rewrite Hjl in Hj. destruct Hj as (Hfold & _).
      rewrite Hfold, fold_frame_count.
      rewrite last_optarg_none; [reflexivity|exact HN].
  - destruct (judge_accepted_parsed atof ord argv0 args l Hjl) as [Hp _].
    split; [split|].
    + intros ((st & Hst & _) & _). rewrite Hm in Hst. discriminate Hst.
    + intros H. exfalso. exact (Hrun _ _ _ _ _ _ _ _ _ Hjl Hr H).
    + intros _. rewrite <- Hp. exists vq, wq, vt, wt, vs, ws, ve, we.
      split; [exact Hr|]. rewrite Hl. exact Hm.
  - assert (Ha : aborted (main atof ord env argv0 args))
      by (apply aborted_unless_called; assumption).
    split; [split; [intros _|intros _; exact Ha]|intros H; contradiction].
    destruct (judge atof ord argv0 args) as [l|e| | |] eqn:Hjl.
    + destruct Hv as (text & Hf & _).
      destruct (judge_accepted_parsed atof ord argv0 args l Hjl) as [Hp _].
      do 4 right. rewrite <- Hp, Hf. discriminate.
    + destruct Hj as (Hin & He). apply is_help_spec in He.
      assert (Hls : In (s_opt e) (letters ord argv0 args))
        by (unfold letters; apply in_map; exact Hin).
      destruct He as [He|He]; rewrite He in Hls; auto.
    + right. right. left. apply Hone. left. exact Hj.
    + destruct (Hj HZ) as (Hne & _). auto.
    + destruct Hj as (_ & _ & Hsrc & _). right. right. left. apply Hone. right. exact Hsrc.
Qed.

(** C10 on [-B] with the four series files and neither [-o] nor [-N]: the
    engine is called, with frame count 0. *)
Lemma C10_witness :
  let m := main no_atof PERMUTE scenario_files "ddm" ("-B" :: series_options) in
  snd m = Returned 0
  /\ exists a, calls (fst m) = [Run a] /\ arg_frame_count a = 0.
Proof.
  cbn zeta.
  destruct (C10_abort_causes no_atof PERMUTE scenario_files "ddm" ("-B" :: series_options))
    as (Hiff & Hrun).
  - not_among.
  - vm_compute. discriminate.
  - destruct Hrun as (vq & wq & vt & wt & vs & ws & ve & we & Hr & H).
    + intros Ha. apply Hiff in Ha. destruct Ha as [H|[H|[H|[H|H]]]].
      * revert H. not_among.
      * revert H. not_among.
      * apply H. vm_compute. reflexivity.
      * apply H. vm_compute. reflexivity.
      * apply H. vm_compute. reflexivity.
    + destruct (loads scenario_files vq wq vt wt vs ws ve we).
      * destruct H as (Hs & a & Hc & HN). split; [exact Hs|].
        exists a. split; [exact Hc|]. apply HN. not_among.
      * exfalso. apply (f_equal snd) in H. vm_compute in H. discriminate H.
Defined.

(** C10 as stated fails: with [-h] after a valid [-B] and four series files
    that can all be opened, the process ends with status -1 without calling
    the engine, although the input source is set exactly once, [getopt]
    rejects nothing, no operand is left over, and no file fails to open. *)
Lemma C10_help_also_aborts :
  let args := ("-B" :: series_options ++ ["-h"])%list in
  let m := main no_atof PERMUTE scenario_files "ddm" args in
  let ls := letters PERMUTE "ddm" args in
  aborted m /\ snd m = Returned (-1)
  /\ count_sources ls = 1%nat
  /\ (In "?"%char ls -> False)
  /\ operands PERMUTE "ddm" args = []
  /\ first_unopened scenario_files (parsed no_atof PERMUTE "ddm" args) = None.
Proof.
  cbn zeta. split.
  - split; [exists (-1); split; [vm_compute; reflexivity|discriminate]|].
    vm_compute. reflexivity.
  - split; [vm_compute; reflexivity|]. split; [vm_compute; reflexivity|].
    split; [not_among|].
    split; vm_compute; reflexivity.
Qed.

(** ** The q-tolerance *)

(** C6, as the code has it.  When option parsing passes, the stored
    q-tolerance is [tolerance p] for the integer percent [p] that [atoi]
    reads from the argument of the last [-t], and the default when there is
    no [-t].  [tolerance p] is [1.0 + float (p) / 100] with the quotient
    rounded to single precision before the sum, and the sum rounded to single
    precision when stored.  [-t 20] stores the single precision number
    nearest to 1.2, which is also the default; [-t 0] stores exactly 1; and
    for every percent from 0 to 100 the stored number is the single
    precision number nearest to [1 + p/100] or one next to it. *)
Theorem C6_tolerance_in_single_precision (atof : string -> double) (ord : ordering)
    (argv0 : string) (args : list string) (tr : list event) (l : locals) :
  parse_options atof ord argv0 args = (tr, Returned (inl l)) ->
  q_tolerance (params l)
  = match last_optarg "t" (fst (scan ord argv0 args)) with
    | Some percent => tolerance (atoi (str percent))
    | None => q_tolerance initial_params
    end
  /\ tolerance 20 = decimal 24 128 false 12 (-1)
  /\ q_tolerance initial_params = decimal 24 128 false 12 (-1)
  /\ tolerance 0 = int_to_float 1
  /\ forallb (fun n => within_ulp (tolerance (Z.of_nat n)) (nearest_tolerance (Z.of_nat n)))
       (seq 0 101) = true.
Proof.
  intros Hp. apply parse_accepted in Hp.
  pose proof (judge_cases atof ord argv0 args) as Hj. cbn zeta in Hj.
  rewrite Hp in Hj. destruct Hj as (-> & _).
  split; [apply fold_q_tolerance|].
  repeat split; vm_compute; reflexivity.
Qed.

(** C6 on [-t 20] and on [-t 0]. *)
Lemma C6_witness :
  (exists l,
      parse_options no_atof PERMUTE "ddm" ["-t"; "20"; "-B"]
      = ([Stdout start_text], Returned (inl l))
      /\ q_tolerance (params l) = decimal 24 128 false 12 (-1))
  /\ (exists l,
         parse_options no_atof PERMUTE "ddm" ["-t"; "0"; "-B"]
         = ([Stdout start_text], Returned (inl l))
         /\ q_tolerance (params l) = int_to_float 1).
Proof.
  split.
  - eexists. split; [vm_compute; reflexivity|].
    destruct (C6_tolerance_in_single_precision no_atof PERMUTE "ddm" ["-t"; "20"; "-B"] _ _
                eq_refl) as (H & H20 & _).
    rewrite <- H20. exact H.
  - eexists. split; [vm_compute; reflexivity|].
    destruct (C6_tolerance_in_single_precision no_atof PERMUTE "ddm" ["-t"; "0"; "-B"] _ _
                eq_refl) as (H & _ & _ & H0 & _).
    rewrite <- H0. exact H.
Defined.

(** C6 as stated fails at 18 percent: the stored number is not
    [1.0 + 18/100.0] stored as a single precision number, and it is not the
    single precision number nearest to 1.18 either; it is the next one
    up. *)
Lemma C6_percent_18 :
  (exists l,
      parse_options no_atof PERMUTE "ddm" ["-t"; "18"; "-B"]
      = ([Stdout start_text], Returned (inl l))
      /\ q_tolerance (params l) = tolerance 18)
  /\ tolerance 18 = S754_finite false 9898558 (-23)
  /\ spec_tolerance 18 = S754_finite false 9898557 (-23)
  /\ nearest_tolerance 18 = S754_finite false 9898557 (-23)
  /\ decimal 24 128 false 118 (-2) = S754_finite false 9898557 (-23)
  /\ SFeqb (tolerance 18) (spec_tolerance 18) = false.
Proof.
  split; [eexists; split; vm_compute; reflexivity|].
  repeat split; vm_compute; reflexivity.
Qed.

(** ** Supplements *)

(** [main] never runs forever: it returns 0 or -1, or the process exits
    with [EXIT_FAILURE], or the behaviour is undefined. *)
Lemma main_terminates atof ord env argv0 args :
  let r := snd (main atof ord env argv0 args) in
  r = Returned 0 \/ r = Returned (-1) \/ r = Exited EXIT_FAILURE \/ r = Undefined.
Proof.
  cbn zeta.
  destruct (main_cases atof ord env argv0 args)
    as [(l & vq & wq & vt & wt & vs & ws & ve & we & _ & _ & _ & ->)
       |[(l & vq & wq & vt & wt & vs & ws & ve & we & _ & _ & _ & ->)
        |(_ & [H|H] & _)]]; auto.
Qed.

(** Under GNU [getopt]'s default ordering, an operand in front of a final
    [-Z] goes unnoticed: the loop is left at [-Z] with [optind] equal to
    [argc], and the engine is called. *)
Lemma operand_before_Z_goes_unnoticed (atof : string -> double) :
  let args := ("-B" :: series_options ++ ["extra_token"; "-Z"])%list in
  let m := main atof PERMUTE scenario_files "ddm" args in
  operands PERMUTE "ddm" args = ["extra_token"]
  /\ snd m = Returned 0
  /\ exists a, calls (fst m) = [Run a].
Proof.
  cbn zeta. split; [vm_compute; reflexivity|]. split; [vm_compute; reflexivity|].
  vm_compute. eexists. reflexivity.
Qed.

Lemma digit_not_space c : isdigit c = true -> isspace c = false.
Proof. each_char c; intros H; try reflexivity; discriminate H. Qed.

Lemma digit_not_sign c r : isdigit c = true -> take_sign (String c r) = ("", String c r).
Proof. unfold take_sign. each_char c; intros H; try reflexivity; discriminate H. Qed.

Lemma all_digits_no_space s : all_digits s = true -> no_space s = true.
Proof.
  induction s as [|c s IH]; [reflexivity|]. cbn [all_digits no_space]. intros H.
  apply andb_prop in H. destruct H as [Hc Hs].
  rewrite (digit_not_space c Hc), (IH Hs). reflexivity.
Qed.

Lemma accumulate_digits s :
  all_digits s = true -> accumulate int_step tt s = (s, "").
Proof.
  induction s as [|c s IH]; [reflexivity|]. cbn [all_digits accumulate]. intros H.
  apply andb_prop in H. destruct H as [Hc Hs].
  unfold int_step at 1. rewrite Hc, (IH Hs). reflexivity.
Qed.

Lemma digits_from_all s :
  all_digits s = true ->
  forall acc n, exists v, digits_from acc n s = (v, (n + String.length s)%nat, "").
Proof.
  induction s as [|c s IH]; intros H acc n.
  - exists acc. cbn. rewrite Nat.add_0_r. reflexivity.
  - cbn [all_digits] in H. apply andb_prop in H. destruct H as [Hc Hs].
    cbn [digits_from String.length]. rewrite Hc.
    destruct (IH Hs (10 * acc + digit_val c) (S n)) as [v Hv].
    exists v. rewrite Hv. do 2 f_equal. lia.
Qed.

(** Every run of decimal digits whose value fits an [int] is a numeric
    token for the [int] series, and stands for that value. *)
Lemma digits_are_numeric s :
  s <> "" -> all_digits s = true -> in_int_range (digits_value s) = true ->
  numeric get_int s (digits_value s).
Proof.
  intros Hne Hd Hr. split; [exact Hne|]. split; [apply all_digits_no_space; exact Hd|].
  unfold get. rewrite skip_ws_id by (try apply all_digits_no_space; assumption).
  destruct s as [|c s]; [congruence|].
  assert (Hc : isdigit c = true)
    by (cbn [all_digits] in Hd; apply andb_prop in Hd; tauto).
  rewrite (digit_not_sign c s Hc).
  cbv beta iota delta [get_int ng_state ng_step ng_init ng_convert].
  rewrite (accumulate_digits _ Hd).
  unfold int_convert. cbn [append]. rewrite (digit_not_sign c s Hc).
  unfold digits_value in *.
  destruct (digits_from_all _ Hd 0 0%nat) as [v Hv]. rewrite Hv in *.
  cbn [fst String.length Nat.add] in *. cbn [String.eqb]. rewrite Hr. reflexivity.
Qed.

(** * Further properties *)

Section Members.
Variable atof : string -> double.

Lemma effect_members l e :
  let c := s_opt e in
  let oa := s_optarg e in
  let p := params l in
  let p' := params (effect atof l e) in
  let first_source := negb (input_specified l) in
  file_out p' = (if Ascii.eqb c "o" then str oa else file_out p)
  /\ frame_count p' = (if Ascii.eqb c "N" then atoi (str oa) else frame_count p)
  /\ x_off p' = (if Ascii.eqb c "x" then atoi (str oa) else x_off p)
  /\ y_off p' = (if Ascii.eqb c "y" then atoi (str oa) else y_off p)
  /\ q_file_name p' = (if Ascii.eqb c "Q" then str oa else q_file_name p)
  /\ t_file_name p' = (if Ascii.eqb c "T" then str oa else t_file_name p)
  /\ s_file_name p' = (if Ascii.eqb c "S" then str oa else s_file_name p)
  /\ e_file_name p' = (if Ascii.eqb c "E" then str oa else e_file_name p)
  /\ use_index_fps p' = (use_index_fps p || Ascii.eqb c "I")%bool
  /\ frame_offset p' = (if Ascii.eqb c "s" then atoi (str oa) else frame_offset p)
  /\ file_in p' = (if (Ascii.eqb c "f" && first_source)%bool then str oa else file_in p)
  /\ use_webcam p' = (use_webcam p || (Ascii.eqb c "W" && first_source))%bool
  /\ webcam_idx p'
     = (if (Ascii.eqb c "W" && first_source)%bool
        then match oa with Some a => atoi a | None => webcam_idx p end
        else webcam_idx p)
  /\ benchmark_mode p' = (benchmark_mode p || Ascii.eqb c "B")%bool
  /\ chunk_length p' = (if Ascii.eqb c "C" then atoi (str oa) else chunk_length p)
  /\ use_movie_file p' = (use_movie_file p || Ascii.eqb c "M")%bool
  /\ rolling_purge p' = (if Ascii.eqb c "G" then atoi (str oa) else rolling_purge p)
  /\ use_explicit_fps p' = (use_explicit_fps p || Ascii.eqb c "F")%bool
  /\ explicit_fps p'
     = (if Ascii.eqb c "F" then double_to_float (atof (str oa)) else explicit_fps p)
  /\ enable_angle_analysis p' = (enable_angle_analysis p || Ascii.eqb c "A")%bool
  /\ angle_count p' = (if Ascii.eqb c "n" then atoi (str oa) else angle_count p)
  /\ use_episodes p' = use_episodes p
  /\ Verbose (effect atof l e) = (Verbose l || Ascii.eqb c "v")%bool.
Proof.
  unfold effect. destruct e as [c oa m a]. cbn [s_opt s_optarg].
  each_char c; destruct oa; destruct (input_specified l) eqn:E;
    cbn; rewrite ?E; cbn; rewrite ?E, ?orb_false_r, ?orb_true_r;
    repeat split; reflexivity.
Qed.

End Members.

Section Folds.
Variable atof : string -> double.

Lemma fold_last {X} (g : locals -> X) (c : ascii) (h : option string -> X) :
  (forall l e, g (effect atof l e) = if Ascii.eqb (s_opt e) c then h (s_optarg e) else g l) ->
  forall es l,
    g (fold_left (effect atof) es l)
    = match last_optarg c es with
      | Some oa => h oa
      | None => g l
      end.
Proof.
  intros H es l. induction es as [|e es IH] using rev_ind; [reflexivity|].
  rewrite fold_left_app, last_optarg_snoc. cbn [fold_left].
  rewrite H. destruct (Ascii.eqb (s_opt e) c); [reflexivity|exact IH].
Qed.

Lemma fold_flag (g : locals -> bool) (c : ascii) :
  (forall l e, g (effect atof l e) = (g l || Ascii.eqb (s_opt e) c)%bool) ->
  forall es l, g (fold_left (effect atof) es l) = (g l || flag_option c es)%bool.
Proof.
  intros H es. induction es as [|e es IH]; intros l; cbn [fold_left flag_option existsb].
  - rewrite orb_false_r. reflexivity.
  - rewrite IH, H, orb_assoc. reflexivity.
Qed.


Lemma last_optarg_cons c e es :
  last_optarg c (e :: es)
  = match last_optarg c es with
    | Some oa => Some oa
    | None => if Ascii.eqb (s_opt e) c then Some (s_optarg e) else None
    end.
Proof.
  induction es as [|e' es IH] using rev_ind.
  - unfold last_optarg. cbn. reflexivity.
  - change (e :: es ++ [e'])%list with ((e :: es) ++ [e'])%list.
    rewrite !last_optarg_snoc. destruct (Ascii.eqb (s_opt e') c); [reflexivity|exact IH].
Qed.

Lemma flag_option_letters c es : flag_option c es = existsb (Ascii.eqb c) (map s_opt es).
Proof.
  unfold flag_option. induction es as [|e es IH]; cbn [existsb map]; [reflexivity|].
  rewrite IH, (Ascii.eqb_sym c). reflexivity.
Qed.

Lemma flag_option_In c es : flag_option c es = true <-> In c (map s_opt es).
Proof.
  rewrite flag_option_letters. split.
  - intros H. apply existsb_exists in H. destruct H as (x & Hin & Hx).
    apply Ascii.eqb_eq in Hx. subst x. exact Hin.
  - intros H. apply existsb_exists. exists c. split; [exact H|apply Ascii.eqb_refl].
Qed.

Lemma last_optarg_flag c es : flag_option c es = false -> last_optarg c es = None.
Proof.
  intros H. apply last_optarg_none. intros Hin. apply flag_option_In in Hin. congruence.
Qed.

(** No checked input source among the options: the members the checked
    sources write stay as they are. *)
Lemma fold_sources_unchanged es :
  forall l,
    existsb is_checked_source (map s_opt es) = false ->
    file_in (params (fold_left (effect atof) es l)) = file_in (params l)
    /\ use_webcam (params (fold_left (effect atof) es l)) = use_webcam (params l)
    /\ webcam_idx (params (fold_left (effect atof) es l)) = webcam_idx (params l)
    /\ flag_option "f" es = false /\ flag_option "W" es = false.
Proof.
  induction es as [|e es IH]; intros l H; cbn [fold_left];
    [repeat split; reflexivity|].
  cbn [map existsb] in H. apply orb_false_elim in H. destruct H as [Hc Hr].
  destruct (IH (effect atof l e) Hr) as (-> & -> & -> & Hf & HW).
  unfold is_checked_source in Hc. apply orb_false_elim in Hc. destruct Hc as [Ef EW].
  destruct (effect_members atof l e)
    as (_ & _ & _ & _ & _ & _ & _ & _ & _ & _ & -> & -> & -> & _).
  cbn [flag_option existsb]. fold (flag_option "f" es). fold (flag_option "W" es).
  rewrite Ef, EW, Hf, HW. cbn. rewrite orb_false_r. repeat split; reflexivity.
Qed.

(** Where no input source is refused, the first input source is the only
    checked one, and it is written as given. *)
Lemma fold_sources es :
  forall l,
    input_specified l = false ->
    conflict_after false (map s_opt es) = false ->
    file_in (params (fold_left (effect atof) es l))
    = match last_optarg "f" es with
      | Some oa => str oa
      | None => file_in (params l)
      end
    /\ use_webcam (params (fold_left (effect atof) es l))
       = (use_webcam (params l) || flag_option "W" es)%bool
    /\ webcam_idx (params (fold_left (effect atof) es l))
       = match last_optarg "W" es with
         | Some (Some a) => atoi a
         | _ => webcam_idx (params l)
         end
    /\ (flag_option "f" es && flag_option "W" es)%bool = false.
Proof.
  induction es as [|e es IH]; intros l Hl H; cbn [fold_left].
  - cbn. rewrite orb_false_r. repeat split; reflexivity.
  - cbn [map conflict_after] in H. rewrite !last_optarg_cons.
    cbn [flag_option existsb]. fold (flag_option "f" es). fold (flag_option "W" es).
    pose proof (effect_members atof l e) as M. cbv zeta in M.
    destruct M as (_ & _ & _ & _ & _ & _ & _ & _ & _ & _ & Mf & Mw & Mi & _).
    rewrite Hl in Mf, Mw, Mi. cbn [negb] in Mf, Mw, Mi. rewrite !andb_true_r in *.
    destruct (is_checked_source (s_opt e)) eqn:Ec.
    + cbn [orb] in H. rewrite conflict_after_true in H.
      destruct (fold_sources_unchanged es (effect atof l e) H) as (-> & -> & -> & Hf & HW).
      rewrite (last_optarg_flag _ _ Hf), (last_optarg_flag _ _ HW), Hf, HW, Mf, Mw, Mi.
      rewrite !orb_false_r.
      unfold is_checked_source in Ec.
      destruct (Ascii.eqb_spec (s_opt e) "f") as [E1|N1];
        destruct (Ascii.eqb_spec (s_opt e) "W") as [E2|N2];
        try (rewrite E1 in E2; discriminate E2); try discriminate Ec;
        repeat split; try reflexivity; destruct (s_optarg e); reflexivity.
    + assert (Ef : Ascii.eqb (s_opt e) "f" = false /\ Ascii.eqb (s_opt e) "W" = false).
      { unfold is_checked_source in Ec. apply orb_false_elim in Ec. exact Ec. }
      destruct Ef as [Ef EW]. rewrite Ef, EW in *. cbn [orb].
      destruct (is_source (s_opt e)) eqn:Es.
      * rewrite conflict_after_true in H.
        destruct (fold_sources_unchanged es (effect atof l e) H) as (-> & -> & -> & Hf & HW).
        rewrite (last_optarg_flag _ _ Hf), (last_optarg_flag _ _ HW), Hf, HW, Mf, Mw, Mi.
        rewrite !orb_false_r. repeat split; reflexivity.
      * assert (Hl' : input_specified (effect atof l e) = false).
        { rewrite effect_input_specified, Hl, Es. reflexivity. }
        destruct (IH (effect atof l e) Hl' H) as (-> & -> & -> & Hx).
        rewrite Mf, Mw, Mi, orb_false_r.
        repeat split; try reflexivity; try exact Hx.
        -- destruct (last_optarg "f" es); reflexivity.
        -- destruct (last_optarg "W" es) as [[a|]|]; reflexivity.
Qed.

End Folds.

(** ** The call of the engine, argument by argument *)

Lemma engine_called atof ord env argv0 args a :
  In (Run a) (fst (main atof ord env argv0 args)) ->
  let p := parsed atof ord argv0 args in
  let ls := letters ord argv0 args in
  has_help ls = false /\ conflict ls = false /\ has_source ls = true
  /\ exists vq wq vt wt vs ws ve we,
       series_read env p vq wq vt wt vs ws ve we
       /\ loads env vq wq vt wt vs ws ve we = true
       /\ a = loaded_call p vq wq vt wt vs ws ve we
       /\ main atof ord env argv0 args = (Stdout start_text :: complete_run p a, Returned 0).
Proof.
  intros Hin. cbv zeta. apply in_calls in Hin. revert Hin.
  destruct (main_cases atof ord env argv0 args)
    as [(l & vq & wq & vt & wt & vs & ws & ve & we & Hj & Hr & Hl & Hm)
       |[(l & vq & wq & vt & wt & vs & ws & ve & we & _ & _ & _ & Hm)|[Hc _]]].
  - rewrite Hm. cbn [fst calls filter is_run_event complete_run].
    intros [Hin|[]]. inversion Hin. subst a.
    destruct (judge_accepted_parsed atof ord argv0 args l Hj) as (Hp & Hh & Hc & Hs & _).
    rewrite <- Hp. repeat split; try assumption.
    exists vq, wq, vt, wt, vs, ws, ve, we. repeat split; assumption.
  - rewrite Hm. intros [].
  - rewrite Hc. intros [].
Qed.

Ltac member M := cbv zeta in M; decompose [and] M; clear M; assumption.

(** The integer members of the configuration. *)
Lemma parsed_integers atof ord argv0 args :
  let es := fst (scan ord argv0 args) in
  let p := parsed atof ord argv0 args in
  frame_count p = int_option "N" 0 es
  /\ frame_offset p = int_option "s" 0 es
  /\ x_off p = int_option "x" 0 es
  /\ y_off p = int_option "y" 0 es
  /\ chunk_length p = int_option "C" 30 es
  /\ rolling_purge p = int_option "G" 0 es
  /\ angle_count p = int_option "n" 8 es.
Proof.
  cbv zeta. unfold parsed, int_option.
  repeat split.
  - apply (fold_last atof (fun l => frame_count (params l)) "N" (fun oa => atoi (str oa))).
    intros l e. pose proof (effect_members atof l e) as M. member M.
  - apply (fold_last atof (fun l => frame_offset (params l)) "s" (fun oa => atoi (str oa))).
    intros l e. pose proof (effect_members atof l e) as M. member M.
  - apply (fold_last atof (fun l => x_off (params l)) "x" (fun oa => atoi (str oa))).
    intros l e. pose proof (effect_members atof l e) as M. member M.
  - apply (fold_last atof (fun l => y_off (params l)) "y" (fun oa => atoi (str oa))).
    intros l e. pose proof (effect_members atof l e) as M. member M.
  - apply (fold_last atof (fun l => chunk_length (params l)) "C" (fun oa => atoi (str oa))).
    intros l e. pose proof (effect_members atof l e) as M. member M.
  - apply (fold_last atof (fun l => rolling_purge (params l)) "G" (fun oa => atoi (str oa))).
    intros l e. pose proof (effect_members atof l e) as M. member M.
  - apply (fold_last atof (fun l => angle_count (params l)) "n" (fun oa => atoi (str oa))).
    intros l e. pose proof (effect_members atof l e) as M. member M.
Qed.

(** X1.  Whenever the engine is called, each of its integer parameters is
    what [atoi] reads from the argument of the last occurrence of its
    option, and the default of the configuration record when the option
    does not occur: 0 for the frame count, the frame offset, the two pixel
    offsets and the purge interval, 30 for the chunk length and 8 for the
    angle count. *)
Theorem integer_options_last_wins (atof : string -> double) (ord : ordering)
    (env : environment) (argv0 : string) (args : list string) (a : runDDM_args) :
  In (Run a) (fst (main atof ord env argv0 args)) ->
  let es := fst (scan ord argv0 args) in
  arg_frame_count a = int_option "N" 0 es
  /\ arg_frame_offset a = int_option "s" 0 es
  /\ arg_x_off a = int_option "x" 0 es
  /\ arg_y_off a = int_option "y" 0 es
  /\ arg_chunk_frame_count a = int_option "C" 30 es
  /\ arg_dump_accum_after a = int_option "G" 0 es
  /\ arg_angle_count a = int_option "n" 8 es.
Proof.
  intros Hin es. destruct (engine_called _ _ _ _ _ _ Hin) as (_ & _ & _ & H).
  destruct H as (vq & wq & vt & wt & vs & ws & ve & we & _ & _ & -> & _).
  cbn [loaded_call engine_call arg_frame_count arg_frame_offset arg_x_off arg_y_off
       arg_chunk_frame_count arg_dump_accum_after arg_angle_count].
  exact (parsed_integers atof ord argv0 args).
Qed.

(** The call of the engine in a concrete run, by evaluation. *)
Ltac find_call :=
  vm_compute; eexists; do 5 right; left; reflexivity.

(** X1 on [-N 5 -x 3 -N 7 -C 12]: the second [-N] counts. *)
Lemma integer_options_witness :
  exists a,
    In (Run a) (fst (main no_atof PERMUTE scenario_files "ddm"
                       (benchmark_run ["-N"; "5"; "-x"; "3"; "-N"; "7"; "-C"; "12"])))
    /\ arg_frame_count a = 7 /\ arg_x_off a = 3 /\ arg_chunk_frame_count a = 12
    /\ arg_angle_count a = 8.
Proof.
  assert (H : exists a,
             In (Run a) (fst (main no_atof PERMUTE scenario_files "ddm"
                                (benchmark_run ["-N"; "5"; "-x"; "3"; "-N"; "7"; "-C"; "12"]))))
    by find_call.
  destruct H as [a Ha]. exists a. split; [exact Ha|].
  destruct (integer_options_last_wins _ _ _ _ _ _ Ha) as (H1 & _ & H3 & _ & H5 & _ & H7).
  rewrite H1, H3, H5, H7. vm_compute. repeat split; reflexivity.
Defined.

Lemma filter_opens p a :
  filter is_open_event (Stdout start_text :: complete_run p a)
  = [Open (q_file_name p) true; Open (t_file_name p) true;
     Open (s_file_name p) true; Open (e_file_name p) true].
Proof. reflexivity. Qed.

(** X2.  Whenever the engine is called, the output path it is given is the
    argument of the last [-o], and the empty path when there is no [-o];
    the four files that were opened, in this order, are those named by the
    last [-Q], the last [-T], the last [-S] and the last [-E]. *)
Theorem path_options_last_wins (atof : string -> double) (ord : ordering)
    (env : environment) (argv0 : string) (args : list string) (a : runDDM_args) :
  In (Run a) (fst (main atof ord env argv0 args)) ->
  let es := fst (scan ord argv0 args) in
  arg_file_out a = path_option "o" es
  /\ filter is_open_event (fst (main atof ord env argv0 args))
     = [Open (path_option "Q" es) true; Open (path_option "T" es) true;
        Open (path_option "S" es) true; Open (path_option "E" es) true].
Proof.
  intros Hin es. destruct (engine_called _ _ _ _ _ _ Hin) as (_ & _ & _ & H).
  destruct H as (vq & wq & vt & wt & vs & ws & ve & we & _ & _ & Ha & ->).
  cbn [fst]. rewrite filter_opens. subst a. cbn [loaded_call engine_call arg_file_out].
  unfold parsed, path_option. fold es.
  rewrite (fold_last atof (fun l => file_out (params l)) "o" str)
    by (intros l e; pose proof (effect_members atof l e) as M; member M).
  rewrite (fold_last atof (fun l => q_file_name (params l)) "Q" str)
    by (intros l e; pose proof (effect_members atof l e) as M; member M).
  rewrite (fold_last atof (fun l => t_file_name (params l)) "T" str)
    by (intros l e; pose proof (effect_members atof l e) as M; member M).
  rewrite (fold_last atof (fun l => s_file_name (params l)) "S" str)
    by (intros l e; pose proof (effect_members atof l e) as M; member M).
  rewrite (fold_last atof (fun l => e_file_name (params l)) "E" str)
    by (intros l e; pose proof (effect_members atof l e) as M; member M).
  split; reflexivity.
Qed.

(** X2 on [-o a.bin -Q none.txt -o b.bin] in front of the scenario's
    options: the second [-o] and the second [-Q] count. *)
Lemma path_options_witness :
  let args := benchmark_run ["-o"; "a.bin"; "-Q"; "none.txt"; "-o"; "b.bin"] in
  let m := main no_atof PERMUTE scenario_files "ddm" args in
  exists a,
    In (Run a) (fst m)
    /\ arg_file_out a = "b.bin"
    /\ filter is_open_event (fst m)
       = [Open "q.txt" true; Open "t.txt" true; Open "s.txt" true; Open "e.txt" true].
Proof.
  cbv zeta.
  assert (H : exists a,
             In (Run a) (fst (main no_atof PERMUTE scenario_files "ddm"
                                (benchmark_run ["-o"; "a.bin"; "-Q"; "none.txt"; "-o"; "b.bin"]))))
    by find_call.
  destruct H as [a Ha]. exists a. split; [exact Ha|].
  destruct (path_options_last_wins _ _ _ _ _ _ Ha) as (H1 & H2).
  rewrite H1, H2. vm_compute. split; reflexivity.
Defined.

(** X3.  Whenever the engine is called, each of its flags that an option
    switches on is true exactly when that option occurs: [-I], [-M], [-A],
    [-B], [-F].  The forced frame rate is what [atof] reads from the
    argument of the last [-F], rounded to single precision, and 1 when
    there is no [-F].  No option switches a flag off: multi-stream
    execution, which is on from the start, is on in every call. *)
Theorem flag_options (atof : string -> double) (ord : ordering)
    (env : environment) (argv0 : string) (args : list string) (a : runDDM_args) :
  In (Run a) (fst (main atof ord env argv0 args)) ->
  let es := fst (scan ord argv0 args) in
  arg_use_index_fps a = flag_option "I" es
  /\ arg_use_movie_file a = flag_option "M" es
  /\ arg_enable_angle_analysis a = flag_option "A" es
  /\ arg_benchmark_mode a = flag_option "B" es
  /\ arg_use_explicit_fps a = flag_option "F" es
  /\ arg_explicit_fps a
     = match last_optarg "F" es with
       | Some fps => double_to_float (atof (str fps))
       | None => int_to_float 1
       end
  /\ arg_multistream a = true.
Proof.
  intros Hin es. destruct (engine_called _ _ _ _ _ _ Hin) as (_ & _ & _ & H).
  destruct H as (vq & wq & vt & wt & vs & ws & ve & we & _ & _ & -> & _).
  cbn [loaded_call engine_call arg_use_index_fps arg_use_movie_file arg_enable_angle_analysis
       arg_benchmark_mode arg_use_explicit_fps arg_explicit_fps arg_multistream].
  unfold parsed. fold es. rewrite fold_multi_stream.
  rewrite (fold_flag atof (fun l => use_index_fps (params l)) "I")
    by (intros l e; pose proof (effect_members atof l e) as M; member M).
  rewrite (fold_flag atof (fun l => use_movie_file (params l)) "M")
    by (intros l e; pose proof (effect_members atof l e) as M; member M).
  rewrite (fold_flag atof (fun l => enable_angle_analysis (params l)) "A")
    by (intros l e; pose proof (effect_members atof l e) as M; member M).
  rewrite (fold_flag atof (fun l => benchmark_mode (params l)) "B")
    by (intros l e; pose proof (effect_members atof l e) as M; member M).
  rewrite (fold_flag atof (fun l => use_explicit_fps (params l)) "F")
    by (intros l e; pose proof (effect_members atof l e) as M; member M).
  rewrite (fold_last atof (fun l => explicit_fps (params l)) "F"
             (fun oa => double_to_float (atof (str oa))))
    by (intros l e; pose proof (effect_members atof l e) as M; member M).
  repeat split.
Qed.

(** X3 on [-I -F 25]. *)
Lemma flag_options_witness :
  exists a,
    In (Run a) (fst (main (fun _ => int_to_double 25) PERMUTE scenario_files "ddm"
                       (benchmark_run ["-I"; "-F"; "25"])))
    /\ arg_use_index_fps a = true /\ arg_use_movie_file a = false
    /\ arg_benchmark_mode a = true /\ arg_use_explicit_fps a = true
    /\ arg_explicit_fps a = int_to_float 25.
Proof.
  assert (H : exists a,
             In (Run a) (fst (main (fun _ => int_to_double 25) PERMUTE scenario_files "ddm"
                                (benchmark_run ["-I"; "-F"; "25"]))))
    by find_call.
  destruct H as [a Ha]. exists a. split; [exact Ha|].
  destruct (flag_options _ _ _ _ _ _ Ha) as (H1 & H2 & _ & H4 & H5 & H6 & _).
  rewrite H1, H2, H4, H5, H6. vm_compute. repeat split; reflexivity.
Defined.

Lemma conflict_after_count ls :
  forall seen,
    conflict_after seen ls = false ->
    (length (checked_sources ls) <= (if seen then 0 else 1))%nat.
Proof.
  unfold checked_sources.
  induction ls as [|c r IH]; intros seen H; cbn [filter length conflict_after] in *.
  - destruct seen; lia.
  - destruct (is_checked_source c) eqn:Ec.
    + apply orb_false_elim in H. destruct H as [-> H]. cbn [length].
      specialize (IH true H). cbn iota in IH. lia.
    + destruct (is_source c).
      * specialize (IH true H). cbn iota in IH. destruct seen; lia.
      * exact (IH seen H).
Qed.

Lemma has_source_letters ls :
  has_source ls = true -> In "f"%char ls \/ In "W"%char ls \/ In "B"%char ls.
Proof.
  intros H. apply existsb_exists in H. destruct H as (c & Hin & Hc).
  unfold is_source in Hc. apply orb_true_iff in Hc. destruct Hc as [Hc|Hc].
  - apply orb_true_iff in Hc. destruct Hc as [Hc|Hc]; apply Ascii.eqb_eq in Hc; subst c; auto.
  - apply Ascii.eqb_eq in Hc. subst c. auto.
Qed.

(** X4.  Whenever the engine is called, at most one of the checked input
    sources [-f] and [-W] was given, and at most once.  The input path is
    the argument of that [-f], the webcam flag is set exactly when [-W] was
    given; the engine never gets the webcam flag together with an input
    path.  When neither the webcam flag nor the benchmark flag is set, an
    [-f] was given. *)
Theorem input_sources_exclude (atof : string -> double) (ord : ordering)
    (env : environment) (argv0 : string) (args : list string) (a : runDDM_args) :
  In (Run a) (fst (main atof ord env argv0 args)) ->
  let es := fst (scan ord argv0 args) in
  let ls := letters ord argv0 args in
  (length (checked_sources ls) <= 1)%nat
  /\ arg_file_in a = path_option "f" es
  /\ arg_use_webcam a = flag_option "W" es
  /\ (arg_use_webcam a = true -> arg_file_in a = "" /\ ~ In "f"%char ls)
  /\ (arg_use_webcam a = false -> arg_benchmark_mode a = false -> In "f"%char ls).
Proof.
  intros Hin. destruct (engine_called _ _ _ _ _ _ Hin) as (_ & Hc & Hs & H).
  destruct H as (vq & wq & vt & wt & vs & ws & ve & we & _ & _ & -> & _).
  cbv zeta. cbn [loaded_call engine_call arg_file_in arg_use_webcam arg_benchmark_mode].
  unfold parsed. unfold letters in *.
  set (es := fst (scan ord argv0 args)) in *. set (ls := map s_opt es) in *.
  destruct (fold_sources atof es initial_locals eq_refl Hc) as (Hf & Hw & _ & Hx).
  cbn [initial_locals params initial_params file_in use_webcam orb] in Hf, Hw.
  split; [apply (conflict_after_count ls false Hc)|].
  split; [exact Hf|]. split; [exact Hw|]. split.
  - intros HW. rewrite Hw in HW. rewrite HW, andb_true_r in Hx.
    split.
    + rewrite Hf, (last_optarg_flag _ _ Hx). reflexivity.
    + intros Hin'. apply flag_option_In in Hin'. congruence.
  - intros HW HB. destruct (has_source_letters ls Hs) as [H|[H|H]]; [exact H| |].
    + apply flag_option_In in H. congruence.
    + apply flag_option_In in H.
      rewrite (fold_flag atof (fun l => benchmark_mode (params l)) "B") in HB
        by (intros l e; pose proof (effect_members atof l e) as M; member M).
      cbn [initial_locals params initial_params benchmark_mode orb] in HB. congruence.
Qed.

(** X4 on [-W2] before the benchmark flag. *)
Lemma input_sources_witness :
  exists a,
    In (Run a) (fst (main no_atof PERMUTE scenario_files "ddm" (benchmark_run ["-W2"])))
    /\ arg_use_webcam a = true /\ arg_file_in a = "".
Proof.
  assert (H : exists a,
             In (Run a) (fst (main no_atof PERMUTE scenario_files "ddm"
                                (benchmark_run ["-W2"]))))
    by find_call.
  destruct H as [a Ha]. exists a. split; [exact Ha|].
  destruct (input_sources_exclude _ _ _ _ _ _ Ha) as (_ & _ & H3 & H4 & _).
  assert (HW : arg_use_webcam a = true) by (rewrite H3; vm_compute; reflexivity).
  split; [exact HW|]. apply H4. exact HW.
Defined.

(** ** What [getopt] reports, call by call *)

Section Calls.
Variables (ord : ordering) (argv0 : string).

(** Every reported option is the result of one call of [getopt]. *)
Lemma scanned_call fuel :
  forall d es fin,
    getopt_run ord argv0 fuel d = (es, fin) ->
    forall e, In e es ->
      exists d',
        opt_char (getopt ord argv0 optstring d') = Some (s_opt e)
        /\ optarg (getopt ord argv0 optstring d') = s_optarg e
        /\ message (getopt ord argv0 optstring d') = s_message e
        /\ after (getopt ord argv0 optstring d') = s_after e.
Proof.
  induction fuel as [|fuel IH]; intros d es fin H e Hin; cbn [getopt_run] in H.
  - inversion H. subst. destruct Hin.
  - destruct (opt_char (getopt ord argv0 optstring d)) as [c|] eqn:E.
    + destruct (getopt_run ord argv0 fuel (after (getopt ord argv0 optstring d)))
        as [es' fin'] eqn:Er.
      inversion H. subst. destruct Hin as [<-|Hin].
      * exists d. cbn [s_opt s_optarg s_message s_after]. repeat split. exact E.
      * eapply IH; eassumption.
    + inversion H. subst. destruct Hin.
Qed.

Lemma reads_optarg_required c :
  reads_optarg c = true -> find_option c optstring = Some required_argument.
Proof. each_char c; intros H; try discriminate H; reflexivity. Qed.

(** The diagnostic of a call: none for an option [getopt] accepts, one
    for an option it rejects. *)
Lemma take_option_message c nc r n :
  let g := take_option argv0 optstring c nc r n in
  (opt_char g = Some "?"%char /\ exists x, message g = [x] /\ In x (getopt_diagnostics argv0 c))
  \/ (opt_char g = Some c /\ c <> "?"%char /\ message g = []).
Proof.
  cbv zeta. unfold take_option.
  assert (Hq : find_option c optstring <> None -> c <> "?"%char).
  { intros H ->. apply H. reflexivity. }
  destruct (find_option c optstring) as [[| |]|] eqn:E.
  - right. repeat split. apply Hq. discriminate.
  - destruct nc as [|x nc]; [destruct r as [|a r]|].
    + left. split; [reflexivity|]. eexists. split; [reflexivity|]. right. left. reflexivity.
    + right. repeat split. apply Hq. discriminate.
    + right. repeat split. apply Hq. discriminate.
  - destruct nc as [|x nc]; right; repeat split; apply Hq; discriminate.
  - left. split; [reflexivity|]. eexists. split; [reflexivity|]. left. reflexivity.
Qed.

Lemma getopt_message d c :
  opt_char (getopt ord argv0 optstring d) = Some c ->
  (c = "?"%char
   /\ exists x o, message (getopt ord argv0 optstring d) = [x]
                  /\ In x (getopt_diagnostics argv0 o))
  \/ (c <> "?"%char /\ message (getopt ord argv0 optstring d) = []).
Proof.
  destruct (getopt_cases ord argv0 d) as [(n & r & ->)|(x & nc & r & n & -> & _)].
  - discriminate.
  - destruct (take_option_message x nc r n) as [(E & y & Hm & Hy)|(E & Hq & Hm)];
      rewrite E; intros H; inversion H; subst c.
    + left. split; [reflexivity|]. exists y, x. split; assumption.
    + right. split; assumption.
Qed.

End Calls.

(** X5.  [main] never reads a null [optarg]: for every option [getopt]
    reports whose case hands [optarg] to [atoi], to [atof] or to a string
    without testing it, [optarg] points to an argument.  (The case of
    [-W], whose argument is optional, tests it.) *)
Theorem optarg_is_never_null (ord : ordering) (argv0 : string) (args : list string)
    (e : scanned) :
  In e (fst (scan ord argv0 args)) -> reads_optarg (s_opt e) = true ->
  s_optarg e <> None.
Proof.
  intros Hin Hr. unfold scan in Hin.
  destruct (getopt_run ord argv0 (S (weight (initial args))) (initial args))
    as [es fin] eqn:E.
  destruct (scanned_call ord argv0 _ _ _ _ E e Hin) as (d & Hc & <- & _).
  eapply getopt_required_optarg; [exact Hc|]. apply reads_optarg_required. exact Hr.
Qed.

(** X5 on [-N] as the last argument: [getopt] reports [?], not [N]. *)
Lemma optarg_witness :
  let e := {| s_opt := "N"; s_optarg := Some "7"; s_message := [];
              s_after := {| nextchar := ""; rest := ["-N"]; nonopts := [] |} |} in
  In e (fst (scan PERMUTE "ddm" ["-N"; "7"; "-N"]))
  /\ map s_opt (fst (scan PERMUTE "ddm" ["-N"; "7"; "-N"])) = ["N"; "?"]%char
  /\ s_optarg e <> None.
Proof.
  cbv zeta. split; [vm_compute; left; reflexivity|].
  split; [vm_compute; reflexivity|].
  apply (optarg_is_never_null PERMUTE "ddm" ["-N"; "7"; "-N"]).
  - vm_compute. left. reflexivity.
  - reflexivity.
Defined.

(** ** The shapes of a run *)

Lemma first_unopened_text env p text :
  first_unopened env p = Some text -> In text open_errors.
Proof.
  unfold first_unopened, open_errors.
  destruct (opened env (q_file_name p)), (opened env (t_file_name p)),
    (opened env (s_file_name p)), (opened env (e_file_name p));
    cbn; intros H; inversion H; auto 6.
Qed.

(** Every run of [main] has one of seven shapes. *)
Lemma main_shapes atof ord env argv0 args :
  let m := main atof ord env argv0 args in
  let p := parsed atof ord argv0 args in
  (exists vq wq vt wt vs ws ve we,
      series_read env p vq wq vt wt vs ws ve we
      /\ loads env vq wq vt wt vs ws ve we = true
      /\ m = (Stdout start_text
                :: complete_run p (loaded_call p vq wq vt wt vs ws ve we),
              Returned 0))
  \/ (exists vq wq vt wt vs ws ve we,
         series_read env p vq wq vt wt vs ws ve we
         /\ loads env vq wq vt wt vs ws ve we = false
         /\ m = (Stdout start_text :: all_opened p, Undefined))
  \/ (exists text,
        first_unopened env p = Some text
        /\ m = (Stdout start_text :: (opens env p ++ [Stderr (error_line text)])%list,
                Exited EXIT_FAILURE))
  \/ (exists e,
        In e (fst (scan ord argv0 args)) /\ is_help (s_opt e) = true
        /\ m = (Stdout start_text :: (map Stderr (s_message e) ++ [Stderr help_text])%list,
                Returned (-1)))
  \/ m = ([Stdout start_text; Stderr conflict_message], Exited EXIT_FAILURE)
  \/ m = ([Stdout start_text; Stderr help_text; Stderr unexpected_message],
          Exited EXIT_FAILURE)
  \/ m = ([Stdout start_text; Stderr no_input_message], Exited EXIT_FAILURE).
Proof.
  cbv zeta. rewrite main_judge.
  pose proof (judge_cases atof ord argv0 args) as Hj. cbv zeta in Hj.
  destruct (judge atof ord argv0 args) as [l|e| | |] eqn:E.
  - destruct (judge_accepted_parsed atof ord argv0 args l E) as (Hp & _).
    rewrite Hp.
    destruct (first_unopened env (parsed atof ord argv0 args)) as [text|] eqn:Ef.
    + right. right. left. exists text. split; [reflexivity|].
      rewrite (series_and_run_unopened env _ text Ef). reflexivity.
    + destruct (series_and_run_opened env _ Ef)
        as (vq & wq & vt & wt & vs & ws & ve & we & Hr & ->).
      unfold loaded_run.
      destruct (loads env vq wq vt wt vs ws ve we) eqn:El; [left|right; left];
        exists vq, wq, vt, wt, vs, ws, ve, we; repeat split; assumption.
  - do 3 right. left. exists e. destruct Hj as [Hin He]. repeat split; assumption.
  - do 4 right. left. reflexivity.
  - do 5 right. left. reflexivity.
  - do 6 right. reflexivity.
Qed.

Lemma stdout_of_app a b : stdout_of (a ++ b) = (stdout_of a ++ stdout_of b)%list.
Proof. apply flat_map_app. Qed.

Lemma stderr_of_app a b : stderr_of (a ++ b) = (stderr_of a ++ stderr_of b)%list.
Proof. apply flat_map_app. Qed.

Lemma stdout_of_stderr ms : stdout_of (map Stderr ms) = [].
Proof. induction ms as [|x ms IH]; [reflexivity|exact IH]. Qed.

Lemma stderr_of_stderr ms : stderr_of (map Stderr ms) = ms.
Proof. induction ms as [|x ms IH]; [reflexivity|]. cbn. f_equal. exact IH. Qed.

Lemma file_events_stderr ms : file_events (map Stderr ms) = [].
Proof. induction ms as [|x ms IH]; [reflexivity|exact IH]. Qed.

Lemma file_events_app a b : file_events (a ++ b) = (file_events a ++ file_events b)%list.
Proof. apply filter_app. Qed.

(** X6.  Every run of [main] starts by writing [DDM Start] to [stdout] and
    ends in one of three ways.  Either [main] returns 0: then the four
    files were opened and read, the arrays could be counted and had room,
    the engine was called exactly once, [stdout] holds the two lines [DDM
    Start] and [DDM End], and nothing was written to [stderr].  Or [main]
    returns -1 or the process exits with [EXIT_FAILURE]: then the engine was
    not called, [stdout] holds [DDM Start] alone, and [stderr] tells why.
    Or the behaviour is undefined: this happens only after the four files
    were opened, when a series has more values than an [int] can count, the
    four arrays have no room on the stack, or a file gives more values to
    the second pass than it gave to the first, so that a store would go
    outside an array; the engine was not called and nothing was written
    after [DDM Start].  [main] never runs forever. *)
Theorem exit_status_and_output (atof : string -> double) (ord : ordering)
    (env : environment) (argv0 : string) (args : list string) :
  let m := main atof ord env argv0 args in
  let p := parsed atof ord argv0 args in
  hd_error (fst m) = Some (Stdout start_text)
  /\ ((snd m = Returned 0
       /\ (exists vq wq vt wt vs ws ve we,
              series_read env p vq wq vt wt vs ws ve we
              /\ loads env vq wq vt wt vs ws ve we = true
              /\ calls (fst m) = [Run (loaded_call p vq wq vt wt vs ws ve we)])
       /\ stdout_of (fst m) = [start_text; end_text]
       /\ stderr_of (fst m) = [])
      \/ ((snd m = Returned (-1) \/ snd m = Exited EXIT_FAILURE)
          /\ calls (fst m) = []
          /\ stdout_of (fst m) = [start_text]
          /\ stderr_of (fst m) <> [])
      \/ (snd m = Undefined
          /\ (exists vq wq vt wt vs ws ve we,
                 series_read env p vq wq vt wt vs ws ve we
                 /\ loads env vq wq vt wt vs ws ve we = false)
          /\ calls (fst m) = []
          /\ stdout_of (fst m) = [start_text]
          /\ stderr_of (fst m) = [])).
Proof.
  cbv zeta.
  destruct (main_shapes atof ord env argv0 args)
    as [(vq & wq & vt & wt & vs & ws & ve & we & Hr & Hl & Hm)
       |[(vq & wq & vt & wt & vs & ws & ve & we & Hr & Hl & Hm)
        |[(text & _ & Hm)|[(e & _ & _ & Hm)|[Hm|[Hm|Hm]]]]]];
    rewrite Hm; cbn [fst snd hd_error]; (split; [reflexivity|]).
  - left. split; [reflexivity|]. split; [|split; reflexivity].
    exists vq, wq, vt, wt, vs, ws, ve, we. repeat split; assumption.
  - right. right. split; [reflexivity|]. split; [|repeat split].
    exists vq, wq, vt, wt, vs, ws, ve, we. split; assumption.
  - right. left. split; [right; reflexivity|].
    split; [reflexivity|].
    split; [reflexivity|]. discriminate.
  - right. left. split; [left; reflexivity|].
    split; [apply calls_help_exit|].
    change (Stdout start_text :: (map Stderr (s_message e) ++ [Stderr help_text])%list)
      with ([Stdout start_text] ++ (map Stderr (s_message e) ++ [Stderr help_text]))%list.
    rewrite stdout_of_app, stdout_of_app, stdout_of_stderr, !stderr_of_app, stderr_of_stderr.
    split; [reflexivity|]. cbn. destruct (s_message e); discriminate.
  - right. left. split; [right; reflexivity|]. repeat split. discriminate.
  - right. left. split; [right; reflexivity|]. repeat split. discriminate.
  - right. left. split; [right; reflexivity|]. repeat split. discriminate.
Qed.

(** X7.  What [main] writes to [stderr], by the way it ends.  When it
    returns 0, nothing.  When it returns -1: the help text, after the one
    diagnostic of [getopt] when an option was rejected.  When the process
    exits: one [[Error]] line, which is the last thing written, for a
    refused second input source, for a left-over argument (after the help
    text), for a missing input source, or for the first series file that
    could not be opened.  When the behaviour becomes undefined during the
    loading of the series, nothing was written before. *)
Theorem stderr_by_ending (atof : string -> double) (ord : ordering)
    (env : environment) (argv0 : string) (args : list string) :
  let m := main atof ord env argv0 args in
  let err := stderr_of (fst m) in
  (snd m = Returned 0 /\ err = [])
  \/ (snd m = Returned (-1)
      /\ (err = [help_text]
          \/ exists c x, In x (getopt_diagnostics argv0 c) /\ err = [x; help_text]))
  \/ (snd m = Exited EXIT_FAILURE
      /\ (err = [error_line conflict_text]
          \/ err = [help_text; error_line "An unexpected option was found."]
          \/ err = [error_line "Must specify input."]
          \/ exists text, In text open_errors /\ err = [error_line text]))
  \/ (snd m = Undefined /\ err = []).
Proof.
  cbv zeta.
  destruct (main_shapes atof ord env argv0 args)
    as [(vq & wq & vt & wt & vs & ws & ve & we & _ & _ & Hm)
       |[(vq & wq & vt & wt & vs & ws & ve & we & _ & _ & Hm)
        |[(text & Hf & Hm)|[(e & Hin & He & Hm)|[Hm|[Hm|Hm]]]]]];
    rewrite Hm; cbn [fst snd].
  - left. split; reflexivity.
  - do 3 right. split; reflexivity.
  - right. right. left. split; [reflexivity|]. do 3 right. exists text.
    split; [eapply first_unopened_text; eassumption|]. reflexivity.
  - right. left. split; [reflexivity|].
    change (Stdout start_text :: (map Stderr (s_message e) ++ [Stderr help_text])%list)
      with ([Stdout start_text] ++ (map Stderr (s_message e) ++ [Stderr help_text]))%list.
    rewrite !stderr_of_app, stderr_of_stderr. cbn [stderr_of flat_map app].
    unfold scan in Hin.
    destruct (getopt_run ord argv0 (S (weight (initial args))) (initial args))
      as [es fin] eqn:E.
    destruct (scanned_call ord argv0 _ _ _ _ E e Hin) as (d & Hc & _ & Hd & _).
    destruct (getopt_message ord argv0 d _ Hc) as [(_ & x & o & Hx & Ho)|(_ & Hx)];
      rewrite <- Hd, Hx.
    + right. exists o, x. split; [exact Ho|reflexivity].
    + left. reflexivity.
  - right. right. left. split; [reflexivity|]. left. reflexivity.
  - right. right. left. split; [reflexivity|]. right. left. reflexivity.
  - right. right. left. split; [reflexivity|]. right. right. left. reflexivity.
Qed.

Lemma file_events_complete_run p a :
  file_events (Stdout start_text :: complete_run p a)
  = (map (fun n => Open n true) (series_paths p) ++ map Close (series_paths p))%list.
Proof. reflexivity. Qed.

Lemma file_events_opens env p tail :
  file_events tail = [] ->
  file_events (Stdout start_text :: (opens env p ++ tail)%list) = opens env p.
Proof.
  intros H. cbn [file_events filter is_file_event]. fold (file_events (opens env p ++ tail)).
  rewrite file_events_app, H, app_nil_r. reflexivity.
Qed.

(** X8.  The files [main] touches.  No file is opened before the options
    have passed every check.  Then the four series files named by the
    options are opened, in the order lambda, tau, scale, episode, all four
    even when one of the first fails.  They are closed, in the same order,
    only when all four were opened and the engine has returned; when one of
    them cannot be opened, the process exits without closing the others,
    and when the behaviour becomes undefined during the loading, the four
    were opened and none was closed.  [main] opens no other file: the input
    and output paths are only handed to the engine. *)
Theorem files_touched (atof : string -> double) (ord : ordering)
    (env : environment) (argv0 : string) (args : list string) :
  let m := main atof ord env argv0 args in
  let p := parsed atof ord argv0 args in
  (snd m = Returned 0
   /\ file_events (fst m)
      = (map (fun n => Open n true) (series_paths p) ++ map Close (series_paths p))%list)
  \/ (snd m = Exited EXIT_FAILURE
      /\ first_unopened env p <> None
      /\ file_events (fst m) = opens env p)
  \/ (snd m = Undefined
      /\ first_unopened env p = None
      /\ file_events (fst m) = map (fun n => Open n true) (series_paths p))
  \/ (snd m <> Returned 0 /\ snd m <> Undefined /\ file_events (fst m) = []).
Proof.
  cbv zeta.
  destruct (main_shapes atof ord env argv0 args)
    as [(vq & wq & vt & wt & vs & ws & ve & we & _ & _ & Hm)
       |[(vq & wq & vt & wt & vs & ws & ve & we & Hr & _ & Hm)
        |[(text & Hf & Hm)|[(e & _ & _ & Hm)|[Hm|[Hm|Hm]]]]]];
    rewrite Hm; cbn [fst snd].
  - left. split; [reflexivity|]. apply file_events_complete_run.
  - right. right. left. split; [reflexivity|].
    split; [eapply series_read_opened; eassumption|reflexivity].
  - right. left. split; [reflexivity|]. split; [congruence|].
    apply file_events_opens. reflexivity.
  - do 3 right. split; [discriminate|]. split; [discriminate|].
    cbn [file_events filter is_file_event].
    fold (file_events (map Stderr (s_message e) ++ [Stderr help_text])).
    rewrite file_events_app, file_events_stderr. reflexivity.
  - do 3 right. split; [discriminate|]. split; [discriminate|reflexivity].
  - do 3 right. split; [discriminate|]. split; [discriminate|reflexivity].
  - do 3 right. split; [discriminate|]. split; [discriminate|reflexivity].
Qed.

(** ** The numbers handed to the engine *)

Section NotNaN.
Variables prec emax : Z.

Lemma shr_1_nonneg mrs : 0 <= shr_m mrs -> 0 <= shr_m (shr_1 mrs).
Proof. destruct mrs as [m r s]. destruct m as [|[p|p|]|[p|p|]]; cbn; lia. Qed.

Lemma iter_shr_nonneg p : forall mrs, 0 <= shr_m mrs -> 0 <= shr_m (iter_pos shr_1 p mrs).
Proof.
  induction p as [p IH|p IH|]; intros mrs H; cbn [iter_pos].
  - apply IH, IH, shr_1_nonneg, H.
  - apply IH, IH, H.
  - apply shr_1_nonneg, H.
Qed.

Lemma shr_fexp_nonneg m e l : 0 <= m -> 0 <= shr_m (fst (shr_fexp prec emax m e l)).
Proof.
  intros H. unfold shr_fexp, shr.
  assert (H0 : 0 <= shr_m (shr_record_of_loc m l)) by (destruct l as [|[| |]]; exact H).
  destruct (fexp prec emax (Zdigits2 m + e) - e) as [|p|p]; cbn [fst]; try exact H0.
  apply iter_shr_nonneg, H0.
Qed.

Lemma round_nearest_even_nonneg mx lx : 0 <= mx -> 0 <= round_nearest_even mx lx.
Proof.
  intros H. destruct lx as [|[| |]]; cbn [round_nearest_even]; try lia.
  destruct (Z.even mx); lia.
Qed.

Lemma binary_round_aux_not_nan sx mx ex lx :
  0 <= mx -> binary_round_aux prec emax sx mx ex lx <> S754_nan.
Proof.
  intros H. unfold binary_round_aux.
  pose proof (shr_fexp_nonneg mx ex lx H) as H1.
  destruct (shr_fexp prec emax mx ex lx) as [mrs' e']. cbn [fst] in H1.
  pose proof (shr_fexp_nonneg (round_nearest_even (shr_m mrs') (loc_of_shr_record mrs'))
                e' loc_Exact (round_nearest_even_nonneg _ _ H1)) as H2.
  destruct (shr_fexp prec emax (round_nearest_even (shr_m mrs') (loc_of_shr_record mrs'))
              e' loc_Exact) as [mrs'' e'']. cbn [fst] in H2.
  destruct (shr_m mrs'') as [|m|m]; [discriminate| |lia].
  destruct (e'' <=? emax - prec); discriminate.
Qed.

Lemma binary_normalize_not_nan m e sz : binary_normalize prec emax m e sz <> S754_nan.
Proof.
  unfold binary_normalize, binary_round.
  destruct m as [|m|m]; [discriminate| |].
  - destruct (shl_align m e (fexp prec emax (Z.pos (digits2_pos m) + e))) as [mz ez].
    apply binary_round_aux_not_nan. lia.
  - destruct (shl_align m e (fexp prec emax (Z.pos (digits2_pos m) + e))) as [mz ez].
    apply binary_round_aux_not_nan. lia.
Qed.

Lemma SFdiv_core_nonneg m1 e1 m2 e2 :
  0 <= m1 -> 0 < m2 -> 0 <= fst (fst (SFdiv_core_binary prec emax m1 e1 m2 e2)).
Proof.
  intros H1 H2. unfold SFdiv_core_binary.
  set (s := e1 - e2 - Z.min (fexp prec emax (Zdigits2 m1 + e1 - (Zdigits2 m2 + e2))) (e1 - e2)).
  set (m' := match s with Z.pos _ => Z.shiftl m1 s | 0 => m1 | Z.neg _ => 0 end).
  assert (Hm : 0 <= m').
  { unfold m'. destruct s; try lia. apply Z.shiftl_nonneg. exact H1. }
  pose proof (Z.div_eucl_eq m' m2) as Hd.
  pose proof (Z.mod_pos_bound m' m2 H2) as Hb. unfold Z.modulo in Hb.
  destruct (Z.div_eucl m' m2) as [q r]. cbn [fst].
  specialize (Hd ltac:(lia)). nia.
Qed.

Lemma decimal_not_nan neg m e : 0 <= m -> decimal prec emax neg m e <> S754_nan.
Proof.
  intros H. unfold decimal. destruct m as [|p|p]; [discriminate| |lia].
  destruct e as [|k|k]; try apply binary_normalize_not_nan.
  pose proof (SFdiv_core_nonneg (Z.pos p) 0 (10 ^ Z.pos k) 0 ltac:(lia) ltac:(lia)) as Hq.
  destruct (SFdiv_core_binary prec emax (Z.pos p) 0 (10 ^ Z.pos k) 0) as [[q eq] l].
  cbn [fst] in Hq. apply binary_round_aux_not_nan. exact Hq.
Qed.

End NotNaN.

Lemma digit_val_nonneg c : isdigit c = true -> 0 <= digit_val c.
Proof. each_char c; intros H; try discriminate H; vm_compute; discriminate. Qed.

Lemma digits_from_nonneg s :
  forall acc n, 0 <= acc -> 0 <= fst (fst (digits_from acc n s)).
Proof.
  induction s as [|c r IH]; intros acc n H; cbn [digits_from]; [exact H|].
  destruct (isdigit c) eqn:E; [|exact H].
  apply IH. pose proof (digit_val_nonneg c E). lia.
Qed.

Lemma parse_decimal_nonneg x neg m e r :
  parse_decimal x = Some (neg, m, e, r) -> 0 <= m.
Proof.
  unfold parse_decimal. destruct (take_sign x) as [sg s1].
  pose proof (digits_from_nonneg s1 0 0 ltac:(lia)) as H1.
  destruct (digits_from 0 0 s1) as [[m1 n1] s2]. cbn [fst] in H1.
  assert (H2 : forall m' n2 s3,
             match s2 with
             | String "." r => digits_from m1 0 r
             | _ => (m1, O, s2)
             end = (m', n2, s3) -> 0 <= m').
  { intros m' n2 s3 E.
    assert (Hd : forall r0, digits_from m1 0 r0 = (m', n2, s3) -> 0 <= m').
    { intros r0 E0. pose proof (digits_from_nonneg r0 m1 0 H1) as H0.
      rewrite E0 in H0. exact H0. }
    destruct s2 as [|c r0]; [inversion E; subst; exact H1|].
    each_char c; try (inversion E; subst; exact H1). eapply Hd. exact E. }
  destruct (match s2 with
            | String "." r => digits_from m1 0 r
            | _ => (m1, O, s2)
            end) as [[m' n2] s3] eqn:E2.
  specialize (H2 _ _ _ eq_refl).
  destruct (n1 + n2)%nat; [discriminate|].
  destruct (match s3 with
            | String c r =>
                if (Ascii.eqb c "e" || Ascii.eqb c "E")%bool then
                  let '(esg, r1) := take_sign r in
                  match digits_from 0 0 r1 with
                  | (_, O, _) => (0, s3)
                  | (v, _, r2) => (if String.eqb esg "-" then - v else v, r2)
                  end
                else (0, s3)
            | EmptyString => (0, s3)
            end) as [e' s4].
  intros H. inversion H. subst. exact H2.
Qed.

Lemma float_convert_number x v : float_convert x = Some v -> is_number v = true.
Proof.
  unfold float_convert. destruct (parse_decimal x) as [[[[neg m] e] r]|] eqn:E;
    [|discriminate].
  destruct r; [|discriminate].
  pose proof (decimal_not_nan 24 128 neg m e (parse_decimal_nonneg _ _ _ _ _ E)) as Hn.
  destruct (decimal 24 128 neg m e) as [s|s| |s mm ee]; cbn; intros H;
    inversion H; subst; try reflexivity; try discriminate.
  exfalso. apply Hn. reflexivity.
Qed.

Lemma get_float_number s v r : get get_float s = Some (v, r) -> is_number v = true.
Proof.
  unfold get. destruct (take_sign (skip_ws s)) as [sg s2].
  destruct (accumulate (ng_step get_float) (ng_init get_float) s2) as [x r'].
  destruct (ng_convert get_float (sg ++ x)) as [v'|] eqn:E; [|discriminate].
  intros H. inversion H. subst. eapply float_convert_number. exact E.
Qed.

Lemma int_convert_range x v : int_convert x = Some v -> in_int_range v = true.
Proof.
  unfold int_convert. destruct (take_sign x) as [sg ds].
  destruct (digits_from 0 0 ds) as [[w n] r]. destruct n; [discriminate|].
  destruct r; [|discriminate].
  destruct (in_int_range (if String.eqb sg "-" then - w else w)) eqn:E; [|discriminate].
  intros H. inversion H. subst. exact E.
Qed.

Lemma get_int_range s v r : get get_int s = Some (v, r) -> in_int_range v = true.
Proof.
  unfold get. destruct (take_sign (skip_ws s)) as [sg s2].
  destruct (accumulate (ng_step get_int) (ng_init get_int) s2) as [x r'].
  destruct (ng_convert get_int (sg ++ x)) as [v'|] eqn:E; [|discriminate].
  intros H. inversion H. subst. eapply int_convert_range. exact E.
Qed.

Lemma reads_all_cells {T} (ng : num_get T) (test : T -> bool) :
  (forall s v r, get ng s = Some (v, r) -> test v = true) ->
  forall s vs, reads ng s vs -> all_cells test (map Some vs) = true.
Proof.
  intros H s vs R. induction R as [s E|s v r vs E R IH]; [reflexivity|].
  cbn [map all_cells forallb]. rewrite (H _ _ _ E). exact IH.
Qed.

Lemma long_to_int_range v : in_int_range (long_to_int v) = true.
Proof.
  unfold in_int_range, long_to_int, INT_MIN, INT_MAX.
  pose proof (Z.mod_pos_bound (v + 2 ^ 31) (2 ^ 32) ltac:(lia)) as H.
  apply andb_true_intro. split; apply Z.leb_le; lia.
Qed.

Lemma int_option_range c d es : in_int_range d = true -> in_int_range (int_option c d es) = true.
Proof.
  intros H. unfold int_option. destruct (last_optarg c es); [apply long_to_int_range|exact H].
Qed.

Lemma rereads_all_cells {T} (ng : num_get T) (test : T -> bool) :
  (forall s v r, get ng s = Some (v, r) -> test v = true) ->
  forall f ws n, rereads ng f ws -> written_cells test (filled n ws) = true.
Proof.
  intros H f ws n R.
  assert (Hw : all_cells test (map Some ws) = true).
  { unfold rereads in R. destruct (again f) as [c|].
    - exact (reads_all_cells ng test H _ _ R).
    - subst ws. reflexivity. }
  unfold written_cells, filled. rewrite forallb_app. apply andb_true_intro. split.
  - unfold all_cells in Hw. rewrite forallb_forall in *. intros [v|] Hin; [|reflexivity].
    exact (Hw _ Hin).
  - apply forallb_forall. intros c Hc. apply repeat_spec in Hc. subst c. reflexivity.
Qed.

Lemma count_in_range n :
  (Z.of_nat n <=? INT_MAX) = true -> in_int_range (Z.of_nat n) = true.
Proof.
  intros H. unfold in_int_range. rewrite H, andb_true_r. apply Z.leb_le.
  unfold INT_MIN. lia.
Qed.

(** X9.  Whenever the engine is called, what it is given are numbers that
    its parameter types can hold.  Each array has as many cells as its
    count says, and each count lies within the range of [int].  Every
    value in a tau, scale or episode cell lies within the range of [int];
    every value in a lambda cell is a zero or a finite single precision
    number, never an infinity or a NaN.  When the four files are regular
    files that read the same again after the streams have sought back,
    every cell has been written and the arrays hold the values of the
    files.  The cells of a series whose file cannot be sought back (a pipe)
    are all handed over unwritten.  Every integer parameter lies within the
    range of [int], whatever text its option was given. *)
Theorem engine_gets_numbers (atof : string -> double) (ord : ordering)
    (env : environment) (argv0 : string) (args : list string) (a : runDDM_args) :
  In (Run a) (fst (main atof ord env argv0 args)) ->
  let p := parsed atof ord argv0 args in
  (arg_lambda_count a = Z.of_nat (length (arg_lambda_arr a))
   /\ arg_tau_count a = Z.of_nat (length (arg_tau_arr a))
   /\ arg_scale_count a = Z.of_nat (length (arg_scale_arr a))
   /\ arg_episode_count a = Z.of_nat (length (arg_episode_vector a)))
  /\ forallb in_int_range
       [arg_lambda_count a; arg_tau_count a; arg_scale_count a; arg_episode_count a]
     = true
  /\ (written_cells is_number (arg_lambda_arr a) = true
      /\ written_cells in_int_range (arg_tau_arr a) = true
      /\ written_cells in_int_range (arg_scale_arr a) = true
      /\ written_cells in_int_range (arg_episode_vector a) = true)
  /\ (forall vq vt vs ve,
         steady_series env p vq vt vs ve ->
         (arg_lambda_arr a = map Some vq /\ arg_tau_arr a = map Some vt
          /\ arg_scale_arr a = map Some vs /\ arg_episode_vector a = map Some ve)
         /\ all_cells is_number (arg_lambda_arr a) = true
         /\ all_cells in_int_range (arg_tau_arr a) = true
         /\ all_cells in_int_range (arg_scale_arr a) = true
         /\ all_cells in_int_range (arg_episode_vector a) = true)
  /\ (forall f,
         again f = None ->
         (open_file env (q_file_name p) = Some f ->
          arg_lambda_arr a = repeat None (length (arg_lambda_arr a)))
         /\ (open_file env (t_file_name p) = Some f ->
             arg_tau_arr a = repeat None (length (arg_tau_arr a)))
         /\ (open_file env (s_file_name p) = Some f ->
             arg_scale_arr a = repeat None (length (arg_scale_arr a)))
         /\ (open_file env (e_file_name p) = Some f ->
             arg_episode_vector a = repeat None (length (arg_episode_vector a))))
  /\ forallb in_int_range
       [arg_frame_count a; arg_frame_offset a; arg_x_off a; arg_y_off a;
        arg_chunk_frame_count a; arg_webcam_idx a; arg_dump_accum_after a;
        arg_angle_count a] = true.
Proof.
  intros Hin. destruct (engine_called _ _ _ _ _ _ Hin) as (_ & Hc & _ & H).
  destruct H as (vq & wq & vt & wt & vs & ws & ve & we & Hr & Hl & -> & _).
  cbv zeta.
  cbn [loaded_call engine_call arg_lambda_arr arg_tau_arr arg_scale_arr arg_episode_vector
       arg_lambda_count arg_tau_count arg_scale_count arg_episode_count
       arg_frame_count arg_frame_offset arg_x_off arg_y_off arg_chunk_frame_count
       arg_webcam_idx arg_dump_accum_after arg_angle_count].
  unfold loads in Hl. apply andb_prop in Hl. destruct Hl as [Hfit Hwithin].
  pose proof Hfit as Hfit'. unfold fits in Hfit'. rewrite !andb_true_iff in Hfit'.
  destruct Hfit' as ((((Nq & Nt) & Ns) & Ne) & _).
  unfold within in Hwithin. rewrite !andb_true_iff in Hwithin.
  destruct Hwithin as (((Lq & Lt) & Ls) & Le).
  split; [repeat split|]. split; [|split; [|split; [|split]]].
  - cbn [forallb]. rewrite !filled_length by assumption.
    rewrite !count_in_range by assumption. reflexivity.
  - destruct Hr as (fq & ft & fs & fe & _ & _ & (Wq & Wt & Ws & We)).
    split; [exact (rereads_all_cells get_float is_number get_float_number _ _ _ Wq)|].
    split; [exact (rereads_all_cells get_int in_int_range get_int_range _ _ _ Wt)|].
    split; [exact (rereads_all_cells get_int in_int_range get_int_range _ _ _ Ws)|].
    exact (rereads_all_cells get_int in_int_range get_int_range _ _ _ We).
  - intros uq ut us ue Hst.
    destruct (series_read_steady _ _ _ _ _ _ _ _ _ _ _ _ _ _ Hr Hst)
      as ((-> & -> & -> & ->) & (-> & -> & -> & ->)).
    rewrite !filled_all. split; [repeat split|].
    destruct Hst as (fq & ft & fs & fe & _ & _ & (Rq & Rt & Rs & Re)).
    split; [exact (reads_all_cells get_float is_number get_float_number _ _ Rq)|].
    split; [exact (reads_all_cells get_int in_int_range get_int_range _ _ Rt)|].
    split; [exact (reads_all_cells get_int in_int_range get_int_range _ _ Rs)|].
    exact (reads_all_cells get_int in_int_range get_int_range _ _ Re).
  - intros f Hf.
    destruct Hr as (fq & ft & fs & fe & (Oq & Ot & Os & Oe) & _ & (Wq & Wt & Ws & We)).
    rewrite !filled_length by assumption.
    repeat split; intros Ho;
      [rewrite Oq in Ho; inversion Ho; subst fq; unfold rereads in Wq;
       rewrite Hf in Wq; subst wq
      |rewrite Ot in Ho; inversion Ho; subst ft; unfold rereads in Wt;
       rewrite Hf in Wt; subst wt
      |rewrite Os in Ho; inversion Ho; subst fs; unfold rereads in Ws;
       rewrite Hf in Ws; subst ws
      |rewrite Oe in Ho; inversion Ho; subst fe; unfold rereads in We;
       rewrite Hf in We; subst we];
      unfold filled; cbn [map app length]; rewrite Nat.sub_0_r; reflexivity.
  - destruct (parsed_integers atof ord argv0 args) as (-> & -> & -> & -> & -> & -> & ->).
    destruct (fold_sources atof (fst (scan ord argv0 args)) initial_locals eq_refl Hc)
      as (_ & _ & Hi & _).
    unfold parsed. rewrite Hi.
    cbn [forallb]. rewrite !int_option_range by reflexivity. cbn [andb].
    rewrite andb_true_r.
    destruct (last_optarg "W" (fst (scan ord argv0 args))) as [[i|]|];
      [apply long_to_int_range|reflexivity|reflexivity].
Qed.

(** X9 on a run whose [-N] is beyond the range of [int] and whose lambda
    file ends in a number too large for single precision. *)
Lemma engine_gets_numbers_witness :
  let env := with_file "q.txt" (regular "0.5 1e39") scenario_files in
  exists a,
    In (Run a) (fst (main no_atof PERMUTE env "ddm" (benchmark_run ["-N"; "4294967297"])))
    /\ arg_frame_count a = 1
    /\ arg_lambda_arr a = [Some (S754_finite false 8388608 (-24))]
    /\ written_cells is_number (arg_lambda_arr a) = true
    /\ all_cells is_number (arg_lambda_arr a) = true.
Proof.
  cbv zeta.
  assert (H : exists a,
             In (Run a)
               (fst (main no_atof PERMUTE
                       (with_file "q.txt" (regular "0.5 1e39") scenario_files)
                       "ddm" (benchmark_run ["-N"; "4294967297"])))
             /\ arg_frame_count a = 1
             /\ arg_lambda_arr a = [Some (S754_finite false 8388608 (-24))]).
  { vm_compute. eexists. split; [do 5 right; left; reflexivity|]. split; reflexivity. }
  destruct H as (a & Ha & H1 & H2). exists a.
  split; [exact Ha|]. split; [exact H1|]. split; [exact H2|].
  destruct (engine_gets_numbers _ _ _ _ _ _ Ha) as (_ & _ & (H & _) & Hs & _).
  split; [exact H|].
  edestruct Hs as (_ & H' & _); [|exact H'].
  steady_files.
Defined.

(** X10.  The option string, the help text and the [switch] list the same
    options.  An option character is accepted by [getopt] exactly when the
    help text has a line for it, and the line shows an argument exactly when
    the option takes one; no option has two lines.  The [switch] has a case
    for [?] and for every accepted option but [Z], and for nothing else. *)
Theorem help_matches_options (c : ascii) :
  help_shows c help_entries = takes_argument c
  /\ has_case c
     = (Ascii.eqb c "?"
        || (match takes_argument c with Some _ => true | None => false end
            && negb (Ascii.eqb c "Z")))%bool
  /\ NoDup (map fst help_entries).
Proof.
  split; [|split].
  - each_char c; vm_compute; reflexivity.
  - each_char c; vm_compute; reflexivity.
  - assert (H : forall l : list ascii,
               (fix nodup (l : list ascii) : bool :=
                  match l with
                  | [] => true
                  | x :: r => (negb (existsb (Ascii.eqb x) r) && nodup r)%bool
                  end) l = true -> NoDup l).
    { induction l as [|x r IH]; intros H; constructor.
      - apply andb_prop in H. destruct H as [H _]. intros Hin.
        apply negb_true_iff in H.
        assert (Hx : existsb (Ascii.eqb x) r = true).
        { apply existsb_exists. exists x. split; [exact Hin|apply Ascii.eqb_refl]. }
        congruence.
      - apply IH. apply andb_prop in H. tauto. }
    apply H. vm_compute. reflexivity.
Qed.

(** ** Ways to write the same options *)

(** X11.  An option that takes a required argument reads it from the rest
    of its own element or, when there is no rest, from the next element.
    Wherever [getopt] comes to read the element [-N5], it reports what it
    would report for the two elements [-N] and [5] in its place; at the
    head of the arguments the two make the same run of [main]. *)
Theorem attached_argument (atof : string -> double) (ord : ordering) (env : environment)
    (argv0 : string) (c : ascii) (a : string) (r : list string) :
  find_option c optstring = Some required_argument -> a <> "" ->
  (forall n,
      let whole := {| nextchar := ""; rest := String "-" (String c a) :: r; nonopts := n |} in
      let apart :=
        {| nextchar := ""; rest := String "-" (String c "") :: a :: r; nonopts := n |} in
      getopt_run ord argv0 (S (weight whole)) whole
      = getopt_run ord argv0 (S (weight apart)) apart)
  /\ main atof ord env argv0 (String "-" (String c a) :: r)
     = main atof ord env argv0 (String "-" (String c "") :: a :: r).
Proof.
  intros Hc Ha.
  assert (Hd : forall nc, String "-" (String c nc) <> "--")
    by (intros nc; apply option_not_dash; congruence).
  assert (Hg : forall n,
             getopt ord argv0 optstring
               {| nextchar := ""; rest := String "-" (String c a) :: r; nonopts := n |}
             = getopt ord argv0 optstring
                 {| nextchar := ""; rest := String "-" (String c "") :: a :: r;
                    nonopts := n |}).
  { intros n. rewrite !getopt_at_option by apply Hd.
    unfold take_option. rewrite Hc. destruct a as [|x a]; [contradiction|]. reflexivity. }
  assert (Hr : forall n,
             getopt_run ord argv0
               (S (weight {| nextchar := ""; rest := String "-" (String c a) :: r;
                             nonopts := n |}))
               {| nextchar := ""; rest := String "-" (String c a) :: r; nonopts := n |}
             = getopt_run ord argv0
                 (S (weight {| nextchar := ""; rest := String "-" (String c "") :: a :: r;
                               nonopts := n |}))
                 {| nextchar := ""; rest := String "-" (String c "") :: a :: r;
                    nonopts := n |})
    by (intros n; apply getopt_run_same, Hg).
  split; [exact Hr|].
  rewrite !main_judge. unfold judge, scan, initial. rewrite (Hr []). reflexivity.
Qed.

(** X11 on [-N5] and [-N 5]. *)
Lemma attached_argument_witness :
  find_option "N" optstring = Some required_argument /\ "5" <> ""
  /\ main no_atof PERMUTE scenario_files "ddm" (benchmark_run ["-N5"])
     = main no_atof PERMUTE scenario_files "ddm" (benchmark_run ["-N"; "5"]).
Proof.
  split; [reflexivity|]. split; [discriminate|].
  apply (attached_argument no_atof PERMUTE scenario_files "ddm" "N" "5");
    [reflexivity|discriminate].
Defined.

Lemma effect_same atof l e e' :
  s_opt e = s_opt e' -> s_optarg e = s_optarg e' -> effect atof l e = effect atof l e'.
Proof. intros H1 H2. unfold effect. rewrite H1, H2. reflexivity. Qed.

(** Two argument vectors whose options differ in the scanner's state after
    the first option only, where that state leaves something unscanned in
    both, make the same run. *)
Lemma main_same_options atof ord env argv0 args args' e e' es fin :
  scan ord argv0 args = (e :: es, fin) -> scan ord argv0 args' = (e' :: es, fin) ->
  s_opt e = s_opt e' -> s_optarg e = s_optarg e' -> s_message e = s_message e' ->
  left_over (s_after e) = left_over (s_after e') ->
  main atof ord env argv0 args = main atof ord env argv0 args'.
Proof.
  intros Hs Hs' Ho Ha Hm Hl. rewrite !main_judge. unfold judge. rewrite Hs, Hs'.
  destruct fin as [fin|]; [|reflexivity].
  cbn [walk]. rewrite <- Ho.
  destruct (is_help (s_opt e)); [rewrite Hm; reflexivity|].
  destruct (is_checked_source (s_opt e) && false)%bool; [reflexivity|].
  destruct (has_case (s_opt e)).
  - destruct (walk (false || is_source (s_opt e)) es) as [p [|x|x|x]];
      cbn [fold_left]; rewrite ?(effect_same atof initial_locals e e' Ho Ha); reflexivity.
  - cbn [fold_left]. unfold after_loop. rewrite Hl. reflexivity.
Qed.

(** X12.  Options without argument can share one element: [-vI] and
    [-v -I] at the head of the arguments make the same run, for every
    option without argument in first place and every rest of the element
    but the single [-] (which, set apart, makes the element [--]). *)
Theorem clustered_options (atof : string -> double) (ord : ordering) (env : environment)
    (argv0 : string) (c : ascii) (nc : string) (r : list string) :
  find_option c optstring = Some no_argument -> nc <> "" -> nc <> "-" ->
  main atof ord env argv0 (String "-" (String c nc) :: r)
  = main atof ord env argv0 (String "-" (String c "") :: String "-" nc :: r).
Proof.
  intros Hc Hn Hm.
  assert (Hd : forall x, String "-" (String c x) <> "--")
    by (intros x; apply option_not_dash; congruence).
  destruct nc as [|c' nc']; [contradiction|].
  assert (Hd' : String "-" (String c' nc') <> "--") by congruence.
  pose (after1 := {| nextchar := String c' nc'; rest := r; nonopts := [] |}).
  pose (after2 := {| nextchar := ""; rest := String "-" (String c' nc') :: r;
                     nonopts := [] |}).
  assert (Hg : getopt ord argv0 optstring after1 = getopt ord argv0 optstring after2).
  { unfold after2. rewrite getopt_at_option by exact Hd'. reflexivity. }
  assert (Hr : getopt_run ord argv0 (S (weight after1)) after1
               = getopt_run ord argv0 (S (weight after2)) after2)
    by (apply getopt_run_same, Hg).
  destruct (getopt_run ord argv0 (S (weight after2)) after2) as [es fin] eqn:E2.
  eapply (main_same_options atof ord env argv0 _ _
            {| s_opt := c; s_optarg := None; s_message := []; s_after := after1 |}
            {| s_opt := c; s_optarg := None; s_message := []; s_after := after2 |}
            es fin); try reflexivity.
  - rewrite scan_step. unfold initial. rewrite getopt_at_option by apply Hd.
    unfold take_option. rewrite Hc. cbn [opt_char optarg message after].
    fold after1. rewrite Hr. reflexivity.
  - rewrite scan_step. unfold initial. rewrite getopt_at_option by apply Hd.
    unfold take_option. rewrite Hc. cbn [opt_char optarg message after].
    fold after2. rewrite E2. reflexivity.
Qed.

(** X12 on [-vI] and [-v -I]. *)
Lemma clustered_options_witness :
  find_option "v" optstring = Some no_argument /\ "I" <> "" /\ "I" <> "-"
  /\ main no_atof PERMUTE scenario_files "ddm" (benchmark_run ["-vI"])
     = main no_atof PERMUTE scenario_files "ddm" (benchmark_run ["-v"; "-I"]).
Proof.
  split; [reflexivity|]. split; [discriminate|]. split; [discriminate|].
  apply (clustered_options no_atof PERMUTE scenario_files "ddm" "v" "I");
    [reflexivity|discriminate|discriminate].
Defined.

(** ** The option without a case *)

Lemma walk_cases es :
  forall seen p s, walk seen es = (p, s) -> forallb has_case (map s_opt p) = true.
Proof.
  induction es as [|e es IH]; intros seen p s H; cbn [walk] in H.
  - inversion H. reflexivity.
  - destruct (is_help (s_opt e)); [inversion H; reflexivity|].
    destruct (is_checked_source (s_opt e) && seen)%bool; [inversion H; reflexivity|].
    destruct (has_case (s_opt e)) eqn:Ec; [|inversion H; reflexivity].
    destruct (walk (seen || is_source (s_opt e)) es) as [p' s'] eqn:Ew.
    inversion H. subst. cbn [map forallb]. rewrite Ec. eapply IH. eassumption.
Qed.

Lemma no_case_is_Z c : find_option c optstring <> None -> has_case c = false -> c = "Z"%char.
Proof.
  intros Hf Hc. destruct (Ascii.eqb_spec c "Z") as [E|N]; [exact E|].
  rewrite (known_letter c Hf N) in Hc. discriminate.
Qed.

Lemma cases_without_Z ls : forallb has_case ls = true -> ~ In "Z"%char ls.
Proof.
  intros H Hin. rewrite forallb_forall in H. specialize (H _ Hin). discriminate H.
Qed.

(** X13.  [-Z] has no case in the [switch]: it takes the loop to its
    [break], and what follows it is never looked at.  So a run in which
    [-Z] occurs gets to the engine only when [-Z] is the last option of
    all and occurs once. *)
Theorem Z_only_in_last_place (atof : string -> double) (ord : ordering)
    (env : environment) (argv0 : string) (args : list string) (a : runDDM_args) :
  In (Run a) (fst (main atof ord env argv0 args)) ->
  In "Z"%char (letters ord argv0 args) ->
  exists before,
    letters ord argv0 args = (before ++ ["Z"%char])%list /\ ~ In "Z"%char before.
Proof.
  intros Hin HZ. apply in_calls in Hin. revert Hin.
  rewrite main_judge. unfold judge, letters in *.
  destruct (scan_total ord argv0 args) as (es & fin & Hs & Hn).
  rewrite Hs in *. cbn [fst] in HZ.
  destruct (walk false es) as [p s] eqn:Hw.
  pose proof (walk_spec es _ _ _ Hw) as Hspec. cbn zeta in Hspec.
  pose proof (walk_cases es _ _ _ Hw) as Hp.
  destruct s as [|e|e|e].
  - destruct Hspec as (_ & _ & _ & Hc). exfalso. exact (cases_without_Z _ Hc HZ).
  - destruct Hspec as ((q & Hes) & Hk & _). unfold after_loop.
    destruct (left_over (s_after e)) eqn:El; [cbn; intros []|].
    assert (Hq : q = []) by (unfold scan in Hs; eapply getopt_run_last; eassumption).
    subst q. intros _. exists (map s_opt p). cbn [fst]. rewrite Hes, map_app.
    cbn [map]. split; [|apply cases_without_Z; exact Hp].
    f_equal. f_equal.
    destruct (letters_known ord argv0 _ _ _ _ Hs e) as [E|E].
    + rewrite Hes. apply in_elt.
    + rewrite E in Hk. discriminate Hk.
    + apply no_case_is_Z; assumption.
  - cbn [fst]. rewrite calls_help_exit. intros [].
  - cbn. intros [].
Qed.

(** X13 on [-Z] at the very end. *)
Lemma Z_witness :
  let args := (benchmark_run ["-N"; "5"] ++ ["-Z"])%list in
  (exists a, In (Run a) (fst (main no_atof PERMUTE scenario_files "ddm" args)))
  /\ In "Z"%char (letters PERMUTE "ddm" args)
  /\ exists before,
       letters PERMUTE "ddm" args = (before ++ ["Z"%char])%list /\ ~ In "Z"%char before.
Proof.
  cbv zeta.
  assert (H : exists a,
             In (Run a) (fst (main no_atof PERMUTE scenario_files "ddm"
                                (benchmark_run ["-N"; "5"] ++ ["-Z"])%list)))
    by find_call.
  assert (HZ : In "Z"%char (letters PERMUTE "ddm" (benchmark_run ["-N"; "5"] ++ ["-Z"])%list))
    by (vm_compute; do 6 right; left; reflexivity).
  split; [exact H|]. split; [exact HZ|].
  destruct H as [a Ha].
  exact (Z_only_in_last_place no_atof PERMUTE scenario_files "ddm" _ a Ha HZ).
Defined.

(** ** The q-tolerance grows with the percent *)

Lemma percents_spec p : (-100 <= p <= 1000) -> In p percents.
Proof.
  intros H. unfold percents. apply in_map_iff. exists (Z.to_nat (p + 100)).
  split; [lia|]. apply in_seq. lia.
Qed.

Lemma increasing_spec (f : Z -> float) (l : list Z) :
  increasing f l = true ->
  forall p q, In p l -> In q l -> p < q -> SFltb (f p) (f q) = true.
Proof.
  unfold increasing. cbv zeta. intros H p q Hp Hq Hpq.
  rewrite forallb_forall in H.
  specialize (H (p, f p) (in_map (fun p => (p, f p)) l p Hp)).
  rewrite forallb_forall in H.
  specialize (H (q, f q) (in_map (fun p => (p, f p)) l q Hq)).
  cbn [fst snd] in H. apply Z.ltb_lt in Hpq. rewrite Hpq in H. exact H.
Qed.

Lemma tolerance_increasing : increasing tolerance percents = true.
Proof. vm_compute. reflexivity. Qed.

(** X14.  Over the percents from -100 to 1000 the stored q-tolerance grows
    strictly with the percent given to [-t]: a larger percent never stores
    a smaller factor, and no two percents store the same. *)
Theorem tolerance_grows (p q : Z) :
  -100 <= p -> p < q -> q <= 1000 ->
  SFltb (tolerance p) (tolerance q) = true.
Proof.
  intros Hp Hpq Hq.
  apply (increasing_spec tolerance percents tolerance_increasing);
    [apply percents_spec; lia|apply percents_spec; lia|exact Hpq].
Qed.

(** X14 between 0 and 20 percent; the factor is 0 at -100 percent and 1
    at 0 percent. *)
Lemma tolerance_grows_witness :
  SFltb (tolerance 0) (tolerance 20) = true
  /\ tolerance (-100) = S754_zero false /\ tolerance 0 = int_to_float 1.
Proof.
  split; [apply tolerance_grows; lia|]. split; vm_compute; reflexivity.
Defined.

(** ** Numerals, as [atoi] and the extraction of an [int] read them *)

Lemma digits_from_app ds tail :
  all_digits ds = true -> starts_with_digit tail = false ->
  forall acc n,
    digits_from acc n (ds ++ tail)
    = (fst (fst (digits_from acc n ds)), (n + String.length ds)%nat, tail).
Proof.
  intros Hd Ht. induction ds as [|c r IH]; intros acc n; cbn [append digits_from].
  - cbn [fst String.length]. rewrite Nat.add_0_r.
    destruct tail as [|c r]; [reflexivity|]. cbn [starts_with_digit] in Ht.
    cbn [digits_from]. rewrite Ht. reflexivity.
  - cbn [all_digits] in Hd. apply andb_prop in Hd. destruct Hd as [Hc Hr].
    rewrite Hc. rewrite (IH Hr). cbn [String.length]. f_equal. f_equal. lia.
Qed.

Lemma accumulate_digits_app ds tail :
  all_digits ds = true -> starts_with_digit tail = false ->
  accumulate int_step tt (ds ++ tail) = (ds, tail).
Proof.
  intros Hd Ht. induction ds as [|c r IH]; cbn [append accumulate].
  - destruct tail as [|c r]; [reflexivity|]. cbn [starts_with_digit] in Ht.
    cbn [accumulate]. unfold int_step. rewrite Ht. reflexivity.
  - cbn [all_digits] in Hd. apply andb_prop in Hd. destruct Hd as [Hc Hr].
    unfold int_step at 1. rewrite Hc. rewrite (IH Hr). reflexivity.
Qed.

Lemma is_sign_cases sg : is_sign sg = true -> sg = "" \/ sg = "+" \/ sg = "-".
Proof.
  unfold is_sign. intros H. apply orb_true_iff in H. destruct H as [H|H].
  - apply orb_true_iff in H. destruct H as [H|H]; apply String.eqb_eq in H; auto.
  - apply String.eqb_eq in H. auto.
Qed.

Lemma skip_ws_start s : starts_with_space s = false -> skip_ws s = s.
Proof. destruct s as [|c r]; [reflexivity|]. cbn. intros ->. reflexivity. Qed.

Lemma skip_ws_lead ws s :
  all_space ws = true -> starts_with_space s = false -> skip_ws (ws ++ s) = s.
Proof. intros Hw Hs. rewrite (skip_ws_space ws s Hw). apply skip_ws_start, Hs. Qed.

Lemma digit_start ds tail :
  all_digits ds = true -> ds <> "" ->
  exists c r, (ds ++ tail) = String c r /\ isdigit c = true.
Proof.
  intros Hd Hn. destruct ds as [|c r]; [contradiction|].
  cbn [all_digits] in Hd. apply andb_prop in Hd. destruct Hd as [Hc _].
  exists c, (r ++ tail). split; [reflexivity|exact Hc].
Qed.

Lemma strtol_unsigned c r :
  isdigit c = true ->
  strtol (String c r)
  = Z.max LONG_MIN (Z.min LONG_MAX (fst (fst (digits_from 0 0 (String c r))))).
Proof.
  intros Hc. unfold strtol.
  rewrite (skip_ws_start (String c r)) by (cbn; apply digit_not_space; exact Hc).
  assert (E : match String c r with
              | String "-" r0 => (true, r0)
              | String "+" r0 => (false, r0)
              | _ => (false, String c r)
              end = (false, String c r)).
  { revert Hc. each_char c; intros Hc; try discriminate Hc; reflexivity. }
  rewrite E. destruct (digits_from 0 0 (String c r)) as [[v n] t]. reflexivity.
Qed.

Lemma strtol_signed (neg : bool) s :
  strtol (String (if neg then "-" else "+")%char s)
  = Z.max LONG_MIN
      (Z.min LONG_MAX
         (if neg then - fst (fst (digits_from 0 0 s)) else fst (fst (digits_from 0 0 s)))).
Proof.
  unfold strtol. destruct neg; rewrite skip_ws_start by reflexivity;
    destruct (digits_from 0 0 s) as [[v n] t]; reflexivity.
Qed.

Lemma strtol_lead ws s :
  all_space ws = true -> strtol (ws ++ s) = strtol s.
Proof. intros H. unfold strtol. rewrite (skip_ws_space ws s H). reflexivity. Qed.

Lemma long_to_int_id v : in_int_range v = true -> long_to_int v = v.
Proof.
  unfold in_int_range, long_to_int, INT_MIN, INT_MAX. intros H.
  apply andb_prop in H. destruct H as [H1 H2]. apply Z.leb_le in H1, H2.
  rewrite Z.mod_small by lia. lia.
Qed.

Lemma strtol_clamp v :
  - LONG_MAX <= v <= LONG_MAX -> Z.max LONG_MIN (Z.min LONG_MAX v) = v.
Proof.
  change LONG_MIN with (-9223372036854775808). change LONG_MAX with 9223372036854775807.
  lia.
Qed.

Lemma digits_value_nonneg ds : 0 <= digits_value ds.
Proof. unfold digits_value. apply digits_from_nonneg. lia. Qed.

(** X15.  What [atoi] makes of the argument of a numeric option.  White
    space in front is passed over; an optional sign and the longest run of
    digits are read; whatever follows the digits is ignored.  A numeral
    within the range of [int] gives its value; one beyond it, up to the
    range of [long], gives its value wrapped to 32 bits.  Where no digit
    follows the optional sign the result is 0.  No argument is ever
    refused, and the result always lies within the range of [int]. *)
Theorem numeric_argument (ws sg ds tail : string) :
  all_space ws = true -> is_sign sg = true -> all_digits ds = true ->
  starts_with_digit tail = false ->
  (ds <> "" -> digits_value ds <= LONG_MAX ->
   atoi (ws ++ sg ++ ds ++ tail) = long_to_int (signed sg (digits_value ds))
   /\ (in_int_range (signed sg (digits_value ds)) = true ->
       atoi (ws ++ sg ++ ds ++ tail) = signed sg (digits_value ds)))
  /\ (sg <> "" \/ (starts_with_sign tail = false /\ starts_with_space tail = false) ->
      atoi (ws ++ sg ++ tail) = 0)
  /\ (forall s, in_int_range (atoi s) = true).
Proof.
  intros Hw Hs Hd Ht. split; [|split].
  - intros Hn Hv.
    assert (E : atoi (ws ++ sg ++ ds ++ tail) = long_to_int (signed sg (digits_value ds))).
    { unfold atoi. f_equal. rewrite strtol_lead by exact Hw.
      pose proof (digits_value_nonneg ds) as H0.
      destruct (is_sign_cases sg Hs) as [E|[E|E]]; subst sg; unfold signed;
        cbn [String.eqb Ascii.eqb Bool.eqb append].
      - destruct (digit_start ds tail Hd Hn) as (c & r & E & Hc). rewrite E.
        rewrite (strtol_unsigned c r Hc), <- E, (digits_from_app ds tail Hd Ht).
        cbn [fst]. fold (digits_value ds). apply strtol_clamp.
        change LONG_MAX with 9223372036854775807 in *. lia.
      - rewrite (strtol_signed false), (digits_from_app ds tail Hd Ht).
        cbn [fst]. fold (digits_value ds). apply strtol_clamp.
        change LONG_MAX with 9223372036854775807 in *. lia.
      - rewrite (strtol_signed true), (digits_from_app ds tail Hd Ht).
        cbn [fst]. fold (digits_value ds). apply strtol_clamp.
        change LONG_MAX with 9223372036854775807 in *. lia. }
    split; [exact E|]. intros Hr. rewrite E. apply long_to_int_id, Hr.
  - intros H. unfold atoi. rewrite strtol_lead by exact Hw.
    assert (Hz : forall s, starts_with_digit s = false -> fst (fst (digits_from 0 0 s)) = 0).
    { intros s Hsd. destruct s as [|c r]; [reflexivity|]. cbn [starts_with_digit] in Hsd.
      cbn [digits_from]. rewrite Hsd. reflexivity. }
    destruct (is_sign_cases sg Hs) as [E|[E|E]]; subst sg; cbn [append].
    + destruct H as [H|[H1 H2]]; [contradiction|].
      unfold strtol. rewrite (skip_ws_start tail H2).
      assert (E : match tail with
                  | String "-" r0 => (true, r0)
                  | String "+" r0 => (false, r0)
                  | _ => (false, tail)
                  end = (false, tail)).
      { destruct tail as [|c r]; [reflexivity|]. cbn [starts_with_sign] in H1.
        revert H1. each_char c; intros H1; try discriminate H1; reflexivity. }
      rewrite E. pose proof (Hz tail Ht) as H0.
      destruct (digits_from 0 0 tail) as [[v n] t]. cbn [fst] in H0. subst v.
      vm_compute. reflexivity.
    + rewrite (strtol_signed false), (Hz tail Ht). vm_compute. reflexivity.
    + rewrite (strtol_signed true), (Hz tail Ht). vm_compute. reflexivity.
  - intros s. apply long_to_int_range.
Qed.

(** X15 on [ -12abc], on [4294967297] and on [abc]. *)
Lemma numeric_argument_witness :
  atoi " -12abc" = -12 /\ atoi "4294967297" = 1 /\ atoi "abc" = 0.
Proof.
  split; [|split].
  - destruct (numeric_argument " " "-" "12" "abc" eq_refl eq_refl eq_refl eq_refl)
      as (H & _ & _).
    destruct H as [_ H]; [discriminate|vm_compute; discriminate|].
    apply H. reflexivity.
  - destruct (numeric_argument "" "" "4294967297" "" eq_refl eq_refl eq_refl eq_refl)
      as (H & _ & _).
    destruct H as [H _]; [discriminate|vm_compute; discriminate|]. exact H.
  - destruct (numeric_argument "" "" "" "abc" eq_refl eq_refl eq_refl eq_refl)
      as (_ & H & _).
    apply H. right. split; reflexivity.
Defined.

Lemma take_sign_signed sg s :
  is_sign sg = true -> (sg = "" -> starts_with_sign s = false) ->
  take_sign (sg ++ s) = (sg, s).
Proof.
  intros Hs H. destruct (is_sign_cases sg Hs) as [E|[E|E]]; subst sg; try reflexivity.
  cbn [append]. specialize (H eq_refl). destruct s as [|c r]; [reflexivity|].
  cbn [starts_with_sign] in H. revert H.
  each_char c; intros H; try discriminate H; reflexivity.
Qed.

Lemma digit_not_a_sign s : starts_with_digit s = true -> starts_with_sign s = false.
Proof.
  destruct s as [|c r]; [discriminate|]. cbn.
  each_char c; intros H; try discriminate H; reflexivity.
Qed.

Lemma digit_no_space s : starts_with_digit s = true -> starts_with_space s = false.
Proof. destruct s as [|c r]; [discriminate|]. cbn. apply digit_not_space. Qed.

Lemma starts_with_digit_app ds tail :
  all_digits ds = true -> ds <> "" -> starts_with_digit (ds ++ tail) = true.
Proof.
  intros Hd Hn. destruct (digit_start ds tail Hd Hn) as (c & r & -> & Hc). exact Hc.
Qed.

Lemma signed_no_space sg s :
  is_sign sg = true -> (sg = "" -> starts_with_space s = false) ->
  starts_with_space (sg ++ s) = false.
Proof.
  intros Hs H. destruct (is_sign_cases sg Hs) as [E|[E|E]]; subst sg; try reflexivity.
  apply H. reflexivity.
Qed.

Lemma int_convert_signed sg ds :
  is_sign sg = true -> all_digits ds = true -> ds <> "" ->
  int_convert (sg ++ ds)
  = if in_int_range (signed sg (digits_value ds)) then Some (signed sg (digits_value ds))
    else None.
Proof.
  intros Hs Hd Hn. unfold int_convert.
  rewrite (take_sign_signed sg ds Hs)
    by (intros _; apply digit_not_a_sign;
        rewrite <- (append_nil_r ds); apply starts_with_digit_app; assumption).
  pose proof (digits_from_app ds "" Hd eq_refl 0 0%nat) as E.
  rewrite append_nil_r in E. rewrite E. fold (digits_value ds).
  destruct ds as [|c r]; [contradiction|]. cbn [String.length Nat.add]. reflexivity.
Qed.

(** X16.  What the extraction of an [int] from a stream reads.  White
    space in front is passed over; an optional sign and the longest run of
    digits are read, and the stream is left right behind them, whatever
    comes next.  The extraction succeeds, with the numeral's value, exactly
    when there is at least one digit and the value lies within the range of
    [int]; a value out of range and a text without a digit behind the
    optional sign both make it fail. *)
Theorem int_extraction (ws sg ds tail : string) :
  all_space ws = true -> is_sign sg = true -> all_digits ds = true ->
  starts_with_digit tail = false ->
  (ds <> "" ->
   get get_int (ws ++ sg ++ ds ++ tail)
   = if in_int_range (signed sg (digits_value ds))
     then Some (signed sg (digits_value ds), tail)
     else None)
  /\ (sg <> "" \/ (starts_with_sign tail = false /\ starts_with_space tail = false) ->
      get get_int (ws ++ sg ++ tail) = None).
Proof.
  intros Hw Hs Hd Ht. split.
  - intros Hn. unfold get.
    pose proof (starts_with_digit_app ds tail Hd Hn) as Hsd.
    rewrite (skip_ws_lead ws (sg ++ ds ++ tail) Hw)
      by (apply signed_no_space; [exact Hs|intros _; apply digit_no_space, Hsd]).
    rewrite (take_sign_signed sg (ds ++ tail) Hs)
      by (intros _; apply digit_not_a_sign, Hsd).
    cbv beta iota delta [get_int ng_state ng_step ng_init ng_convert].
    rewrite (accumulate_digits_app ds tail Hd Ht).
    rewrite (int_convert_signed sg ds Hs Hd Hn).
    destruct (in_int_range (signed sg (digits_value ds))); reflexivity.
  - intros H. unfold get.
    assert (H1 : sg = "" -> starts_with_space tail = false) by (intros E; tauto).
    assert (H2 : sg = "" -> starts_with_sign tail = false) by (intros E; tauto).
    rewrite (skip_ws_lead ws (sg ++ tail) Hw) by (apply signed_no_space; assumption).
    rewrite (take_sign_signed sg tail Hs H2).
    cbv beta iota delta [get_int ng_state ng_step ng_init ng_convert].
    pose proof (accumulate_digits_app "" tail eq_refl Ht) as Ea.
    cbn [append] in Ea. rewrite Ea.
    destruct (is_sign_cases sg Hs) as [E|[E|E]]; subst sg; reflexivity.
Qed.

(** X16 on [1-2], which holds two values, and on [1,2], which holds
    one. *)
Lemma int_extraction_witness :
  get get_int "1-2" = Some (1, "-2") /\ get get_int "-2" = Some (-2, "")
  /\ get get_int "1,2" = Some (1, ",2") /\ get get_int ",2" = None
  /\ get get_int "2147483648" = None.
Proof.
  split; [|split; [|split; [|split]]].
  - destruct (int_extraction "" "" "1" "-2" eq_refl eq_refl eq_refl eq_refl) as [H _].
    apply H. discriminate.
  - destruct (int_extraction "" "-" "2" "" eq_refl eq_refl eq_refl eq_refl) as [H _].
    apply H. discriminate.
  - destruct (int_extraction "" "" "1" ",2" eq_refl eq_refl eq_refl eq_refl) as [H _].
    apply H. discriminate.
  - destruct (int_extraction "" "" "" ",2" eq_refl eq_refl eq_refl eq_refl) as [_ H].
    apply H. right. split; reflexivity.
  - destruct (int_extraction "" "" "2147483648" "" eq_refl eq_refl eq_refl eq_refl) as [H _].
    apply H. discriminate.
Defined.

(** ** The assertions of debug.cpp *)

Lemma bind_ret_r {A} (m : M A) : bind m ret = m.
Proof.
  destruct m as [t [a| | |]]; cbn; rewrite ?app_nil_r; reflexivity.
Qed.

Section DebugFacts.
Variable cudaGetErrorString : cudaError_t -> string.

Lemma assert_report a :
  run_assertion cudaGetErrorString a
  = (map Stderr (report cudaGetErrorString a),
     if fatal a then Exited EXIT_FAILURE else Returned tt).
Proof.
  destruct a as [[|] text [|]|code file line]; try reflexivity.
  cbn [run_assertion fatal report]. unfold gpuAssert.
  destruct (code =? cudaSuccess); reflexivity.
Qed.

(** X17.  Assertions one after the other.  As long as none fails fatally
    (a [conditionAssert] whose condition is false and whose [abort] is set,
    or a [gpuAssert] whose code is not [cudaSuccess]), each failed one
    writes its line to [stderr], a warning, and the run goes on.  The first
    that fails fatally writes its line and ends the process with
    [EXIT_FAILURE]: the assertions after it are never made.  Nothing is
    written for an assertion that holds, and nothing is ever written to
    [stdout]. *)
Theorem assertions_in_sequence (before after : list assertion) (a : assertion) :
  forallb (fun x => negb (fatal x)) before = true ->
  run_assertions cudaGetErrorString before
  = (map Stderr (flat_map (report cudaGetErrorString) before), Returned tt)
  /\ (fatal a = true ->
      run_assertions cudaGetErrorString (before ++ a :: after)
      = (map Stderr (flat_map (report cudaGetErrorString) (before ++ [a])),
         Exited EXIT_FAILURE)).
Proof.
  induction before as [|x before IH]; intros H.
  - split; [reflexivity|]. intros Ha. cbn [app run_assertions flat_map].
    rewrite assert_report, Ha, app_nil_r. reflexivity.
  - cbn [forallb] in H. apply andb_prop in H. destruct H as [Hx H].
    apply negb_true_iff in Hx. destruct (IH H) as [IH1 IH2].
    split.
    + cbn [run_assertions flat_map]. rewrite assert_report, Hx, IH1, map_app. reflexivity.
    + intros Ha. cbn [app run_assertions flat_map].
      rewrite assert_report, Hx, (IH2 Ha), map_app. reflexivity.
Qed.

End DebugFacts.

(** X17 on a warning, then a failed CUDA call at line 42, then an
    assertion that is never made. *)
Lemma assertions_witness :
  run_assertions (fun _ => "out of memory")
    [Condition false "slow path" false; Gpu 2 "ddm.cu" 42; Condition false "late" true]
  = ([Stderr ("[Warning] slow path" ++ NL);
      Stderr ("[GPU Assert] out of memory ddm.cu 42" ++ NL)],
     Exited EXIT_FAILURE).
Proof.
  destruct (assertions_in_sequence (fun _ => "out of memory")
              [Condition false "slow path" false] [Condition false "late" true]
              (Gpu 2 "ddm.cu" 42) eq_refl) as [_ H].
  exact (H eq_refl).
Defined.

(** ** Verbose mode *)

(** X18.  [verbose] writes nothing and returns 0 unless verbose mode is
    on.  Verbose mode is off when [main] starts.  Once option parsing has
    passed, it is on exactly when [-v] was among the options, and [verbose]
    then does what [vprintf] does with the same arguments and returns what
    it returns. *)
Theorem verbose_follows_option (atof : string -> double) (ord : ordering) (argv0 : string)
    (args : list string) (tr : list event) (l : locals)
    (va_list : Type) (vprintf : string -> va_list -> M Z) (format : string) (ap : va_list) :
  parse_options atof ord argv0 args = (tr, Returned (inl l)) ->
  verbose va_list vprintf initial_locals format ap = ret 0
  /\ Verbose l = flag_option "v" (fst (scan ord argv0 args))
  /\ verbose va_list vprintf l format ap
     = if flag_option "v" (fst (scan ord argv0 args)) then vprintf format ap else ret 0.
Proof.
  intros H. split; [reflexivity|].
  pose proof (parse_accepted atof ord argv0 args tr l H) as Hj.
  pose proof (judge_cases atof ord argv0 args) as Hc. cbv zeta in Hc. rewrite Hj in Hc.
  destruct Hc as (Hl & _).
  assert (HV : Verbose l = flag_option "v" (fst (scan ord argv0 args))).
  { rewrite Hl.
    rewrite (fold_flag atof Verbose "v")
      by (intros l0 e; pose proof (effect_members atof l0 e) as M; member M).
    reflexivity. }
  split; [exact HV|].
  unfold verbose. rewrite HV.
  destruct (flag_option "v" (fst (scan ord argv0 args))); [|reflexivity].
  cbn [negb]. apply bind_ret_r.
Qed.

(** X18 on [-v] with a [vprintf] that writes the format as it is. *)
Lemma verbose_witness :
  let vprintf := fun (format : string) (_ : unit) =>
                   printf format;; ret (Z.of_nat (String.length format)) in
  exists l,
    parse_options no_atof PERMUTE "ddm" ["-v"; "-B"] = ([Stdout start_text], Returned (inl l))
    /\ verbose unit vprintf l "chunk" tt = ([Stdout "chunk"], Returned 5)
    /\ verbose unit vprintf initial_locals "chunk" tt = ([], Returned 0).
Proof.
  cbv zeta. eexists. split; [vm_compute; reflexivity|].
  match goal with
  | |- verbose _ ?v ?l _ _ = _ /\ _ =>
      destruct (verbose_follows_option no_atof PERMUTE "ddm" ["-v"; "-B"]
                  [Stdout start_text] l unit v "chunk" tt) as (H0 & _ & H1);
        [vm_compute; reflexivity|]
  end.
  split; [rewrite H1; vm_compute; reflexivity|exact H0].
Defined.

(** ** What a run depends on *)




(** ** Order and repetition of the options *)



Section LastArguments.
Variable atof : string -> double.



End LastArguments.



(** ** The two orderings of [getopt] *)

Section Orderings.
Variable argv0 : string.

Lemma nonoption_ends_scan a r n :
  NONOPTION_P a = true ->
  (if String.eqb a "--" then finish n r
   else
     match a with
     | String "-" (String c nc) => take_option argv0 optstring c nc r n
     | _ => finish n (a :: r)
     end) = finish n (a :: r).
Proof.
  intros H. destruct a as [|x a]; [reflexivity|].
  destruct (Ascii.eqb_spec x "-") as [E|N].
  - subst x. destruct a as [|y a]; [reflexivity|]. discriminate H.
  - assert (E1 : String.eqb (String x a) "--" = false).
    { cbn [String.eqb]. destruct (Ascii.eqb_spec x "-") as [E|_]; [contradiction|].
      reflexivity. }
    rewrite E1. revert N. each_char x; intros N; try reflexivity. contradiction N.
    reflexivity.
Qed.

(** Where no operand has been passed over, the two orderings make the same
    call, unless the next element is an operand: there the scan in order
    ends and leaves it unscanned. *)
Lemma getopt_orderings d :
  nonopts d = [] ->
  getopt PERMUTE argv0 optstring d = getopt REQUIRE_ORDER argv0 optstring d
  \/ (opt_char (getopt REQUIRE_ORDER argv0 optstring d) = None
      /\ rest (after (getopt REQUIRE_ORDER argv0 optstring d)) <> []).
Proof.
  destruct d as [nx rs no]. cbn [nonopts]. intros ->. unfold getopt. cbn [nextchar rest nonopts].
  destruct nx as [|c nc]; [|left; reflexivity].
  destruct rs as [|a r]; [left; reflexivity|].
  destruct (NONOPTION_P a) eqn:E.
  - right. rewrite (nonoption_ends_scan a r [] E). cbn. split; [reflexivity|discriminate].
  - left. cbn [skip_nonopts]. rewrite E. reflexivity.
Qed.

Lemma getopt_in_order_nonopts d :
  nonopts d = [] -> nonopts (after (getopt REQUIRE_ORDER argv0 optstring d)) = [].
Proof.
  intros H.
  assert (Hf : forall n r, nonopts (after (finish n r)) = []) by reflexivity.
  assert (Ht : forall c nc r,
             nonopts (after (take_option argv0 optstring c nc r [])) = []).
  { intros c nc r.
    destruct (take_option_facts argv0 optstring c nc r []) as (x & _ & _ & Hn & _).
    exact Hn. }
  destruct d as [nx rs no]. cbn [nonopts] in H. subst no.
  unfold getopt. cbn [nextchar rest nonopts].
  destruct nx as [|c nc]; [|apply Ht].
  destruct rs as [|a r]; [apply Hf|].
  destruct (String.eqb a "--"); [apply Hf|].
  destruct a as [|x a]; [apply Hf|].
  destruct a as [|y a]; [each_char x; apply Hf|].
  each_char x; first [apply Hf|apply Ht].
Qed.

Lemma getopt_run_orderings fuel :
  forall d es fin,
    nonopts d = [] ->
    getopt_run REQUIRE_ORDER argv0 fuel d = (es, Some fin) -> rest fin = [] ->
    getopt_run PERMUTE argv0 fuel d = (es, Some fin).
Proof.
  induction fuel as [|fuel IH]; intros d es fin Hn H Hr; cbn [getopt_run] in *;
    [discriminate H|].
  destruct (getopt_orderings d Hn) as [E|[E1 E2]].
  - rewrite E.
    destruct (opt_char (getopt REQUIRE_ORDER argv0 optstring d)) as [c|]; [|exact H].
    destruct (getopt_run REQUIRE_ORDER argv0 fuel
                (after (getopt REQUIRE_ORDER argv0 optstring d))) as [es' fin'] eqn:Er.
    inversion H. subst.
    rewrite (IH _ es' fin (getopt_in_order_nonopts d Hn) Er Hr). reflexivity.
  - rewrite E1 in H. inversion H. subst. contradiction.
Qed.

End Orderings.

(** X21.  Whether [getopt] scans the arguments in order ([POSIXLY_CORRECT]
    set) or passes over operands to find the options behind them makes a
    difference only where there are operands: when the scan in order gets
    through the arguments without leaving any, the two scans report the
    same options and [main] makes the same run. *)
Theorem ordering_matters_for_operands_only (atof : string -> double) (env : environment)
    (argv0 : string) (args : list string) :
  operands REQUIRE_ORDER argv0 args = [] ->
  scan PERMUTE argv0 args = scan REQUIRE_ORDER argv0 args
  /\ main atof PERMUTE env argv0 args = main atof REQUIRE_ORDER env argv0 args.
Proof.
  intros H.
  assert (Hs : scan PERMUTE argv0 args = scan REQUIRE_ORDER argv0 args).
  { destruct (scan_total REQUIRE_ORDER argv0 args) as (es & fin & Hs & _).
    unfold operands in H. rewrite Hs in H. cbn [snd] in H.
    rewrite Hs. unfold scan in *.
    apply getopt_run_orderings; [reflexivity|exact Hs|exact H]. }
  split; [exact Hs|].
  rewrite !main_judge. unfold judge. rewrite Hs. reflexivity.
Qed.

(** X21 on an argument vector without operands. *)
Lemma ordering_witness :
  operands REQUIRE_ORDER "ddm" (benchmark_run ["-N"; "5"]) = []
  /\ main no_atof PERMUTE scenario_files "ddm" (benchmark_run ["-N"; "5"])
     = main no_atof REQUIRE_ORDER scenario_files "ddm" (benchmark_run ["-N"; "5"]).
Proof.
  split; [vm_compute; reflexivity|].
  apply ordering_matters_for_operands_only. vm_compute. reflexivity.
Defined.

(** ** Decimal numerals, as the extraction of a [float] reads them *)

Lemma accumulate_scan_all {S} (step : S -> ascii -> option (S * string)) a :
  forall st st' x b,
    scan_all step st a = Some (st', x) ->
    accumulate step st (a ++ b)
    = let '(x', r) := accumulate step st' b in (x ++ x', r).
Proof.
  induction a as [|c r IH]; intros st st' x b H; cbn [scan_all append] in *.
  - inversion H. subst. destruct (accumulate step st' b). reflexivity.
  - cbn [accumulate]. destruct (step st c) as [[st1 out]|]; [|discriminate H].
    destruct (scan_all step st1 r) as [[st2 x2]|] eqn:E; [|discriminate H].
    inversion H. subst. rewrite (IH _ _ _ b E).
    destruct (accumulate step st' b). rewrite append_assoc. reflexivity.
Qed.

Lemma digit_cases c :
  isdigit c = true ->
  Ascii.eqb c "." = false /\ Ascii.eqb c "e" = false /\ Ascii.eqb c "E" = false
  /\ Ascii.eqb c "+" = false /\ Ascii.eqb c "-" = false.
Proof. each_char c; intros H; try discriminate H; repeat split. Qed.

(** The digits behind the first that is not a zero, and all digits behind
    the point: gathered as they are. *)
Lemma scan_digits ds :
  all_digits ds = true ->
  forall fm fd fs,
    scan_all float_step
      {| leading := false; found_mantissa := fm; found_dec := fd; found_sci := fs;
         after_e := false |} ds
    = Some ({| leading := false;
               found_mantissa := (fm || negb (String.eqb ds ""))%bool;
               found_dec := fd; found_sci := fs; after_e := false |}, ds).
Proof.
  induction ds as [|c r IH]; intros Hd fm fd fs; cbn [scan_all].
  - cbn. rewrite orb_false_r. reflexivity.
  - cbn [all_digits] in Hd. apply andb_prop in Hd. destruct Hd as [Hc Hr].
    unfold float_step at 1. cbn [after_e leading andb]. unfold float_body. rewrite Hc.
    cbn [found_dec found_sci]. rewrite (IH Hr). cbn. rewrite orb_true_r. reflexivity.
Qed.

(** The digits in front of the point. *)
Lemma scan_leading ds :
  all_digits ds = true ->
  forall fm,
    exists ld,
      scan_all float_step
        {| leading := true; found_mantissa := fm; found_dec := false; found_sci := false;
           after_e := false |} ds
      = Some ({| leading := ld;
                 found_mantissa := (fm || negb (String.eqb ds ""))%bool;
                 found_dec := false; found_sci := false; after_e := false |},
              squeeze fm ds).
Proof.
  induction ds as [|c r IH]; intros Hd fm; cbn [scan_all squeeze].
  - exists true. cbn. rewrite orb_false_r. reflexivity.
  - cbn [all_digits] in Hd. apply andb_prop in Hd. destruct Hd as [Hc Hr].
    unfold float_step at 1. cbn [after_e leading andb].
    destruct (Ascii.eqb c "0") eqn:E0.
    + cbn [found_dec found_sci]. destruct (IH Hr true) as [ld ->].
      exists ld. cbn. rewrite orb_true_r. reflexivity.
    + unfold float_body. rewrite Hc. cbn [found_dec found_sci].
      rewrite (scan_digits r Hr). exists false. cbn. rewrite orb_true_r. reflexivity.
Qed.

Lemma scan_point ld fm :
  scan_all float_step
    {| leading := ld; found_mantissa := fm; found_dec := false; found_sci := false;
       after_e := false |} "."
  = Some ({| leading := false; found_mantissa := fm; found_dec := true; found_sci := false;
             after_e := false |}, ".").
Proof. destruct ld; reflexivity. Qed.

Lemma stop_at_tail ld fd tail :
  ends_numeral tail = true -> (fd = false -> starts_with_point tail = false) ->
  accumulate float_step
    {| leading := ld; found_mantissa := true; found_dec := fd; found_sci := false;
       after_e := false |} tail
  = ("", tail).
Proof.
  intros H Hp. destruct tail as [|c r]; [reflexivity|].
  cbn [ends_numeral] in H. apply negb_true_iff in H.
  apply orb_false_elim in H. destruct H as [H HE].
  apply orb_false_elim in H. destruct H as [Hd He].
  cbn [accumulate]. unfold float_step. cbn [after_e leading].
  assert (H0 : (ld && Ascii.eqb c "0")%bool = false).
  { destruct (Ascii.eqb_spec c "0") as [E|_]; [subst c; discriminate Hd|].
    apply andb_false_r. }
  rewrite H0. unfold float_body. rewrite Hd, He, HE. cbn [found_dec found_sci orb andb negb].
  destruct fd; cbn [negb andb].
  - rewrite andb_false_r. reflexivity.
  - cbn [starts_with_point] in Hp. rewrite (Hp eq_refl). reflexivity.
Qed.

Lemma squeeze_digits ds : all_digits ds = true -> forall fm, all_digits (squeeze fm ds) = true.
Proof.
  induction ds as [|c r IH]; intros Hd fm; cbn [squeeze]; [reflexivity|].
  pose proof Hd as Hd'. cbn [all_digits] in Hd. apply andb_prop in Hd. destruct Hd as [Hc Hr].
  destruct (Ascii.eqb c "0"); [|exact Hd'].
  destruct fm; cbn [append]; [apply IH, Hr|].
  cbn [all_digits]. rewrite (IH Hr). reflexivity.
Qed.

Lemma digits_from_zero r : forall n, digits_from 0 n (String "0" r) = digits_from 0 (S n) r.
Proof. intros n. reflexivity. Qed.

Lemma digits_from_count s :
  forall acc n m, fst (fst (digits_from acc n s)) = fst (fst (digits_from acc m s)).
Proof.
  induction s as [|c r IH]; intros acc n m; cbn [digits_from]; [reflexivity|].
  destruct (isdigit c); [apply IH|reflexivity].
Qed.

Lemma squeeze_value ds :
  all_digits ds = true ->
  forall fm, fst (fst (digits_from 0 0 (squeeze fm ds))) = fst (fst (digits_from 0 0 ds)).
Proof.
  induction ds as [|c r IH]; intros Hd fm; cbn [squeeze]; [reflexivity|].
  cbn [all_digits] in Hd. apply andb_prop in Hd. destruct Hd as [Hc Hr].
  destruct (Ascii.eqb_spec c "0") as [E|_]; [|reflexivity].
  subst c. rewrite (digits_from_zero r).
  rewrite (digits_from_count r 0 1%nat 0%nat), <- (IH Hr true).
  destruct fm; cbn [append]; [reflexivity|].
  rewrite (digits_from_zero (squeeze true r)). apply digits_from_count.
Qed.

Lemma squeeze_empty ds fm : ds <> "" -> fm = false -> squeeze fm ds <> "".
Proof.
  intros Hn ->. destruct ds as [|c r]; [contradiction|]. cbn [squeeze].
  destruct (Ascii.eqb c "0"); discriminate.
Qed.

Lemma digits_from_value_app a b :
  all_digits a = true ->
  forall acc n m,
    fst (fst (digits_from acc n (a ++ b)))
    = fst (fst (digits_from (fst (fst (digits_from acc n a))) m b)).
Proof.
  intros Ha. induction a as [|c r IH]; intros acc n m; cbn [append digits_from].
  - cbn [fst]. apply digits_from_count.
  - cbn [all_digits] in Ha. apply andb_prop in Ha. destruct Ha as [Hc Hr].
    rewrite Hc. apply (IH Hr).
Qed.

Lemma digits_from_length ds :
  all_digits ds = true ->
  forall acc n,
    digits_from acc n ds = (fst (fst (digits_from acc n ds)), (n + String.length ds)%nat, "").
Proof.
  intros Hd acc n. pose proof (digits_from_app ds "" Hd eq_refl acc n) as E.
  rewrite append_nil_r in E. exact E.
Qed.

Lemma point_not_digit s : starts_with_digit (String "." s) = false.
Proof. reflexivity. Qed.

(** The gathered text of a decimal numeral, converted. *)
Lemma parse_decimal_point sg ip fp :
  is_sign sg = true -> all_digits ip = true -> all_digits fp = true ->
  ip <> "" \/ fp <> "" ->
  parse_decimal (sg ++ squeeze false ip ++ "." ++ fp)
  = Some (String.eqb sg "-", digits_value (ip ++ fp), - Z.of_nat (String.length fp), "").
Proof.
  intros Hs Hi Hf Hne. unfold parse_decimal.
  assert (Hq : all_digits (squeeze false ip) = true) by (apply squeeze_digits; exact Hi).
  rewrite (take_sign_signed sg (squeeze false ip ++ "." ++ fp) Hs).
  2:{ intros _. destruct (squeeze false ip) as [|c r] eqn:E; [reflexivity|].
      cbn [append]. apply digit_not_a_sign. cbn [starts_with_digit].
      cbn [all_digits] in Hq. apply andb_prop in Hq. tauto. }
  rewrite (digits_from_app (squeeze false ip) ("." ++ fp) Hq (point_not_digit fp) 0 0%nat).
  rewrite (squeeze_value ip Hi false). cbn [append].
  rewrite (digits_from_length fp Hf).
  assert (Hv : fst (fst (digits_from (fst (fst (digits_from 0 0 ip))) 0 fp))
               = digits_value (ip ++ fp)).
  { unfold digits_value. rewrite (digits_from_value_app ip fp Hi 0 0%nat 0%nat). reflexivity. }
  rewrite Hv. cbn [Nat.add].
  destruct (String.length (squeeze false ip) + String.length fp)%nat eqn:En.
  - exfalso. destruct Hne as [H|H].
    + apply (squeeze_empty ip false H eq_refl).
      destruct (squeeze false ip); [reflexivity|]. cbn [String.length] in En. lia.
    + destruct fp; [contradiction|]. cbn [String.length] in En. lia.
  - reflexivity.
Qed.

Lemma parse_decimal_whole sg ip :
  is_sign sg = true -> all_digits ip = true -> ip <> "" ->
  parse_decimal (sg ++ squeeze false ip)
  = Some (String.eqb sg "-", digits_value ip, 0, "").
Proof.
  intros Hs Hi Hne. unfold parse_decimal.
  assert (Hq : all_digits (squeeze false ip) = true) by (apply squeeze_digits; exact Hi).
  pose proof (squeeze_empty ip false Hne eq_refl) as Hsq.
  rewrite (take_sign_signed sg (squeeze false ip) Hs).
  2:{ intros _. destruct (squeeze false ip) as [|c r] eqn:E; [reflexivity|].
      apply digit_not_a_sign. cbn [starts_with_digit].
      cbn [all_digits] in Hq. apply andb_prop in Hq. tauto. }
  rewrite (digits_from_length (squeeze false ip) Hq).
  rewrite (squeeze_value ip Hi false). fold (digits_value ip). cbn [Nat.add].
  destruct (squeeze false ip) as [|c r]; [contradiction|].
  cbn [String.length Nat.add]. reflexivity.
Qed.

(** X22.  What the extraction of a [float] reads from a decimal numeral
    without exponent.  White space in front is passed over; an optional
    sign, digits, a point and more digits are read (at least one digit in
    all), and the stream is left right behind them.  The value is the
    numeral (the digits as one integer, scaled by the power of ten that the
    number of digits behind the point gives) rounded to single precision,
    and the extraction fails only when that is an infinity.  Zeros in front
    do not matter.  Without the point the digits alone are read in the
    same way. *)
Theorem float_extraction (ws sg ip fp tail : string) :
  all_space ws = true -> is_sign sg = true ->
  all_digits ip = true -> all_digits fp = true -> ip <> "" \/ fp <> "" ->
  ends_numeral tail = true ->
  let value := decimal 24 128 (String.eqb sg "-") (digits_value (ip ++ fp))
                 (- Z.of_nat (String.length fp)) in
  get get_float (ws ++ sg ++ ip ++ "." ++ fp ++ tail)
  = (if is_infinite value then None else Some (value, tail))
  /\ (fp = "" -> ip <> "" -> starts_with_point tail = false ->
      get get_float (ws ++ sg ++ ip ++ tail)
      = if is_infinite value then None else Some (value, tail)).
Proof.
  intros Hw Hs Hi Hf Hne Ht value.
  assert (Hstart : forall rest,
             (ip = "" -> starts_with_sign rest = false /\ starts_with_space rest = false) ->
             starts_with_sign (ip ++ rest) = false /\ starts_with_space (ip ++ rest) = false).
  { intros rest H. destruct ip as [|c r]; [apply H; reflexivity|].
    cbn [all_digits] in Hi. apply andb_prop in Hi. destruct Hi as [Hc _].
    split; [apply digit_not_a_sign; exact Hc|apply digit_no_space; exact Hc]. }
  assert (Hfm : (false || negb (String.eqb ip "") || negb (String.eqb fp ""))%bool = true).
  { destruct Hne as [H|H].
    - destruct ip; [contradiction|]. reflexivity.
    - destruct fp; [contradiction|]. apply orb_true_r. }
  split.
  - unfold get.
    destruct (Hstart ("." ++ fp ++ tail) ltac:(intros _; split; reflexivity)) as [H1 H2].
    rewrite (skip_ws_lead ws (sg ++ ip ++ "." ++ fp ++ tail) Hw)
      by (apply signed_no_space; [exact Hs|intros _; exact H2]).
    rewrite (take_sign_signed sg (ip ++ "." ++ fp ++ tail) Hs) by (intros _; exact H1).
    cbv beta iota delta [get_float ng_state ng_step ng_init ng_convert].
    destruct (scan_leading ip Hi false) as [ld Hl]. unfold float_init.
    rewrite (accumulate_scan_all float_step ip _ _ _ ("." ++ fp ++ tail) Hl).
    rewrite (accumulate_scan_all float_step "." _ _ _ (fp ++ tail) (scan_point ld _)).
    rewrite (accumulate_scan_all float_step fp _ _ _ tail (scan_digits fp Hf _ _ _)).
    rewrite Hfm.
    rewrite (stop_at_tail false true tail Ht) by discriminate.
    rewrite !append_nil_r.
    unfold float_convert.
    rewrite (parse_decimal_point sg ip fp Hs Hi Hf Hne). fold value.
    destruct (is_infinite value); reflexivity.
  - intros Hfp Hip Hp. subst fp. unfold get.
    assert (Hd : starts_with_digit (ip ++ tail) = true)
      by (apply starts_with_digit_app; assumption).
    rewrite (skip_ws_lead ws (sg ++ ip ++ tail) Hw)
      by (apply signed_no_space; [exact Hs|intros _; apply digit_no_space, Hd]).
    rewrite (take_sign_signed sg (ip ++ tail) Hs) by (intros _; apply digit_not_a_sign, Hd).
    cbv beta iota delta [get_float ng_state ng_step ng_init ng_convert].
    destruct (scan_leading ip Hi false) as [ld Hl]. unfold float_init.
    rewrite (accumulate_scan_all float_step ip _ _ _ tail Hl).
    assert (Hm : (false || negb (String.eqb ip ""))%bool = true)
      by (destruct ip; [contradiction|reflexivity]).
    rewrite Hm.
    rewrite (stop_at_tail ld false tail Ht) by (intros _; exact Hp).
    rewrite !append_nil_r.
    unfold float_convert. rewrite (parse_decimal_whole sg ip Hs Hi Hip).
    unfold value. rewrite append_nil_r. cbn [String.length Z.of_nat Z.opp].
    destruct (is_infinite (decimal 24 128 (String.eqb sg "-") (digits_value ip) 0));
      reflexivity.
Qed.

(** X22 on [0.25], on [-.5x] and on [007]. *)
Lemma float_extraction_witness :
  get get_float "0.25" = Some (S754_finite false 8388608 (-25), "")
  /\ get get_float "-.5x" = Some (S754_finite true 8388608 (-24), "x")
  /\ get get_float "007" = Some (S754_finite false 14680064 (-21), "").
Proof.
  assert (H1 : "0" <> "" \/ "25" <> "") by (left; discriminate).
  assert (H2 : "" <> "" \/ "5" <> "") by (right; discriminate).
  assert (H3 : "007" <> "" \/ "" <> "") by (left; discriminate).
  split; [|split].
  - pose proof (float_extraction "" "" "0" "25" "") as H.
    specialize (H eq_refl). specialize (H eq_refl). specialize (H eq_refl).
    specialize (H eq_refl). specialize (H H1). specialize (H eq_refl).
    cbv zeta in H. destruct H as [H _]. vm_compute in H. vm_compute. exact H.
  - pose proof (float_extraction "" "-" "" "5" "x") as H.
    specialize (H eq_refl). specialize (H eq_refl). specialize (H eq_refl).
    specialize (H eq_refl). specialize (H H2). specialize (H eq_refl).
    cbv zeta in H. destruct H as [H _]. vm_compute in H. vm_compute. exact H.
  - pose proof (float_extraction "" "" "007" "" "") as H.
    specialize (H eq_refl). specialize (H eq_refl). specialize (H eq_refl).
    specialize (H eq_refl). specialize (H H3). specialize (H eq_refl).
    cbv zeta in H. destruct H as [_ H]. specialize (H eq_refl).
    assert (H4 : "007" <> "") by discriminate.
    specialize (H H4). specialize (H eq_refl). vm_compute in H. vm_compute. exact H.
Defined.

(** ** Numerals with an exponent *)

Lemma scan_all_app {S} (step : S -> ascii -> option (S * string)) a :
  forall st st' x b st'' y,
    scan_all step st a = Some (st', x) -> scan_all step st' b = Some (st'', y) ->
    scan_all step st (a ++ b) = Some (st'', x ++ y).
Proof.
  induction a as [|c r IH]; intros st st' x b st'' y Ha Hb; cbn [scan_all append] in *.
  - inversion Ha. subst. exact Hb.
  - destruct (step st c) as [[st1 out]|]; [|discriminate Ha].
    destruct (scan_all step st1 r) as [[st2 x2]|] eqn:E; [|discriminate Ha].
    inversion Ha. subst. rewrite (IH _ _ _ _ _ _ E Hb), append_assoc. reflexivity.
Qed.

(** The mantissa, with its point or without. *)
Lemma scan_mantissa ip fp (point : bool) :
  all_digits ip = true -> all_digits fp = true -> ip <> "" \/ fp <> "" ->
  (point = false -> fp = "") ->
  exists ld,
    scan_all float_step float_init (ip ++ (if point then "." else "") ++ fp)
    = Some ({| leading := ld; found_mantissa := true; found_dec := point;
               found_sci := false; after_e := false |},
            squeeze false ip ++ (if point then "." else "") ++ fp).
Proof.
  intros Hi Hf Hne Hp. destruct (scan_leading ip Hi false) as [ld Hl].
  unfold float_init. destruct point.
  - exists false.
    apply (scan_all_app float_step ip _ _ _ ("." ++ fp) _ _ Hl).
    apply (scan_all_app float_step "." _ _ _ fp _ _ (scan_point ld _)).
    rewrite (scan_digits fp Hf). f_equal. f_equal. f_equal.
    destruct Hne as [H|H].
    + destruct ip; [contradiction|]. reflexivity.
    + destruct fp; [contradiction|]. apply orb_true_r.
  - rewrite (Hp eq_refl) in *. cbn [append]. rewrite !append_nil_r.
    exists ld. rewrite Hl. f_equal. f_equal. f_equal.
    destruct Hne as [H|H]; [|contradiction].
    destruct ip; [contradiction|]. reflexivity.
Qed.

Lemma is_exponent_letter_cases el : is_exponent_letter el = true -> el = "e" \/ el = "E".
Proof.
  unfold is_exponent_letter. intros H. apply orb_true_iff in H.
  destruct H as [H|H]; apply String.eqb_eq in H; auto.
Qed.

Lemma scan_after_letter fd ed :
  all_digits ed = true -> ed <> "" ->
  scan_all float_step
    {| leading := false; found_mantissa := true; found_dec := fd; found_sci := true;
       after_e := true |} ed
  = Some ({| leading := false; found_mantissa := true; found_dec := fd; found_sci := true;
             after_e := false |}, ed).
Proof.
  intros Hd Hn. destruct ed as [|c r]; [contradiction|].
  cbn [all_digits] in Hd. apply andb_prop in Hd. destruct Hd as [Hc Hr].
  cbn [scan_all]. unfold float_step at 1. cbn [after_e].
  destruct (digit_cases c Hc) as (_ & _ & _ & Hp & Hm). rewrite Hp, Hm. cbn [orb].
  unfold float_body. rewrite Hc. cbn [found_dec found_sci].
  rewrite (scan_digits r Hr). reflexivity.
Qed.

(** The exponent: its letter, an optional sign, and digits. *)
Lemma scan_exponent ld fd el esg ed :
  is_exponent_letter el = true -> is_sign esg = true -> all_digits ed = true -> ed <> "" ->
  scan_all float_step
    {| leading := ld; found_mantissa := true; found_dec := fd; found_sci := false;
       after_e := false |} (el ++ esg ++ ed)
  = Some ({| leading := false; found_mantissa := true; found_dec := fd; found_sci := true;
             after_e := false |}, "e" ++ esg ++ ed).
Proof.
  intros He Hs Hd Hn.
  assert (Hl : scan_all float_step
                 {| leading := ld; found_mantissa := true; found_dec := fd;
                    found_sci := false; after_e := false |} el
               = Some ({| leading := false; found_mantissa := true; found_dec := fd;
                          found_sci := true; after_e := true |}, "e")).
  { destruct (is_exponent_letter_cases el He) as [E|E]; subst el; destruct ld; reflexivity. }
  apply (scan_all_app float_step el _ _ _ (esg ++ ed) _ _ Hl).
  destruct (is_sign_cases esg Hs) as [E|[E|E]]; subst esg.
  - cbn [append]. rewrite (scan_after_letter fd ed Hd Hn). reflexivity.
  - apply (scan_all_app float_step "+" _
             {| leading := false; found_mantissa := true; found_dec := fd;
                found_sci := true; after_e := false |} "+" ed); [reflexivity|].
    rewrite (scan_digits ed Hd). reflexivity.
  - apply (scan_all_app float_step "-" _
             {| leading := false; found_mantissa := true; found_dec := fd;
                found_sci := true; after_e := false |} "-" ed); [reflexivity|].
    rewrite (scan_digits ed Hd). reflexivity.
Qed.

Lemma stop_after_exponent fd tail :
  starts_with_digit tail = false ->
  accumulate float_step
    {| leading := false; found_mantissa := true; found_dec := fd; found_sci := true;
       after_e := false |} tail
  = ("", tail).
Proof.
  intros H. destruct tail as [|c r]; [reflexivity|]. cbn [starts_with_digit] in H.
  cbn [accumulate]. unfold float_step. cbn [after_e leading andb]. unfold float_body.
  rewrite H. cbn [found_dec found_sci negb]. rewrite !andb_false_r. cbn [andb].
  reflexivity.
Qed.

(** The gathered text of a numeral with an exponent, converted. *)
Lemma parse_decimal_exponent sg ip fp (point : bool) esg ed :
  is_sign sg = true -> all_digits ip = true -> all_digits fp = true ->
  ip <> "" \/ fp <> "" -> (point = false -> fp = "") ->
  is_sign esg = true -> all_digits ed = true -> ed <> "" ->
  parse_decimal (sg ++ (squeeze false ip ++ (if point then "." else "") ++ fp)
                 ++ "e" ++ esg ++ ed)
  = Some (String.eqb sg "-", digits_value (ip ++ fp),
          signed esg (digits_value ed) - Z.of_nat (String.length fp), "").
Proof.
  intros Hs Hi Hf Hne Hp Hes Hd Hn. unfold parse_decimal.
  assert (Hq : all_digits (squeeze false ip) = true) by (apply squeeze_digits; exact Hi).
  assert (Hexp : forall (m : Z) (n2 : nat),
             (let '(e, s4) :=
                match "e" ++ esg ++ ed with
                | String c r =>
                    if (Ascii.eqb c "e" || Ascii.eqb c "E")%bool then
                      let '(esg0, r1) := take_sign r in
                      match digits_from 0 0 r1 with
                      | (_, O, _) => (0, "e" ++ esg ++ ed)
                      | (v, _, r2) => (if String.eqb esg0 "-" then - v else v, r2)
                      end
                    else (0, "e" ++ esg ++ ed)
                | EmptyString => (0, "e" ++ esg ++ ed)
                end in
              Some (String.eqb sg "-", m, e - Z.of_nat n2, s4))
             = Some (String.eqb sg "-", m, signed esg (digits_value ed) - Z.of_nat n2, "")).
  { intros m n2. cbn [append Ascii.eqb Bool.eqb orb andb].
    rewrite (take_sign_signed esg ed Hes)
      by (intros _; apply digit_not_a_sign; rewrite <- (append_nil_r ed);
          apply starts_with_digit_app; assumption).
    rewrite (digits_from_length ed Hd). fold (digits_value ed).
    destruct ed as [|c r]; [contradiction|]. cbn [String.length Nat.add]. reflexivity. }
  destruct point.
  - rewrite !append_assoc.
    rewrite (take_sign_signed sg (squeeze false ip ++ "." ++ fp ++ "e" ++ esg ++ ed) Hs).
    2:{ intros _. destruct (squeeze false ip) as [|c r] eqn:E; [reflexivity|].
        cbn [append]. apply digit_not_a_sign. cbn [starts_with_digit].
        cbn [all_digits] in Hq. apply andb_prop in Hq. tauto. }
    rewrite (digits_from_app (squeeze false ip) ("." ++ fp ++ "e" ++ esg ++ ed) Hq eq_refl
               0 0%nat).
    rewrite (squeeze_value ip Hi false). cbn [append].
    rewrite (digits_from_app fp (String "e" (esg ++ ed)) Hf eq_refl).
    assert (Hv : fst (fst (digits_from (fst (fst (digits_from 0 0 ip))) 0 fp))
                 = digits_value (ip ++ fp)).
    { unfold digits_value. rewrite (digits_from_value_app ip fp Hi 0 0%nat 0%nat).
      reflexivity. }
    rewrite Hv. cbn [Nat.add].
    destruct (String.length (squeeze false ip) + String.length fp)%nat eqn:En.
    + exfalso. destruct Hne as [H|H].
      * apply (squeeze_empty ip false H eq_refl).
        destruct (squeeze false ip); [reflexivity|]. cbn [String.length] in En. lia.
      * destruct fp; [contradiction|]. cbn [String.length] in En. lia.
    + exact (Hexp _ _).
  - rewrite (Hp eq_refl) in *. cbn [append]. rewrite !append_nil_r.
    assert (Hip : ip <> "") by (destruct Hne as [H|H]; [exact H|contradiction]).
    pose proof (squeeze_empty ip false Hip eq_refl) as Hsq.
    rewrite ?append_assoc.
    rewrite (take_sign_signed sg (squeeze false ip ++ String "e" (esg ++ ed)) Hs).
    2:{ intros _. destruct (squeeze false ip) as [|c r] eqn:E; [contradiction|].
        cbn [append]. apply digit_not_a_sign. cbn [starts_with_digit].
        cbn [all_digits] in Hq. apply andb_prop in Hq. tauto. }
    rewrite (digits_from_app (squeeze false ip) (String "e" (esg ++ ed)) Hq eq_refl 0 0%nat).
    rewrite (squeeze_value ip Hi false). fold (digits_value ip).
    cbn [append Ascii.eqb Bool.eqb]. cbn [Nat.add].
    destruct (String.length (squeeze false ip) + 0)%nat eqn:En.
    + exfalso. destruct (squeeze false ip); [contradiction|].
      cbn [String.length] in En. lia.
    + exact (Hexp _ _).
Qed.

(** X23.  What the extraction of a [float] reads from a numeral with an
    exponent.  Behind the digits, with their point or without, an [e] or
    [E], an optional sign and at least one digit are read as a power of
    ten, and the stream is left right behind these digits.  The value is
    the numeral scaled by that power of ten, rounded to single precision;
    the extraction fails only when that is an infinity. *)
Theorem float_exponent (ws sg ip fp el esg ed tail : string) (point : bool) :
  all_space ws = true -> is_sign sg = true ->
  all_digits ip = true -> all_digits fp = true -> ip <> "" \/ fp <> "" ->
  (point = false -> fp = "") ->
  is_exponent_letter el = true -> is_sign esg = true ->
  all_digits ed = true -> ed <> "" -> starts_with_digit tail = false ->
  let value := decimal 24 128 (String.eqb sg "-") (digits_value (ip ++ fp))
                 (signed esg (digits_value ed) - Z.of_nat (String.length fp)) in
  get get_float
    (ws ++ sg ++ (ip ++ (if point then "." else "") ++ fp) ++ (el ++ esg ++ ed) ++ tail)
  = if is_infinite value then None else Some (value, tail).
Proof.
  intros Hw Hs Hi Hf Hne Hp He Hes Hd Hn Ht value.
  set (mantissa := ip ++ (if point then "." else "") ++ fp).
  set (exponent := el ++ esg ++ ed).
  assert (Hstart : starts_with_sign (mantissa ++ exponent ++ tail) = false
                   /\ starts_with_space (mantissa ++ exponent ++ tail) = false).
  { unfold mantissa. destruct ip as [|c r].
    - destruct point.
      + split; reflexivity.
      + exfalso. destruct Hne as [H|H]; [contradiction|]. apply H, Hp. reflexivity.
    - cbn [all_digits] in Hi. apply andb_prop in Hi. destruct Hi as [Hc _].
      split; [apply digit_not_a_sign; exact Hc|apply digit_no_space; exact Hc]. }
  destruct Hstart as [H1 H2].
  unfold get.
  rewrite (skip_ws_lead ws (sg ++ mantissa ++ exponent ++ tail) Hw)
    by (apply signed_no_space; [exact Hs|intros _; exact H2]).
  rewrite (take_sign_signed sg (mantissa ++ exponent ++ tail) Hs) by (intros _; exact H1).
  cbv beta iota delta [get_float ng_state ng_step ng_init ng_convert].
  destruct (scan_mantissa ip fp point Hi Hf Hne Hp) as [ld Hm]. fold mantissa in Hm.
  rewrite (accumulate_scan_all float_step mantissa _ _ _ (exponent ++ tail) Hm).
  rewrite (accumulate_scan_all float_step exponent _ _ _ tail
             (scan_exponent ld point el esg ed He Hes Hd Hn)).
  rewrite (stop_after_exponent point tail Ht).
  rewrite !append_nil_r.
  unfold float_convert.
  rewrite (parse_decimal_exponent sg ip fp point esg ed Hs Hi Hf Hne Hp Hes Hd Hn).
  fold value. destruct (is_infinite value); reflexivity.
Qed.

(** X23 on [1e5], on [2.5E-1] and on [1e39], which is too large. *)
Lemma float_exponent_witness :
  get get_float "1e5" = Some (S754_finite false 12800000 (-7), "")
  /\ get get_float "2.5E-1 " = Some (S754_finite false 8388608 (-25), " ")
  /\ get get_float "1e39" = None.
Proof.
  assert (H1 : "1" <> "" \/ "" <> "") by (left; discriminate).
  assert (H2 : "2" <> "" \/ "5" <> "") by (left; discriminate).
  assert (N5 : "5" <> "") by discriminate.
  assert (N1 : "1" <> "") by discriminate.
  assert (N39 : "39" <> "") by discriminate.
  split; [|split].
  - pose proof (float_exponent "" "" "1" "" "e" "" "5" "" false) as H.
    specialize (H eq_refl). specialize (H eq_refl). specialize (H eq_refl).
    specialize (H eq_refl). specialize (H H1). specialize (H (fun _ => eq_refl)).
    specialize (H eq_refl). specialize (H eq_refl). specialize (H eq_refl).
    specialize (H N5). specialize (H eq_refl).
    cbv zeta in H. vm_compute in H. vm_compute. exact H.
  - pose proof (float_exponent "" "" "2" "5" "E" "-" "1" " " true) as H.
    specialize (H eq_refl). specialize (H eq_refl). specialize (H eq_refl).
    specialize (H eq_refl). specialize (H H2).
    assert (Hp : true = false -> "5" = "") by discriminate.
    specialize (H Hp).
    specialize (H eq_refl). specialize (H eq_refl). specialize (H eq_refl).
    specialize (H N1). specialize (H eq_refl).
    cbv zeta in H. vm_compute in H. vm_compute. exact H.
  - pose proof (float_exponent "" "" "1" "" "e" "" "39" "" false) as H.
    specialize (H eq_refl). specialize (H eq_refl). specialize (H eq_refl).
    specialize (H eq_refl). specialize (H H1). specialize (H (fun _ => eq_refl)).
    specialize (H eq_refl). specialize (H eq_refl). specialize (H eq_refl).
    specialize (H N39). specialize (H eq_refl).
    cbv zeta in H. vm_compute in H. vm_compute. exact H.
Defined.

(** * The numeric series loader

    The two claims on the loading of the series files.  They rest on what
    the extractions read from decimal numerals (above): a numeral of the
    element type, standing between white space, is read in full and gives
    its value. *)

Lemma no_space_app a b : no_space (a ++ b) = (no_space a && no_space b)%bool.
Proof.
  induction a as [|c a IH]; [reflexivity|]. cbn [append no_space]. rewrite IH.
  apply andb_assoc.
Qed.

Lemma sign_no_space sg : is_sign sg = true -> no_space sg = true.
Proof. intros H. destruct (is_sign_cases sg H) as [E|[E|E]]; subst sg; reflexivity. Qed.

Lemma exponent_letter_no_space el : is_exponent_letter el = true -> no_space el = true.
Proof.
  intros H. destruct (is_exponent_letter_cases el H) as [E|E]; subst el; reflexivity.
Qed.

(** A numeral for an [int] is a numeric token of the [int] scanner. *)
Lemma int_numeral_numeric tok v : int_numeral tok v -> numeric get_int tok v.
Proof.
  intros (sg & ds & -> & Hs & Hd & Hn & -> & Hr).
  pose proof (starts_with_digit_app ds "" Hd Hn) as Hsd. rewrite append_nil_r in Hsd.
  split; [|split].
  - destruct ds; [contradiction|]. destruct sg; discriminate.
  - rewrite no_space_app, (sign_no_space _ Hs), (all_digits_no_space _ Hd). reflexivity.
  - unfold get.
    rewrite (skip_ws_start (sg ++ ds))
      by (apply signed_no_space; [exact Hs|intros _; apply digit_no_space, Hsd]).
    rewrite (take_sign_signed sg ds Hs) by (intros _; apply digit_not_a_sign, Hsd).
    cbv beta iota delta [get_int ng_state ng_step ng_init ng_convert].
    rewrite (accumulate_digits _ Hd).
    rewrite (int_convert_signed sg ds Hs Hd Hn), Hr. reflexivity.
Qed.

Lemma mantissa_no_space ip fp (point : bool) :
  all_digits ip = true -> all_digits fp = true ->
  no_space (ip ++ (if point then "." else "") ++ fp) = true.
Proof.
  intros Hi Hf. rewrite !no_space_app, (all_digits_no_space _ Hi), (all_digits_no_space _ Hf).
  destruct point; reflexivity.
Qed.

Lemma mantissa_start ip fp (point : bool) rest :
  all_digits ip = true -> ip <> "" \/ fp <> "" -> (point = false -> fp = "") ->
  starts_with_sign ((ip ++ (if point then "." else "") ++ fp) ++ rest) = false
  /\ starts_with_space ((ip ++ (if point then "." else "") ++ fp) ++ rest) = false.
Proof.
  intros Hi Hne Hp. destruct ip as [|c r].
  - destruct point.
    + split; reflexivity.
    + exfalso. destruct Hne as [H|H]; [contradiction|]. apply H, Hp. reflexivity.
  - cbn [all_digits] in Hi. apply andb_prop in Hi. destruct Hi as [Hc _].
    split; [apply digit_not_a_sign; exact Hc|apply digit_no_space; exact Hc].
Qed.

(** A numeral for a [float] is a numeric token of the [float] scanner. *)
Lemma float_numeral_numeric tok v : float_numeral tok v -> numeric get_float tok v.
Proof.
  intros (sg & ip & fp & x & e & point & -> & Hs & Hi & Hf & Hne & Hp & Hx & -> & Hfin).
  set (mantissa := ip ++ (if point then "." else "") ++ fp) in *.
  destruct (mantissa_start ip fp point x Hi Hne Hp) as [H1 H2]. fold mantissa in H1, H2.
  assert (Hm : mantissa <> "").
  { unfold mantissa. destruct ip; [|discriminate]. destruct point; [discriminate|].
    destruct Hne as [H|H]; [contradiction|]. exfalso. apply H, Hp. reflexivity. }
  split; [|split].
  - destruct mantissa; [contradiction|]. destruct sg; discriminate.
  - rewrite !no_space_app, (sign_no_space _ Hs).
    unfold mantissa. rewrite (mantissa_no_space ip fp point Hi Hf).
    destruct Hx as [[-> _]|(el & esg & ed & -> & He & Hes & Hd & _)]; [reflexivity|].
    rewrite !no_space_app, (exponent_letter_no_space _ He), (sign_no_space _ Hes),
      (all_digits_no_space _ Hd). reflexivity.
  - destruct (scan_mantissa ip fp point Hi Hf Hne Hp) as [ld Hsc]. fold mantissa in Hsc.
    unfold get.
    rewrite (skip_ws_start (sg ++ mantissa ++ x))
      by (apply signed_no_space; [exact Hs|intros _; exact H2]).
    rewrite (take_sign_signed sg (mantissa ++ x) Hs) by (intros _; exact H1).
    cbv beta iota delta [get_float ng_state ng_step ng_init ng_convert].
    destruct Hx as [[-> ->]|(el & esg & ed & -> & He & Hes & Hd & Hn & ->)].
    + rewrite (accumulate_scan_all float_step mantissa _ _ _ "" Hsc).
      cbn [accumulate]. rewrite !append_nil_r.
      unfold float_convert.
      assert (Hpd : parse_decimal (sg ++ squeeze false ip ++ (if point then "." else "") ++ fp)
                    = Some (String.eqb sg "-", digits_value (ip ++ fp),
                            0 - Z.of_nat (String.length fp), "")).
      { destruct point.
        - exact (parse_decimal_point sg ip fp Hs Hi Hf Hne).
        - rewrite (Hp eq_refl) in *. cbn [append]. rewrite !append_nil_r.
          destruct Hne as [H|H]; [|contradiction].
          exact (parse_decimal_whole sg ip Hs Hi H). }
      rewrite Hpd, Hfin. reflexivity.
    + rewrite (accumulate_scan_all float_step mantissa _ _ _ (el ++ esg ++ ed) Hsc).
      pose proof (accumulate_scan_all float_step (el ++ esg ++ ed) _ _ _ ""
                    (scan_exponent ld point el esg ed He Hes Hd Hn)) as Ha.
      rewrite append_nil_r in Ha. rewrite Ha.
      cbn [accumulate]. rewrite !append_nil_r.
      unfold float_convert.
      rewrite (parse_decimal_exponent sg ip fp point esg ed Hs Hi Hf Hne Hp Hes Hd Hn).
      rewrite Hfin. reflexivity.
Qed.

Lemma reads_nothing {T} (ng : num_get T) : rejects_nothing ng -> reads ng "" [].
Proof. intros H. apply reads_stop. unfold get. cbn. rewrite H. reflexivity. Qed.


(** What the extractions read from a file laid out as numerals: their
    values, and then what they read from the text behind them. *)
Lemma series_file_reads {T} (ng : num_get T) (num : string -> T -> Prop)
    env path lead items tail more :
  stops_at_space ng -> (forall tok v, num tok v -> numeric ng tok v) ->
  series_file num env path lead items tail -> reads ng tail more ->
  exists f,
    open_file env path = Some f /\ steady f /\ reads ng (bytes f) (values items ++ more).
Proof.
  intros Hs Hn (Ho & Hl & Hlay) Hm. eexists. split; [exact Ho|]. split; [reflexivity|].
  cbn [regular bytes]. apply layout_reads; try assumption.
  exact (layout_weaken _ _ _ _ Hn Hlay).
Qed.

Lemma series_files_steady env p lq lt ls le iq it isc ie bq bt bs be mq mt ms me :
  series_file float_numeral env (q_file_name p) lq iq bq ->
  series_file int_numeral env (t_file_name p) lt it bt ->
  series_file int_numeral env (s_file_name p) ls isc bs ->
  series_file int_numeral env (e_file_name p) le ie be ->
  reads get_float bq mq -> reads get_int bt mt ->
  reads get_int bs ms -> reads get_int be me ->
  steady_series env p (values iq ++ mq) (values it ++ mt) (values isc ++ ms)
    (values ie ++ me).
Proof.
  intros Hq Ht Hs He Mq Mt Ms Me.
  destruct (series_file_reads get_float _ _ _ _ _ _ _ float_stops float_numeral_numeric
              Hq Mq) as (fq & Oq & Sq & Rq).
  destruct (series_file_reads get_int _ _ _ _ _ _ _ int_stops int_numeral_numeric Ht Mt)
    as (ft & Ot & St & Rt).
  destruct (series_file_reads get_int _ _ _ _ _ _ _ int_stops int_numeral_numeric Hs Ms)
    as (fs & Os & Ss & Rs).
  destruct (series_file_reads get_int _ _ _ _ _ _ _ int_stops int_numeral_numeric He Me)
    as (fe & Oe & Se & Re).
  exists fq, ft, fs, fe. repeat split; assumption.
Qed.

Lemma values_length {T} (items : list (item T)) : length (values items) = length items.
Proof. apply length_map. Qed.

Lemma series_file_again {T} (num : string -> T -> Prop) env env' path path' lead items tail :
  open_file env' path' = open_file env path ->
  series_file num env path lead items tail -> series_file num env' path' lead items tail.
Proof. intros E (Ho & H). split; [rewrite E; exact Ho|exact H]. Qed.

(** C3, as the code has it.  Let each of the four series files be a
    regular file that holds nothing but decimal numerals of its series'
    type and white space: numerals for an [int] (an optional sign and
    digits, the value within the range of [int]) in the tau, scale and
    episode files, numerals for a [float] (with or without point and
    exponent, the value not an infinity in single precision) in the lambda
    file, each separated from the next by white space.  Let the four
    numbers of numerals be such that they can be counted in an [int] and
    that the four arrays have room on the stack.  Then the two passes give,
    for each file of [n] numerals, the count [n] and an array of exactly
    the [n] values in file order, no cell left unwritten, and [main] goes on
    to call the engine with them.  Loading the same contents again, from
    any paths of any environment with room for the arrays, gives the same
    four arrays and counts. *)
Theorem C3_two_pass_read (env : environment) (p : DDMparams)
    (lq lt ls le : string) (iq : list (item float)) (it isc ie : list (item Z)) :
  whole_file float_numeral env (q_file_name p) lq iq ->
  whole_file int_numeral env (t_file_name p) lt it ->
  whole_file int_numeral env (s_file_name p) ls isc ->
  whole_file int_numeral env (e_file_name p) le ie ->
  fits env (length iq) (length it) (length isc) (length ie) = true ->
  exists a,
    series_and_run env p = (complete_run p a, Returned 0)
    /\ arg_lambda_arr a = map Some (values iq)
    /\ arg_lambda_count a = Z.of_nat (length iq)
    /\ arg_tau_arr a = map Some (values it) /\ arg_tau_count a = Z.of_nat (length it)
    /\ arg_scale_arr a = map Some (values isc)
    /\ arg_scale_count a = Z.of_nat (length isc)
    /\ arg_episode_vector a = map Some (values ie)
    /\ arg_episode_count a = Z.of_nat (length ie)
    /\ forall env' p',
         open_file env' (q_file_name p') = open_file env (q_file_name p) ->
         open_file env' (t_file_name p') = open_file env (t_file_name p) ->
         open_file env' (s_file_name p') = open_file env (s_file_name p) ->
         open_file env' (e_file_name p') = open_file env (e_file_name p) ->
         fits env' (length iq) (length it) (length isc) (length ie) = true ->
         exists a',
           series_and_run env' p' = (complete_run p' a', Returned 0)
           /\ arg_lambda_arr a' = arg_lambda_arr a
           /\ arg_lambda_count a' = arg_lambda_count a
           /\ arg_tau_arr a' = arg_tau_arr a /\ arg_tau_count a' = arg_tau_count a
           /\ arg_scale_arr a' = arg_scale_arr a
           /\ arg_scale_count a' = arg_scale_count a
           /\ arg_episode_vector a' = arg_episode_vector a
           /\ arg_episode_count a' = arg_episode_count a.
Proof.
  intros Hq Ht Hs He Hfit.
  assert (Hrun : forall env' p',
             series_file float_numeral env' (q_file_name p') lq iq "" ->
             series_file int_numeral env' (t_file_name p') lt it "" ->
             series_file int_numeral env' (s_file_name p') ls isc "" ->
             series_file int_numeral env' (e_file_name p') le ie "" ->
             fits env' (length iq) (length it) (length isc) (length ie) = true ->
             series_and_run env' p'
             = (complete_run p'
                  (engine_call p' (map Some (values it)) (map Some (values iq))
                     (map Some (values isc)) (map Some (values ie))),
                Returned 0)).
  { intros env' p' Fq Ft Fs Fe Hfit'.
    pose proof (series_files_steady env' p' _ _ _ _ _ _ _ _ _ _ _ _ [] [] [] []
                  Fq Ft Fs Fe (reads_nothing _ float_rejects_nothing)
                  (reads_nothing _ int_rejects_nothing)
                  (reads_nothing _ int_rejects_nothing)
                  (reads_nothing _ int_rejects_nothing)) as Hst.
    rewrite !app_nil_r in Hst. apply (steady_run _ _ _ _ _ _ Hst).
    rewrite !values_length. exact Hfit'. }
  exists (engine_call p (map Some (values it)) (map Some (values iq))
            (map Some (values isc)) (map Some (values ie))).
  split; [exact (Hrun env p Hq Ht Hs He Hfit)|].
  cbn [engine_call arg_lambda_arr arg_lambda_count arg_tau_arr arg_tau_count
       arg_scale_arr arg_scale_count arg_episode_vector arg_episode_count].
  rewrite !length_map, !values_length. repeat (split; [reflexivity|]).
  intros env' p' Eq Et Es Ee Hfit'.
  exists (engine_call p' (map Some (values it)) (map Some (values iq))
            (map Some (values isc)) (map Some (values ie))).
  split; [|cbn; rewrite !length_map, !values_length; repeat split].
  apply Hrun; try assumption; eapply series_file_again; eassumption.
Qed.


(** A concrete file is laid out as claimed: by computation. *)
Ltac check_numeral :=
  match goal with
  | |- int_numeral ?tok _ =>
      exists "", tok;
      split; [reflexivity|]; split; [reflexivity|]; split; [reflexivity|];
      split; [discriminate|]; split; vm_compute; reflexivity
  | |- float_numeral (String ?c (String "." ?fp)) _ =>
      exists "", (String c ""), fp, "", 0, true;
      split; [reflexivity|]; split; [reflexivity|]; split; [reflexivity|];
      split; [reflexivity|]; split; [left; discriminate|];
      split; [discriminate|]; split; [left; split; reflexivity|];
      split; vm_compute; reflexivity
  end.

Ltac check_file :=
  repeat match goal with
         | H : _ = _ |- _ => discriminate H
         | |- series_file _ _ _ _ _ _ => unfold series_file
         | |- whole_file _ _ _ _ _ => unfold whole_file, series_file
         | |- layout _ _ _ => cbn [layout]
         | |- int_numeral _ _ => check_numeral
         | |- float_numeral _ _ => check_numeral
         | |- reads _ _ _ => read_values
         | |- _ /\ _ => split
         | |- _ -> _ => intro
         | |- True => exact I
         | |- _ = _ => vm_compute; reflexivity
         end.

(** C3 on the four files of the spec's scenario. *)
Lemma C3_witness :
  exists a,
    series_and_run scenario_files scenario_params
    = (complete_run scenario_params a, Returned 0)
    /\ arg_lambda_arr a
       = [Some (S754_finite false 13421773 (-27)); Some (S754_finite false 13421773 (-26));
          Some (S754_finite false 10066330 (-25))]
    /\ arg_lambda_count a = 3
    /\ arg_tau_arr a = [Some 1; Some 2; Some 4; Some 8] /\ arg_tau_count a = 4
    /\ arg_scale_arr a = [Some 1; Some 2] /\ arg_scale_count a = 2
    /\ arg_episode_vector a = [] /\ arg_episode_count a = 0.
Proof.
  destruct (C3_two_pass_read scenario_files scenario_params "" "" "" ""
              [("0.1", S754_finite false 13421773 (-27), " ");
               ("0.2", S754_finite false 13421773 (-26), " ");
               ("0.3", S754_finite false 10066330 (-25), "")]
              [("1", 1, NL); ("2", 2, NL); ("4", 4, NL); ("8", 8, "")]
              [("1", 1, " "); ("2", 2, "")]
              [])
    as (a & H & H1 & H2 & H3 & H4 & H5 & H6 & H7 & H8 & _); try check_file.
  exists a. repeat split; assumption.
Defined.

(** C3 as stated fails on a numeral beyond the range of [int].  The file
    [1 2147483648 3] holds three numeric tokens separated by blanks, yet the
    loader gives a series of one element: the extraction of the second
    numeral fails and both passes stop there. *)
Lemma C3_numeral_beyond_int :
  let content := "1 2147483648 3" in
  let env := with_file "t.txt" (regular content) scenario_files in
  tokens content = ["1"; "2147483648"; "3"]
  /\ forallb is_numeral (tokens content) = true
  /\ exists a,
       series_and_run env scenario_params = (complete_run scenario_params a, Returned 0)
       /\ arg_tau_count a = 1 /\ arg_tau_arr a = [Some 1].
Proof.
  cbn zeta. split; [vm_compute; reflexivity|]. split; [vm_compute; reflexivity|].
  eexists. split; [vm_compute; reflexivity|]. split; reflexivity.
Qed.



(** ** A series too large for the stack *)

Lemma layout_repeat {T} (num : string -> T -> Prop) tok v n :
  num tok v -> layout num (repeat (tok, v, " ") n) "".
Proof.
  intros H. induction n as [|n IH]; [exact I|]. cbn [repeat layout].
  split; [exact H|]. split; [reflexivity|]. split; [discriminate|exact IH].
Qed.

Lemma values_repeat {T} tok (v : T) sep n : values (repeat (tok, v, sep) n) = repeat v n.
Proof.
  induction n as [|n IH]; [reflexivity|]. cbn [repeat values map] in *.
  rewrite <- IH. reflexivity.
Qed.

(** A tau file of [n] numerals in an environment with the default stack:
    when the arrays of the four series take more than the stack has, the
    behaviour is undefined once the files are opened and counted. *)
Lemma long_series_overflows n :
  default_stack < sizeof_cell * (Z.of_nat n + 5) ->
  main no_atof PERMUTE
    (with_file "t.txt" (regular (series_text (repeat ("1", 1, " ") n))) scenario_files)
    "ddm" ("-B" :: series_options)
  = ([Stdout start_text; Open "q.txt" true; Open "t.txt" true; Open "s.txt" true;
      Open "e.txt" true],
     Undefined).
Proof.
  intros Hn.
  set (env := with_file "t.txt" (regular (series_text (repeat ("1", 1, " ") n)))
                scenario_files).
  rewrite main_judge.
  assert (Hj : exists l, judge no_atof PERMUTE "ddm" ("-B" :: series_options) = Accepted l
                         /\ params l = set_benchmark_mode true scenario_params).
  { vm_compute. eexists. split; reflexivity. }
  destruct Hj as (l & -> & Hp). rewrite Hp.
  assert (Ht : reads get_int (series_text (repeat ("1", 1, " ") n)) (repeat 1 n)).
  { pose proof (layout_reads get_int (repeat ("1", 1, " ") n) int_stops "" "" []
                  eq_refl
                  (layout_weaken _ _ _ _ int_numeral_numeric
                     (layout_repeat int_numeral "1" 1 n
                        ltac:(exists "", "1"; repeat split; discriminate)))
                  (reads_nothing _ int_rejects_nothing)) as H.
    rewrite append_nil_r, app_nil_r, values_repeat in H. exact H. }
  assert (Hr : exists vq vs ve,
             series_read env (set_benchmark_mode true scenario_params)
               vq vq (repeat 1 n) (repeat 1 n) vs vs ve ve
             /\ length vq = 3%nat /\ length vs = 2%nat /\ length ve = 0%nat).
  { do 3 eexists. split.
    - apply steady_series_read.
      exists (regular "0.1 0.2 0.3"), (regular (series_text (repeat ("1", 1, " ") n))),
        (regular "1 2"), (regular "").
      split; [repeat split; reflexivity|]. split; [repeat split; reflexivity|].
      split; [read_values|]. split; [exact Ht|]. split; read_values.
    - repeat split; reflexivity. }
  destruct Hr as (vq & vs & ve & Hr & Lq & Ls & Le).
  rewrite (series_and_run_loads _ _ _ _ _ _ _ _ _ _ Hr).
  unfold loaded_run, loads, fits. rewrite Lq, Ls, Le, repeat_length.
  assert (E : (sizeof_cell * Z.of_nat (3 + n + 2 + 0) <=? stack env) = false).
  { apply Z.leb_gt. change (stack env) with default_stack. unfold sizeof_cell in *. lia. }
  rewrite E, !andb_false_r. reflexivity.
Qed.

(** A tau file of 2 500 000 numerals is more than the default stack has
    room for: the four files are opened and counted, and the behaviour is
    undefined from there; the engine is not called. *)
Lemma large_series_overflows_the_stack :
  let content := series_text (repeat ("1", 1, " ") (Z.to_nat 2500000)) in
  let env := with_file "t.txt" (regular content) scenario_files in
  main no_atof PERMUTE env "ddm" ("-B" :: series_options)
  = ([Stdout start_text; Open "q.txt" true; Open "t.txt" true; Open "s.txt" true;
      Open "e.txt" true],
     Undefined).
Proof.
  cbv zeta. apply long_series_overflows.
  rewrite Z2Nat.id by lia. unfold default_stack, sizeof_cell. lia.
Qed.
